(** * kNet UDP MessageConnection: a shallow embedding of the protocol engine

    Sources: src/src/UDPMessageConnection.cpp and src/src/MessageConnection.cpp.
    Integers are [Z] with their C++ wrap-around written out; the C++ [float]
    fields of the RTO estimator and the ping tracker are modelled as rationals
    [Q]. A [Clock::Tick()] read is an explicit [now] argument. *)

From Stdlib Require Import ZArith QArith Qround Qabs List Bool Lia.
From Stdlib Require Import Sorting.Sorted Lqa.
Import ListNotations.

Open Scope Z_scope.

(** ** Clock and packet ids *)

Module Clock.

(** Modelled from the spec: [Clock] (kNet/Clock.h) is not under src/.
    [tick_t] is an unsigned 64-bit tick; differences wrap. *)
Definition tick_modulus : Z := 2 ^ 64.

Definition TicksInBetween (newTick oldTick : Z) : Z :=
  (newTick - oldTick) mod tick_modulus.

(** Milliseconds of a tick count, as a floating value. *)
Definition TicksToMilliseconds (ticksPerSec ticks : Z) : Q :=
  (inject_Z ticks * inject_Z 1000 / inject_Z ticksPerSec)%Q.

(** [TimespanToMillisecondsF(oldTick, newTick)]. *)
Definition TimespanToMilliseconds (ticksPerSec oldTick newTick : Z) : Q :=
  TicksToMilliseconds ticksPerSec (TicksInBetween newTick oldTick).

End Clock.

(** Modelled from the spec: [AddPacketID] (kNet/PacketID.h) is not under
    src/. Packet ids are 22-bit sequence numbers with wrap-around. *)
Definition PacketIDMask : Z := 2 ^ 22 - 1.

Definition AddPacketID (id add : Z) : Z := Z.land (id + add) PacketIDMask.

(** [std::min] and [std::max] on floats: [min(a,b) = b < a ? b : a],
    [max(a,b) = a < b ? b : a]. *)
Definition Qltb (a b : Q) : bool := negb (Qle_bool b a).

Definition fmin (a b : Q) : Q := if Qlt_le_dec b a then b else a.
Definition fmax (a b : Q) : Q := if Qlt_le_dec a b then b else a.

(** ** Connection state *)

Inductive ConnectionState :=
| ConnectionPending
| ConnectionOK
| ConnectionDisconnecting
| ConnectionPeerClosed
| ConnectionClosed.

(** ** HandleDisconnectAckMessage (UDPMessageConnection.cpp:936-945)
    The branch only selects the log line; the state is then set. *)
Definition HandleDisconnectAckMessage (connectionState : ConnectionState)
  : ConnectionState :=
  match connectionState with
  | ConnectionDisconnecting => ConnectionClosed
  | _ => ConnectionClosed
  end.

(** ** Outbound messages and the message heap

    A [NetworkMessage *] is a handle ([nat]) into a heap of messages, so that
    mutation through one pointer is seen through every other copy. *)
Record NetworkMessage := mkMsg {
  msg_id : Z;
  msg_reliable : bool;
  msg_inOrder : bool;
  msg_priority : Z;
  msg_contentID : Z;
  msg_messageNumber : Z;
  msg_reliableMessageNumber : Z;
  msg_sendCount : Z;
  msg_obsolete : bool;
  msg_transfer : option nat;   (* handle of the FragmentedTransfer, if any *)
  msg_fragmentIndex : Z;
  msg_dataSize : Z
}.

Definition null_msg : NetworkMessage :=
  mkMsg 0 false false 0 0 0 0 0 false None 0 0.

Definition deref (heap : list NetworkMessage) (h : nat) : NetworkMessage :=
  nth h heap null_msg.

(** Store [v] at index [h]; out of range the heap is unchanged. *)
Fixpoint list_set {A} (l : list A) (h : nat) (v : A) : list A :=
  match l, h with
  | [], _ => []
  | _ :: r, O => v :: r
  | x :: r, S h' => x :: list_set r h' v
  end.

Definition set_msg (heap : list NetworkMessage) (h : nat) (f : NetworkMessage -> NetworkMessage)
  : list NetworkMessage :=
  list_set heap h (f (deref heap h)).

Definition with_obsolete (m : NetworkMessage) : NetworkMessage :=
  mkMsg m.(msg_id) m.(msg_reliable) m.(msg_inOrder) m.(msg_priority) m.(msg_contentID)
        m.(msg_messageNumber) m.(msg_reliableMessageNumber) m.(msg_sendCount) true
        m.(msg_transfer) m.(msg_fragmentIndex) m.(msg_dataSize).

Definition incr_sendCount (m : NetworkMessage) : NetworkMessage :=
  mkMsg m.(msg_id) m.(msg_reliable) m.(msg_inOrder) m.(msg_priority) m.(msg_contentID)
        m.(msg_messageNumber) m.(msg_reliableMessageNumber) (m.(msg_sendCount) + 1)
        m.(msg_obsolete) m.(msg_transfer) m.(msg_fragmentIndex) m.(msg_dataSize).

(** The send priority queue: [Front()] is the head; [Insert] places a message
    after every queued message of at least its priority. *)
Fixpoint pq_insert (heap : list NetworkMessage) (h : nat) (q : list nat) : list nat :=
  match q with
  | [] => [h]
  | x :: r =>
      if (deref heap h).(msg_priority) >? (deref heap x).(msg_priority)
      then h :: q else x :: pq_insert heap h r
  end.

(** [NetworkMessage::IsNewerThan]: message numbers compared with wrap. *)
Definition MessageNumberIsNewer (a b : Z) : bool :=
  let d := (a - b) mod 2 ^ 32 in (0 <? d) && (d <? 2 ^ 31).

(** ** AcceptOutboundMessages (MessageConnection.cpp:366-389) *)
Module Accept.

Record State := mkState {
  connectionState : ConnectionState;
  heap : list NetworkMessage;
  outboundAcceptQueue : list nat;
  outboundQueue : list nat;
  (* outboundContentIDMessages: (message id, content id) -> message *)
  outboundContentIDMessages : list ((Z * Z) * nat)
}.

Fixpoint assoc_find (k : Z * Z) (l : list ((Z * Z) * nat)) : option nat :=
  match l with
  | [] => None
  | (k', v) :: r => if (fst k =? fst k') && (snd k =? snd k') then Some v else assoc_find k r
  end.

Fixpoint assoc_put (k : Z * Z) (v : nat) (l : list ((Z * Z) * nat)) : list ((Z * Z) * nat) :=
  match l with
  | [] => [(k, v)]
  | (k', v') :: r =>
      if (fst k =? fst k') && (snd k =? snd k') then (k, v) :: r else (k', v') :: assoc_put k v r
  end.

(** CheckAndSaveOutboundMessageWithContentID (MessageConnection.cpp:830-863). *)
Definition CheckAndSaveOutboundMessageWithContentID
    (heap : list NetworkMessage) (tbl : list ((Z * Z) * nat)) (h : nat)
  : list NetworkMessage * list ((Z * Z) * nat) :=
  let msg := deref heap h in
  if msg.(msg_contentID) =? 0 then (heap, tbl) else
  let key := (msg.(msg_id), msg.(msg_contentID)) in
  match assoc_find key tbl with
  | Some old =>
      if MessageNumberIsNewer msg.(msg_messageNumber) (deref heap old).(msg_messageNumber)
      then (set_msg heap old with_obsolete, assoc_put key h tbl)
      else (set_msg heap h with_obsolete, tbl)
  | None => (heap, assoc_put key h tbl)
  end.

(** The loop [while(Size() > 0 && --numMessagesToAcceptPerFrame > 0)]. *)
Fixpoint accept_loop (numMessagesToAcceptPerFrame : Z) (s : State) (fuel : nat) : State :=
  match fuel with
  | O => s
  | S fuel' =>
    match s.(outboundAcceptQueue) with
    | [] => s
    | h :: rest =>
      let n := numMessagesToAcceptPerFrame - 1 in
      if n >? 0 then
        let q := pq_insert s.(heap) h s.(outboundQueue) in
        let '(heap', tbl') :=
          CheckAndSaveOutboundMessageWithContentID s.(heap) s.(outboundContentIDMessages) h in
        accept_loop n (mkState s.(connectionState) heap' rest q tbl') fuel'
      else s
    end
  end.

Definition AcceptOutboundMessages (s : State) : State :=
  match s.(connectionState) with
  | ConnectionOK => accept_loop 500 s (length s.(outboundAcceptQueue))
  | _ => s
  end.

End Accept.

(** ** NewDatagramSent (UDPMessageConnection.cpp:701-710) *)
Module Pacing.

(** [(tick_t)(Clock::TicksPerSec() / datagramSendRate)]: a float quotient
    truncated to ticks. *)
Definition datagramSendTickDelay (ticksPerSec : Z) (datagramSendRate : Q) : Z :=
  Qfloor (inject_Z ticksPerSec / datagramSendRate).

Definition NewDatagramSent (ticksPerSec : Z) (datagramSendRate : Q) (now lastDatagramSendTime : Z)
  : Z :=
  let delay := datagramSendTickDelay ticksPerSec datagramSendRate in
  if Clock.TicksInBetween now lastDatagramSendTime / delay <? 20
  then (lastDatagramSendTime + delay) mod Clock.tick_modulus
  else now.

Definition CanSendOutNewDatagram (ticksPerSec : Z) (datagramSendRate : Q) (now lastDatagramSendTime : Z)
  : bool :=
  Clock.TicksInBetween now lastDatagramSendTime >=? datagramSendTickDelay ticksPerSec datagramSendRate.

End Pacing.

(** ** RTO estimator (UDPMessageConnection.cpp:46-56, 92-104, 817-872) *)
Module RTO.

Local Open Scope Q_scope.

Record State := mkState {
  retransmissionTimeout : Q;
  smoothedRTT : Q;
  rttVariation : Q;
  rttCleared : bool;
  numLossesLastFrame : Z
}.

Definition minRTOTimeoutValue : Q := 1000.
Definition maxRTOTimeoutValue : Q := 5000.

(** The constructor's initialisers, [retransmissionTimeout(3.f),
    smoothedRTT(3.f), rttVariation(0.f), rttCleared(true)]. *)
Definition initial : State := mkState 3 3 0 true 0.

(** [Initialize()] resets the same four fields to the same values. *)
Definition Initialize (s : State) : State :=
  mkState 3 3 0 true s.(numLossesLastFrame).

Definition UpdateRTOCounterOnPacketAck (rtt : Q) (s : State) : State :=
  let alpha : Q := 1 # 8 in
  let beta : Q := 1 # 4 in
  let '(rttVariation', smoothedRTT') :=
    if s.(rttCleared)
    then (rtt / 2, rtt)
    else ((1 - beta) * s.(rttVariation) + beta * Qabs (s.(smoothedRTT) - rtt),
          (1 - alpha) * s.(smoothedRTT) + alpha * rtt) in
  let safetyThresholdAdd : Q := 1 in
  let safetyThresholdMul : Q := 2 in
  mkState (fmin maxRTOTimeoutValue
             (fmax minRTOTimeoutValue
                (safetyThresholdAdd + safetyThresholdMul * (smoothedRTT' + rttVariation'))))
          smoothedRTT' rttVariation' false s.(numLossesLastFrame).

Definition UpdateRTOCounterOnPacketLoss (s : State) : State :=
  let v := fmin maxRTOTimeoutValue (fmax minRTOTimeoutValue (s.(smoothedRTT) * 2)) in
  mkState v v 0 s.(rttCleared) (s.(numLossesLastFrame) + 1).

(** The states the estimator can reach: construction, [Initialize], and any
    sequence of ack and loss updates. *)
Inductive reachable : State -> Prop :=
| reach_initial : reachable initial
| reach_Initialize s : reachable s -> reachable (Initialize s)
| reach_ack s rtt : reachable s -> reachable (UpdateRTOCounterOnPacketAck rtt s)
| reach_loss s : reachable s -> reachable (UpdateRTOCounterOnPacketLoss s).

Definition rto_in_bounds (s : State) : Prop :=
  (1000 <= s.(retransmissionTimeout) <= 5000)%Q.

End RTO.

(** ** HandlePingReplyMessage (MessageConnection.cpp:993-1022) *)
Module Ping.

Record PingTrack := mkPingTrack {
  pingID : Z;
  pingSentTick : Z;
  pingReplyTick : Z;
  replyReceived : bool
}.

Record State := mkState {
  ping : list PingTrack;   (* ConnectionStatistics::ping *)
  rtt : Q
}.

(** The scan [for(i...) if (ping[i].pingID == pingID && !ping[i].replyReceived)]:
    the first match is stamped with the reply tick; the new RTT sample is
    returned alongside. *)
Fixpoint match_reply (ticksPerSec now pid : Z) (l : list PingTrack)
  : option (list PingTrack * Q) :=
  match l with
  | [] => None
  | e :: r =>
      if (e.(pingID) =? pid) && negb e.(replyReceived) then
        let e' := mkPingTrack e.(pingID) e.(pingSentTick) now true in
        let newRtt := Clock.TicksToMilliseconds ticksPerSec
                        (Clock.TicksInBetween e'.(pingReplyTick) e'.(pingSentTick)) in
        Some (e' :: r, newRtt)
      else
        match match_reply ticksPerSec now pid r with
        | Some (r', newRtt) => Some (e :: r', newRtt)
        | None => None
        end
  end.

Definition rttPredictBias : Q := 1 # 2.

Definition HandlePingReplyMessage (ticksPerSec now : Z) (data : list Z) (s : State) : State :=
  match data with
  | [pid] =>
      match match_reply ticksPerSec now pid s.(ping) with
      | Some (ping', newRtt) =>
          mkState ping' (rttPredictBias * newRtt + (1 * rttPredictBias) * s.(rtt))%Q
      | None => s
      end
  | _ => s
  end.

(** The first pending entry for [pid], as the scan meets it. *)
Fixpoint first_pending (pid : Z) (l : list PingTrack) : option PingTrack :=
  match l with
  | [] => None
  | e :: r => if (e.(pingID) =? pid) && negb e.(replyReceived) then Some e else first_pending pid r
  end.

End Ping.

(** ** Serialisation of fixed-width fields

    Modelled from the spec: [DataSerializer::Add<T>] and
    [DataDeserializer::Read<T>] (kNet/DataSerializer.h, DataDeserializer.h)
    are not under src/. A [u8]/[u16]/[u32] is written little-endian, truncated
    to its width. *)
Fixpoint le_bytes (n : nat) (x : Z) : list Z :=
  match n with
  | O => []
  | S n' => x mod 256 :: le_bytes n' (x / 256)
  end.

Fixpoint le_read (n : nat) (bytes : list Z) : option (Z * list Z) :=
  match n with
  | O => Some (0, bytes)
  | S n' =>
      match bytes with
      | [] => None
      | b :: r =>
          match le_read n' r with
          | Some (v, r') => Some (b + 256 * v, r')
          | None => None
          end
      end
  end.

(** ** Packet acks (UDPMessageConnection.cpp:106-117, 874-925) *)
Module Ack.

(** [inboundPacketAckTrack]: a [std::map] from packet id to the tick the
    datagram was received, as an association list sorted by key. *)
Definition AckMap := list (Z * Z).

Fixpoint map_find (k : Z) (m : AckMap) : bool :=
  match m with
  | [] => false
  | (k', _) :: r => (k =? k') || map_find k r
  end.

Fixpoint map_erase (k : Z) (m : AckMap) : AckMap :=
  match m with
  | [] => []
  | (k', v) :: r => if k =? k' then r else (k', v) :: map_erase k r
  end.

(** [map[k]] followed by assignment of [v]. *)
Fixpoint map_set (k v : Z) (m : AckMap) : AckMap :=
  match m with
  | [] => [(k, v)]
  | (k', v') :: r =>
      if k =? k' then (k, v) :: r
      else if k <? k' then (k, v) :: m
      else (k', v') :: map_set k v r
  end.

(** The inner loop [for(int i = 0; i < 32; ++i)] of [SendPacketAckMessage],
    from index [i] for [n] more rounds. Returns the map, the bitfield, and the
    ids the loop erased, in order. *)
Fixpoint ack_bits (packetID : Z) (i : nat) (n : nat) (m : AckMap) (sequence : Z)
  : AckMap * Z * list Z :=
  match n with
  | O => (m, sequence, [])
  | S n' =>
      let id := AddPacketID packetID (Z.of_nat i + 1) in
      let '(m1, sequence1, found) :=
        if map_find id m
        then (map_erase id m, Z.lor sequence (Z.shiftl 1 (Z.of_nat i)), [id])
        else (m, sequence, []) in
      let '(m', sq, er) := ack_bits packetID (S i) n' m1 sequence1 in
      (m', sq, found ++ er)
  end.

(** The 7-byte payload: [u8 packetID & 0xFF], [u16 packetID >> 8],
    [u32 sequence]. *)
Definition ack_payload (packetID sequence : Z) : list Z :=
  le_bytes 1 (Z.land packetID 255) ++ le_bytes 2 (Z.shiftr packetID 8) ++ le_bytes 4 sequence.

(** One round of the outer loop of [SendPacketAckMessage]: the first key of
    the map is erased and acked together with its 32 successors. Returns the
    payload, the ids erased (in order) and the remaining map. *)
Definition SendPacketAckStep (m : AckMap) : option (list Z * list Z * AckMap) :=
  match m with
  | [] => None
  | (packetID, _) :: _ =>
      let '(m', sequence, erased) := ack_bits packetID 0 32 (map_erase packetID m) 0 in
      Some (ack_payload packetID sequence, packetID :: erased, m')
  end.

(** [SendPacketAckMessage]: [while(inboundPacketAckTrack.size() > 0)]; every
    payload is passed to [EndAndQueueMessage] as a [MsgIdPacketAck] message.
    [queued] lists these messages in call order; whether
    [EndAndQueueMessage] then queues or frees each one is modelled in
    [Out.EndAndQueueMessage]. *)
Fixpoint SendPacketAckMessage_loop (fuel : nat) (m : AckMap) (queued : list (list Z))
  : AckMap * list (list Z) :=
  match fuel with
  | O => (m, queued)
  | S fuel' =>
      match SendPacketAckStep m with
      | None => (m, queued)
      | Some (payload, _, m') => SendPacketAckMessage_loop fuel' m' (queued ++ [payload])
      end
  end.

Definition SendPacketAckMessage (m : AckMap) (queued : list (list Z)) : AckMap * list (list Z) :=
  SendPacketAckMessage_loop (length m) m queued.

Definition maxAckDelay : Q := 33.

(** [PerformPacketAckSends]: the first entry of the map (lowest packet id) is
    the one whose age is tested. *)
Fixpoint PerformPacketAckSends_loop (ticksPerSec now : Z) (fuel : nat) (m : AckMap)
    (queued : list (list Z)) : AckMap * list (list Z) :=
  match fuel with
  | O => (m, queued)
  | S fuel' =>
      match m with
      | [] => (m, queued)
      | (_, sentTick) :: _ =>
          if Qltb (Clock.TimespanToMilliseconds ticksPerSec sentTick now) maxAckDelay
             && (Z.of_nat (length m) <? 33)
          then (m, queued)
          else
            let '(m', queued') := SendPacketAckMessage m queued in
            PerformPacketAckSends_loop ticksPerSec now fuel' m' queued'
      end
  end.

Definition PerformPacketAckSends (ticksPerSec now : Z) (m : AckMap) : AckMap * list (list Z) :=
  PerformPacketAckSends_loop ticksPerSec now (length m) m [].

(** [HandlePacketAckMessage]: the packet ids it passes to
    [FreeOutboundPacketAckTrack], in call order; a payload that is not 7
    bytes long frees nothing. *)
Fixpoint acked_successors (packetID sequence : Z) (i : nat) (n : nat) : list Z :=
  match n with
  | O => []
  | S n' =>
      (if negb (Z.land sequence (Z.shiftl 1 (Z.of_nat i)) =? 0)
       then [AddPacketID packetID (1 + Z.of_nat i)] else [])
      ++ acked_successors packetID sequence (S i) n'
  end.

Definition HandlePacketAckMessage (data : list Z) : list Z :=
  if negb (Nat.eqb (length data) 7) then [] else
  match le_read 1 data with
  | None => []
  | Some (packetIDLow, r1) =>
    match le_read 2 r1 with
    | None => []
    | Some (packetIDHigh, r2) =>
      match le_read 4 r2 with
      | None => []
      | Some (sequence, _) =>
          let packetID := Z.lor packetIDLow (Z.shiftl packetIDHigh 8) in
          packetID :: acked_successors packetID sequence 0 32
      end
    end
  end.

End Ack.

(** ** Control message ids

    Modelled from the spec: kNet/NetworkMessage.h is not under src/; only the
    distinctness of these ids matters here. *)
Definition MsgIdPingRequest : Z := 1.
Definition MsgIdPingReply : Z := 2.
Definition MsgIdFlowControlRequest : Z := 3.
Definition MsgIdPacketAck : Z := 4.
Definition MsgIdDisconnect : Z := 1073741823.
Definition MsgIdDisconnectAck : Z := 1073741822.

(** ** SendOutPacket (UDPMessageConnection.cpp:247-461) *)
Module Send.

Record PacketAckTrack := mkTrack {
  track_packetID : Z;
  track_sendCount : Z;
  track_sentTick : Z;
  track_timeoutTick : Z;
  track_datagramSendRate : Q;
  track_messages : list nat
}.

Record State := mkState {
  connectionState : ConnectionState;
  heap : list NetworkMessage;
  outboundQueue : list nat;
  freedMessages : list nat;          (* FreeMessage calls, in order *)
  transferIDs : list Z;              (* FragmentedTransfer::id, by transfer handle *)
  freeTransferIDs : list Z;          (* FragmentedSendManager's unused ids *)
  datagramSerializedMessages : list nat;
  skippedMessages : list nat;
  datagramPacketIDCounter : Z;
  lastSentInOrderPacketID : Z;
  outboundPacketAckTrack : list PacketAckTrack;
  lastDatagramSendTime : Z;
  datagramSendRate : Q;
  retransmissionTimeout : Q
}.

(** The socket and the worker's environment for one call. *)
Record Env := mkEnv {
  ticksPerSec : Z;
  now : Z;
  bOutboundSendsPaused : bool;
  isWriteOpen : bool;
  beginSendOk : bool;      (* socket->BeginSend() returned a buffer *)
  endSendOk : bool;        (* socket->EndSend(data) succeeded *)
  maxSendSize : Z
}.

Inductive PacketSendResult :=
| PacketSendOK
| PacketSendSocketClosed
| PacketSendSocketFull
| PacketSendNoMessages
| PacketSendThrottled.

(** Modelled from the spec: [FragmentedSendManager::AllocateFragmentedTransferID]
    is not under src/. It takes an unused 8-bit id if one is left and stores it
    in the transfer (shared by all its fragments); otherwise it fails. *)
Definition AllocateFragmentedTransferID (t : nat) (transferIDs freeIDs : list Z)
  : option (list Z * list Z) :=
  match freeIDs with
  | id :: ids => Some (list_set transferIDs t id, ids)
  | [] => None
  end.

Section Packing.

(** [NetworkMessage::GetTotalDatagramPackedSize] (NetworkMessage.cpp, not
    under src/) is left abstract: everything below holds for any size. *)
Variable GetTotalDatagramPackedSize : NetworkMessage -> Z.
Variable maxSendSize : Z.

(** Locals of the fill loop [while(outboundQueue.Size() > 0)]. *)
Record Packer := mkPacker {
  p_queue : list nat;
  p_freed : list nat;
  p_transferIDs : list Z;
  p_freeIDs : list Z;
  p_serialized : list nat;
  p_skipped : list nat;
  p_packetSizeInBytes : Z;
  p_reliable : bool;
  p_inOrder : bool;
  p_smallestReliableMessageNumber : Z
}.

Definition cBytesForInOrderDeltaCounter : Z := 2.
Definition minSendSize : Z := 1.

Fixpoint fill (heap : list NetworkMessage) (fuel : nat) (p : Packer) : Packer :=
  match fuel with
  | O => p
  | S fuel' =>
    match p.(p_queue) with
    | [] => p
    | h :: rest =>
      let msg := deref heap h in
      if msg.(msg_obsolete) then
        fill heap fuel' (mkPacker rest (p.(p_freed) ++ [h]) p.(p_transferIDs) p.(p_freeIDs)
                           p.(p_serialized) p.(p_skipped) p.(p_packetSizeInBytes)
                           p.(p_reliable) p.(p_inOrder) p.(p_smallestReliableMessageNumber))
      else
      let alloc :=
        match msg.(msg_transfer) with
        | Some t =>
            if nth t p.(p_transferIDs) (-1) =? -1
            then AllocateFragmentedTransferID t p.(p_transferIDs) p.(p_freeIDs)
            else Some (p.(p_transferIDs), p.(p_freeIDs))
        | None => Some (p.(p_transferIDs), p.(p_freeIDs))
        end in
      match alloc with
      | None =>
        fill heap fuel' (mkPacker rest p.(p_freed) p.(p_transferIDs) p.(p_freeIDs)
                           p.(p_serialized) (p.(p_skipped) ++ [h]) p.(p_packetSizeInBytes)
                           p.(p_reliable) p.(p_inOrder) p.(p_smallestReliableMessageNumber))
      | Some (tids, fids) =>
        let totalMessageSize :=
          GetTotalDatagramPackedSize msg
          + (if msg.(msg_inOrder) && negb p.(p_inOrder) then cBytesForInOrderDeltaCounter else 0) in
        if (p.(p_packetSizeInBytes) >=? minSendSize)
           && (p.(p_packetSizeInBytes) + totalMessageSize >=? maxSendSize)
        then mkPacker p.(p_queue) p.(p_freed) tids fids p.(p_serialized) p.(p_skipped)
               p.(p_packetSizeInBytes) p.(p_reliable) p.(p_inOrder)
               p.(p_smallestReliableMessageNumber)
        else
        fill heap fuel' (mkPacker rest p.(p_freed) tids fids (p.(p_serialized) ++ [h]) p.(p_skipped)
                           (p.(p_packetSizeInBytes) + totalMessageSize)
                           (p.(p_reliable) || msg.(msg_reliable))
                           (p.(p_inOrder) || msg.(msg_inOrder))
                           (if msg.(msg_reliable)
                            then Z.min p.(p_smallestReliableMessageNumber) msg.(msg_reliableMessageNumber)
                            else p.(p_smallestReliableMessageNumber)))
      end
    end
  end.

End Packing.

Definition reinsert (heap : list NetworkMessage) (hs : list nat) (q : list nat) : list nat :=
  fold_left (fun q h => pq_insert heap h q) hs q.

Definition bump_sendCounts (hs : list nat) (heap : list NetworkMessage) : list NetworkMessage :=
  fold_left (fun hp h => set_msg hp h incr_sendCount) hs heap.

Definition is_reliable (heap : list NetworkMessage) (h : nat) : bool :=
  (deref heap h).(msg_reliable).

Definition SendOutPacket (GetTotalDatagramPackedSize : NetworkMessage -> Z) (env : Env) (s : State)
  : PacketSendResult * State :=
  if negb env.(isWriteOpen) then (PacketSendSocketClosed, s) else
  if env.(bOutboundSendsPaused) then (PacketSendNoMessages, s) else
  if Nat.eqb (length s.(outboundQueue)) 0 then (PacketSendNoMessages, s) else
  if negb (Pacing.CanSendOutNewDatagram env.(ticksPerSec) s.(datagramSendRate) env.(now)
             s.(lastDatagramSendTime)) then (PacketSendThrottled, s) else
  if negb env.(beginSendOk) then (PacketSendThrottled, s) else
  let heap := s.(heap) in
  let p := fill GetTotalDatagramPackedSize env.(maxSendSize) heap (length s.(outboundQueue))
             (mkPacker s.(outboundQueue) s.(freedMessages) s.(transferIDs) s.(freeTransferIDs)
                       [] [] 3 false false 4294967295) in
  let serialized := p.(p_serialized) in
  let queue := reinsert heap p.(p_skipped) p.(p_queue) in
  let packetID := s.(datagramPacketIDCounter) in
  let sentDisconnectAckMessage :=
    existsb (fun h => (deref heap h).(msg_id) =? MsgIdDisconnectAck) serialized in
  if negb env.(endSendOk) then
    (PacketSendSocketFull,
     mkState s.(connectionState) heap (reinsert heap serialized queue) p.(p_freed)
       p.(p_transferIDs) p.(p_freeIDs) serialized p.(p_skipped)
       s.(datagramPacketIDCounter) s.(lastSentInOrderPacketID) s.(outboundPacketAckTrack)
       s.(lastDatagramSendTime) s.(datagramSendRate) s.(retransmissionTimeout))
  else
  let heap' := bump_sendCounts serialized heap in
  let last' := Pacing.NewDatagramSent env.(ticksPerSec) s.(datagramSendRate) env.(now)
                 s.(lastDatagramSendTime) in
  let counter' := AddPacketID s.(datagramPacketIDCounter) 1 in
  let '(tracks', freed') :=
    if p.(p_reliable) then
      let track :=
        mkTrack packetID 1 env.(now)
          ((env.(now) + Qfloor (s.(retransmissionTimeout) * inject_Z env.(ticksPerSec) / 1000))
             mod Clock.tick_modulus)
          s.(datagramSendRate)
          (filter (is_reliable heap') serialized) in
      (s.(outboundPacketAckTrack) ++ [track],
       p.(p_freed) ++ filter (fun h => negb (is_reliable heap' h)) serialized)
    else (s.(outboundPacketAckTrack), p.(p_freed) ++ serialized) in
  (PacketSendOK,
   mkState (if sentDisconnectAckMessage then ConnectionClosed else s.(connectionState))
     heap' queue freed' p.(p_transferIDs) p.(p_freeIDs) serialized p.(p_skipped)
     counter' packetID tracks' last' s.(datagramSendRate) s.(retransmissionTimeout)).

End Send.

(** ** ExtractMessages (UDPMessageConnection.cpp:526-685) *)
Module Recv.

(** [DataDeserializer::VLEReadError]. *)
Definition VLEReadError : Z := 4294967295.

(** Modelled from the spec: the variable-length readers of
    [DataDeserializer::ReadVLE] (kNet/VLEPacker.h) are not under src/. The
    top bit of a narrower field says that a wider one follows. [ReadVLE]
    reports a failed read by returning [VLEReadError], which the callers
    test for (lines 578, 638, 651); a read that runs past the end of the
    datagram fails that way and leaves the reader at the end. *)
Definition read_u8 (r : list Z) : option (Z * list Z) := le_read 1 r.
Definition read_u16 (r : list Z) : option (Z * list Z) := le_read 2 r.

Definition ReadVLE8_16 (r : list Z) : Z * list Z :=
  match read_u8 r with
  | None => (VLEReadError, [])
  | Some (b0, r1) =>
      if Z.testbit b0 7 then
        match read_u8 r1 with
        | None => (VLEReadError, [])
        | Some (b1, r2) => (Z.lor (Z.land b0 127) (Z.shiftl b1 7), r2)
        end
      else (b0, r1)
  end.

Definition ReadVLE8_16_32 (r : list Z) : Z * list Z :=
  match read_u8 r with
  | None => (VLEReadError, [])
  | Some (b0, r1) =>
      if Z.testbit b0 7 then
        match read_u8 r1 with
        | None => (VLEReadError, [])
        | Some (b1, r2) =>
            if Z.testbit b1 7 then
              match read_u16 r2 with
              | None => (VLEReadError, [])
              | Some (w, r3) =>
                  (Z.lor (Z.lor (Z.land b0 127) (Z.shiftl (Z.land b1 127) 7)) (Z.shiftl w 14), r3)
              end
            else (Z.lor (Z.land b0 127) (Z.shiftl b1 7), r2)
        end
      else (b0, r1)
  end.

Definition ReadVLE16_32 (r : list Z) : Z * list Z :=
  match read_u16 r with
  | None => (VLEReadError, [])
  | Some (w0, r1) =>
      if Z.testbit w0 15 then
        match read_u16 r1 with
        | None => (VLEReadError, [])
        | Some (w1, r2) => (Z.lor (Z.land w0 32767) (Z.shiftl w1 15), r2)
        end
      else (w0, r1)
  end.

(** Modelled from the spec: [FragmentedReceiveManager] is not under src/.
    "Fragment-start allocates a reassembly buffer keyed by transfer id; later
    fragments append; when the last fragment arrives, the buffer is
    assembled". *)
Record ReassemblyBuffer := mkBuffer {
  rb_id : Z;
  rb_numTotalFragments : Z;
  rb_fragments : list (Z * list Z)   (* fragment index, payload *)
}.

Definition FragmentedReceives := list ReassemblyBuffer.

Definition drop_transfer (tid : Z) (fr : FragmentedReceives) : FragmentedReceives :=
  filter (fun b => negb (b.(rb_id) =? tid)) fr.

Definition NewFragmentStartReceived (tid numTotal : Z) (payload : list Z) (fr : FragmentedReceives)
  : FragmentedReceives :=
  drop_transfer tid fr ++ [mkBuffer tid numTotal [(0, payload)]].

Fixpoint NewFragmentReceived (tid idx : Z) (payload : list Z) (fr : FragmentedReceives)
  : FragmentedReceives * bool :=
  match fr with
  | [] => ([], false)
  | b :: r =>
      if b.(rb_id) =? tid then
        let frags := b.(rb_fragments) ++ [(idx, payload)] in
        (mkBuffer tid b.(rb_numTotalFragments) frags :: r,
         Z.of_nat (length frags) >=? b.(rb_numTotalFragments))
      else
        let '(r', ready) := NewFragmentReceived tid idx payload r in (b :: r', ready)
  end.

Fixpoint fragment_at (k : Z) (frags : list (Z * list Z)) : list Z :=
  match frags with
  | [] => []
  | (i, d) :: r => if i =? k then d else fragment_at k r
  end.

Definition AssembleMessage (tid : Z) (fr : FragmentedReceives) : list Z :=
  match find (fun b => b.(rb_id) =? tid) fr with
  | Some b =>
      flat_map (fun k => fragment_at (Z.of_nat k) b.(rb_fragments))
               (seq 0 (Z.to_nat b.(rb_numTotalFragments)))
  | None => []
  end.

Record State := mkState {
  inboundQueueCapacityLeft : Z;        (* inboundMessageQueue.CapacityLeft() *)
  lastHeardTime : Z;
  inboundPacketAckTrack : Ack.AckMap;
  receivedPacketIDs : list Z;
  receivedReliableMessages : list Z;
  fragmentedReceives : FragmentedReceives;
  handledInbound : list (Z * list Z)   (* HandleInboundMessage(packetID, data) calls *)
}.

(** Locals of the message loop that outlive one iteration. *)
Record Parser := mkParser {
  q_receivedReliableMessages : list Z;
  q_fragmentedReceives : FragmentedReceives;
  q_handled : list (Z * list Z)
}.

(** The outcome of one iteration of the message loop: [Abort q] is a
    [return] out of [ExtractMessages], keeping what the iteration had already
    changed ([q]); [Next q r] goes on with the rest [r] of the reader. *)
Inductive Step :=
| Abort (q : Parser)
| Next (q : Parser) (r : list Z).

Definition step_parser (st : Step) : Parser :=
  match st with Abort q => q | Next q _ => q end.

(** Where the loop goes on: [None] after a [return], else the rest. *)
Definition step_rest (st : Step) : option (list Z) :=
  match st with Abort _ => None | Next _ r => Some r end.

(** One message of the datagram (lines 588-677). The transfer id is read
    with [Read<u8>], which is no [ReadVLE]: when no byte is left for it the
    iteration is abandoned, as the content-length check that follows it
    would return in any case (no byte left, [contentLength] at least 1) and
    nothing changes in between. *)
Definition parse_message (packetID reliableMessageIndexBase : Z) (r : list Z) (q : Parser)
  : Step :=
  if (length r <? 2)%nat then Abort q else
  match read_u16 r with
  | None => Abort q
  | Some (hdr, r) =>
  let fragmentStart := Z.testbit hdr 15 in
  let fragment := Z.testbit hdr 14 || fragmentStart in
  let messageReliable := Z.testbit hdr 12 in
  let contentLength := Z.land hdr (2 ^ 11 - 1) in
  let '(duplicateMessage, rrm, r) :=
    if messageReliable then
      let '(delta, r) := ReadVLE8_16 r in
      let reliableMessageNumber := reliableMessageIndexBase + delta in
      if existsb (Z.eqb reliableMessageNumber) q.(q_receivedReliableMessages)
      then (true, q.(q_receivedReliableMessages), r)
      else (false, q.(q_receivedReliableMessages) ++ [reliableMessageNumber], r)
    else (false, q.(q_receivedReliableMessages), r) in
  let q := mkParser rrm q.(q_fragmentedReceives) q.(q_handled) in
  if contentLength =? 0 then Abort q else
  let '(numTotalFragments, r) := if fragmentStart then ReadVLE8_16_32 r else (0, r) in
  match (if fragment then read_u8 r else Some (0, r)) with
  | None => Abort q
  | Some (fragmentTransferID, r) =>
  let '(fragmentNumber, r) :=
    if fragment && negb fragmentStart then ReadVLE8_16_32 r else (0, r) in
  if Z.of_nat (length r) <? contentLength then Abort q else
  let payload := firstn (Z.to_nat contentLength) r in
  let r' := skipn (Z.to_nat contentLength) r in
  if fragmentStart then
    if (numTotalFragments =? VLEReadError) || (numTotalFragments <=? 1) then Abort q else
    if duplicateMessage then Next q r' else
    Next (mkParser q.(q_receivedReliableMessages)
            (NewFragmentStartReceived fragmentTransferID numTotalFragments payload
               q.(q_fragmentedReceives))
            q.(q_handled)) r'
  else if fragment then
    if fragmentNumber =? VLEReadError then Abort q else
    let '(fr, messageReady) :=
      NewFragmentReceived fragmentTransferID fragmentNumber payload q.(q_fragmentedReceives) in
    if messageReady then
      let assembledData := AssembleMessage fragmentTransferID fr in
      Next (mkParser q.(q_receivedReliableMessages) (drop_transfer fragmentTransferID fr)
              (q.(q_handled) ++ [(packetID, assembledData)])) r'
    else Next (mkParser q.(q_receivedReliableMessages) fr q.(q_handled)) r'
  else if duplicateMessage then Next q r'
  else Next (mkParser q.(q_receivedReliableMessages) q.(q_fragmentedReceives)
               (q.(q_handled) ++ [(packetID, payload)])) r'
  end
  end.

(** [while(reader.BytesLeft() > 0)]. The flag tells whether the loop ran to
    the end of the datagram ([true]) or left it by [return] ([false]). *)
Fixpoint parse_messages (fuel : nat) (packetID base : Z) (r : list Z) (q : Parser)
  : Parser * bool :=
  match fuel with
  | O => (q, true)
  | S fuel' =>
      match r with
      | [] => (q, true)
      | _ =>
          match parse_message packetID base r q with
          | Abort q' => (q', false)
          | Next q' r' => parse_messages fuel' packetID base r' q'
          end
      end
  end.

(** [receivedPacketIDs(64 * 1024)] (line 54) and its [Add]: the class is
    declared in a header that is not under src/; modelled from the spec as a
    bounded FIFO whose overflow drops the oldest id. *)
Definition receivedPacketIDsCapacity : Z := 64 * 1024.

Definition AddReceivedPacketID (packetID : Z) (ids : list Z) : list Z :=
  if Z.of_nat (length ids) <? receivedPacketIDsCapacity then ids ++ [packetID]
  else tl ids ++ [packetID].

Definition ExtractMessages (now : Z) (data : list Z) (s : State) : State :=
  if s.(inboundQueueCapacityLeft) <? 64 then s else
  let s := mkState s.(inboundQueueCapacityLeft) now s.(inboundPacketAckTrack)
             s.(receivedPacketIDs) s.(receivedReliableMessages) s.(fragmentedReceives)
             s.(handledInbound) in
  if (length data <? 3)%nat then s else
  match read_u8 data with None => s | Some (flags, r) =>
  match read_u16 r with None => s | Some (hi, r) =>
  let packetReliable := Z.testbit flags 6 in
  let packetID := Z.lor (Z.shiftl hi 6) (Z.land flags 63) in
  let '(reliableMessageIndexBase, r) := if packetReliable then ReadVLE16_32 r else (0, r) in
  let ackTrack :=
    if packetReliable then Ack.map_set packetID now s.(inboundPacketAckTrack)
    else s.(inboundPacketAckTrack) in
  let s := mkState s.(inboundQueueCapacityLeft) s.(lastHeardTime) ackTrack
             s.(receivedPacketIDs) s.(receivedReliableMessages) s.(fragmentedReceives)
             s.(handledInbound) in
  if existsb (Z.eqb packetID) s.(receivedPacketIDs) then s else
  let '(q, completed) :=
    parse_messages (length r) packetID reliableMessageIndexBase r
      (mkParser s.(receivedReliableMessages) s.(fragmentedReceives) s.(handledInbound)) in
  mkState s.(inboundQueueCapacityLeft) s.(lastHeardTime) s.(inboundPacketAckTrack)
    (if completed then AddReceivedPacketID packetID s.(receivedPacketIDs)
     else s.(receivedPacketIDs))
    q.(q_receivedReliableMessages) q.(q_fragmentedReceives) q.(q_handled)
  end end.

End Recv.

(** ** BiasedBinarySearchFindPacketIndex (UDPMessageConnection.cpp:751-785)

    The queue is given by the packet ids of its tracks, [ItemAt(i)] reading
    the id at index [i]. Packet ids are 22-bit values, so their casts between
    [int] and [u32] are identities; the interpolation step is computed as the
    source does, in unsigned 32-bit arithmetic converted back to [int]. The
    [while] loop runs on [fuel]: [None] means it has not returned within
    [fuel] iterations. *)
Module Search.

Definition ItemAt (ids : list Z) (idx : Z) : Z := nth (Z.to_nat idx) ids 0.

Definition u32_to_int (x : Z) : Z := if x <? 2 ^ 31 then x else x - 2 ^ 32.

Fixpoint search_loop (ids : list Z) (packetID : Z) (fuel : nat)
    (headIdx headID tailIdx tailID : Z) : option Z :=
  match fuel with
  | O => None
  | S fuel' =>
      if headIdx <? tailIdx then
        let newIdx :=
          u32_to_int (((tailIdx - headIdx) * (packetID - headID)) mod 2 ^ 32
                      / ((tailID - headID) mod 2 ^ 32)) in
        let newIdx := Z.max (headIdx + 1) (Z.min (tailIdx - 1) newIdx) in
        let newID := ItemAt ids newIdx in
        if newID =? packetID then Some newIdx
        else if newID <? packetID
        then search_loop ids packetID fuel' newIdx newID tailIdx tailID
        else search_loop ids packetID fuel' headIdx headID newIdx newID
      else Some (-1)
  end.

Definition BiasedBinarySearchFindPacketIndex (ids : list Z) (packetID : Z) (fuel : nat)
  : option Z :=
  let headIdx := 0 in
  let headID := ItemAt ids headIdx in
  if headID =? packetID then Some headIdx else
  let tailIdx := Z.of_nat (length ids) - 1 in
  let tailID := ItemAt ids tailIdx in
  if tailID =? packetID then Some tailIdx else
  if (packetID <? headID) || (tailID <? packetID) then Some (-1) else
  search_loop ids packetID fuel headIdx headID tailIdx tailID.

End Search.

(** ** Flow control and the ack-track queue (UDPMessageConnection.cpp:92-104,
    163-235, 787-815)

    The worker-side fields of a UDP connection that [Initialize],
    [ProcessPacketTimeouts], [HandleFlowControl] and
    [FreeOutboundPacketAckTrack] read and write. [numLossesLastFrame] is the
    field of the RTO estimator's state. *)
Module Flow.

Record State := mkState {
  rto : RTO.State;
  datagramSendRate : Q;
  lowestDatagramSendRateOnPacketLoss : Q;
  numAcksLastFrame : Z;
  lastFrameTime : Z;
  lastDatagramSendTime : Z;
  heap : list NetworkMessage;
  outboundQueue : list nat;
  outboundPacketAckTrack : list Send.PacketAckTrack;
  freedMessages : list nat;          (* FreeMessage calls, in order *)
  removedFromTransfer : list nat     (* FragmentedSendManager::RemoveMessage calls *)
}.

(** [Initialize()], with [Clock::Tick()] read as [now]. *)
Definition Initialize (now : Z) (s : State) : State :=
  mkState (RTO.Initialize s.(rto)) 70 s.(lowestDatagramSendRateOnPacketLoss)
    s.(numAcksLastFrame) now now s.(heap) s.(outboundQueue)
    s.(outboundPacketAckTrack) s.(freedMessages) s.(removedFromTransfer).

Definition totalEstimatedBandwidth : Q := 50.
Definition additiveIncreaseAggressiveness : Q := 5 # 100.

Definition reset_losses (r : RTO.State) : RTO.State :=
  RTO.mkState r.(RTO.retransmissionTimeout) r.(RTO.smoothedRTT) r.(RTO.rttVariation)
    r.(RTO.rttCleared) 0.

(** [HandleFlowControl()]; both [Clock::Tick()] reads are [now]. *)
Definition HandleFlowControl (ticksPerSec now : Z) (s : State) : State :=
  let frameLength := ticksPerSec / 100 in
  let numFrames := Clock.TicksInBetween now s.(lastFrameTime) / frameLength in
  if 0 <? numFrames then
    let numFrames := if 100 <=? numFrames then 100 else numFrames in
    let '(rate, lowest) :=
      if 5 <? s.(rto).(RTO.numLossesLastFrame)
      then (fmin s.(datagramSendRate)
              (fmax 1 (s.(lowestDatagramSendRateOnPacketLoss) * (9 # 10))),
            s.(lowestDatagramSendRateOnPacketLoss))
      else
        let increment :=
          fmin (inject_Z numFrames * additiveIncreaseAggressiveness
                * (totalEstimatedBandwidth - s.(datagramSendRate))) 1 in
        let rate := fmin (s.(datagramSendRate) + increment) totalEstimatedBandwidth in
        (rate, rate) in
    mkState (reset_losses s.(rto)) rate lowest 0
      (if numFrames <? 100
       then (s.(lastFrameTime) + numFrames * frameLength) mod Clock.tick_modulus
       else now)
      s.(lastDatagramSendTime) s.(heap) s.(outboundQueue)
      s.(outboundPacketAckTrack) s.(freedMessages) s.(removedFromTransfer)
  else s.

Section Timeouts.

(** [Clock::IsNewer] (kNet/Clock.h) is not under src/: any comparison of
    ticks. *)
Variable IsNewer : Z -> Z -> bool.

(** The [while] loop of [ProcessPacketTimeouts()], one track per iteration;
    the queue is the list it is run on. *)
Fixpoint timeouts_loop (now : Z) (tracks : list Send.PacketAckTrack) (s : State) : State :=
  match tracks with
  | [] =>
      mkState s.(rto) s.(datagramSendRate) s.(lowestDatagramSendRateOnPacketLoss)
        s.(numAcksLastFrame) s.(lastFrameTime) s.(lastDatagramSendTime) s.(heap)
        s.(outboundQueue) [] s.(freedMessages) s.(removedFromTransfer)
  | track :: rest =>
      if IsNewer track.(Send.track_timeoutTick) now
      then mkState s.(rto) s.(datagramSendRate) s.(lowestDatagramSendRateOnPacketLoss)
             s.(numAcksLastFrame) s.(lastFrameTime) s.(lastDatagramSendTime) s.(heap)
             s.(outboundQueue) tracks s.(freedMessages) s.(removedFromTransfer)
      else
        timeouts_loop now rest
          (mkState (RTO.UpdateRTOCounterOnPacketLoss s.(rto)) s.(datagramSendRate)
             (fmin s.(lowestDatagramSendRateOnPacketLoss) track.(Send.track_datagramSendRate))
             s.(numAcksLastFrame) s.(lastFrameTime) s.(lastDatagramSendTime) s.(heap)
             (Send.reinsert s.(heap) track.(Send.track_messages) s.(outboundQueue))
             rest s.(freedMessages) s.(removedFromTransfer))
  end.

Definition ProcessPacketTimeouts (now : Z) (s : State) : State :=
  timeouts_loop now s.(outboundPacketAckTrack) s.

End Timeouts.

(** The ack-track table keyed by packet id, in send order: [Find] gives the
    first track with the id, [Remove] deletes it. *)
Fixpoint track_find (packetID : Z) (l : list Send.PacketAckTrack) : option Send.PacketAckTrack :=
  match l with
  | [] => None
  | t :: r => if t.(Send.track_packetID) =? packetID then Some t else track_find packetID r
  end.

Fixpoint track_remove (packetID : Z) (l : list Send.PacketAckTrack) : list Send.PacketAckTrack :=
  match l with
  | [] => []
  | t :: r => if t.(Send.track_packetID) =? packetID then r else t :: track_remove packetID r
  end.

(** [Clock::TimespanToSecondsD(oldTick, newTick)]. *)
Definition TimespanToSeconds (ticksPerSec oldTick newTick : Z) : Q :=
  (inject_Z (Clock.TicksInBetween newTick oldTick) / inject_Z ticksPerSec)%Q.

Definition FreeOutboundPacketAckTrack (ticksPerSec now packetID : Z) (s : State) : State :=
  match track_find packetID s.(outboundPacketAckTrack) with
  | None => s
  | Some track =>
      let msgs := track.(Send.track_messages) in
      let removed := s.(removedFromTransfer)
                     ++ filter (fun h => match (deref s.(heap) h).(msg_transfer) with
                                         | Some _ => true | None => false end) msgs in
      let freed := s.(freedMessages) ++ msgs in
      let '(r, acks) :=
        if track.(Send.track_sendCount) <=? 1
        then (RTO.UpdateRTOCounterOnPacketAck
                (TimespanToSeconds ticksPerSec track.(Send.track_sentTick) now) s.(rto),
              s.(numAcksLastFrame) + 1)
        else (s.(rto), s.(numAcksLastFrame)) in
      mkState r s.(datagramSendRate) s.(lowestDatagramSendRateOnPacketLoss) acks
        s.(lastFrameTime) s.(lastDatagramSendTime) s.(heap) s.(outboundQueue)
        (track_remove packetID s.(outboundPacketAckTrack)) freed removed
  end.

(** [UDPMessageConnection::HandlePacketAckMessage]: the ack message decoded as
    in [Ack.HandlePacketAckMessage] (the packet id, then each id its sequence
    bits acknowledge), and [FreeOutboundPacketAckTrack] called on each. *)
Definition HandlePacketAckMessage (ticksPerSec now : Z) (data : list Z) (s : State) : State :=
  fold_left (fun s id => FreeOutboundPacketAckTrack ticksPerSec now id s)
    (Ack.HandlePacketAckMessage data) s.

End Flow.

(** ** Queueing outbound messages (MessageConnection.cpp:105-121, 432-612,
    957-991; UDPMessageConnection.cpp:712-726, 927-934)

    The application-side fields of a connection that [StartNewMessage],
    [EndAndQueueMessage] and [SplitAndQueueMessage] use. A message's bytes
    ([NetworkMessage::data]) are kept by handle in [payload], beside the heap.
    The pool's [New()] is a fresh handle at the end of the heap. *)
Module Out.

Record Transfer := mkTransfer {
  totalNumFragments : Z;
  fragments : list nat
}.

Record State := mkState {
  connectionState : ConnectionState;
  socket : bool;                     (* socket != 0 *)
  socketWriteOpen : bool;            (* socket->IsWriteOpen() *)
  maxSendSize : Z;                   (* socket->MaxSendSize() *)
  heap : list NetworkMessage;
  payload : list (list Z);
  outboundQueue : list nat;
  outboundAcceptQueue : list nat;
  acceptQueueCapacity : nat;
  freedMessages : list nat;          (* FreeMessage calls, in order *)
  transfers : list Transfer;         (* FragmentedSendManager's transfers *)
  outboundMessageNumberCounter : Z;
  outboundReliableMessageNumberCounter : Z;
  bOutboundSendsPaused : bool;
  eventMsgsOutAvailable : bool;
  ping : list Ping.PingTrack         (* ConnectionStatistics::ping *)
}.

Definition with_heap (s : State) (heap payload : _) : State :=
  mkState s.(connectionState) s.(socket) s.(socketWriteOpen) s.(maxSendSize) heap payload
    s.(outboundQueue) s.(outboundAcceptQueue) s.(acceptQueueCapacity) s.(freedMessages)
    s.(transfers) s.(outboundMessageNumberCounter) s.(outboundReliableMessageNumberCounter)
    s.(bOutboundSendsPaused) s.(eventMsgsOutAvailable) s.(ping).

Definition with_queues (s : State) (q aq : list nat) : State :=
  mkState s.(connectionState) s.(socket) s.(socketWriteOpen) s.(maxSendSize) s.(heap)
    s.(payload) q aq s.(acceptQueueCapacity) s.(freedMessages)
    s.(transfers) s.(outboundMessageNumberCounter) s.(outboundReliableMessageNumberCounter)
    s.(bOutboundSendsPaused) s.(eventMsgsOutAvailable) s.(ping).

Definition with_counters (s : State) (c rc : Z) : State :=
  mkState s.(connectionState) s.(socket) s.(socketWriteOpen) s.(maxSendSize) s.(heap)
    s.(payload) s.(outboundQueue) s.(outboundAcceptQueue) s.(acceptQueueCapacity)
    s.(freedMessages) s.(transfers) c rc
    s.(bOutboundSendsPaused) s.(eventMsgsOutAvailable) s.(ping).

Definition with_transfers (s : State) (ts : list Transfer) : State :=
  mkState s.(connectionState) s.(socket) s.(socketWriteOpen) s.(maxSendSize) s.(heap)
    s.(payload) s.(outboundQueue) s.(outboundAcceptQueue) s.(acceptQueueCapacity)
    s.(freedMessages) ts s.(outboundMessageNumberCounter)
    s.(outboundReliableMessageNumberCounter)
    s.(bOutboundSendsPaused) s.(eventMsgsOutAvailable) s.(ping).

Definition with_connectionState (s : State) (st : ConnectionState) : State :=
  mkState st s.(socket) s.(socketWriteOpen) s.(maxSendSize) s.(heap)
    s.(payload) s.(outboundQueue) s.(outboundAcceptQueue) s.(acceptQueueCapacity)
    s.(freedMessages) s.(transfers) s.(outboundMessageNumberCounter)
    s.(outboundReliableMessageNumberCounter)
    s.(bOutboundSendsPaused) s.(eventMsgsOutAvailable) s.(ping).

Definition with_ping (s : State) (p : list Ping.PingTrack) : State :=
  mkState s.(connectionState) s.(socket) s.(socketWriteOpen) s.(maxSendSize) s.(heap)
    s.(payload) s.(outboundQueue) s.(outboundAcceptQueue) s.(acceptQueueCapacity)
    s.(freedMessages) s.(transfers) s.(outboundMessageNumberCounter)
    s.(outboundReliableMessageNumberCounter)
    s.(bOutboundSendsPaused) s.(eventMsgsOutAvailable) p.

Definition FreeMessage (h : nat) (s : State) : State :=
  mkState s.(connectionState) s.(socket) s.(socketWriteOpen) s.(maxSendSize) s.(heap)
    s.(payload) s.(outboundQueue) s.(outboundAcceptQueue) s.(acceptQueueCapacity)
    (s.(freedMessages) ++ [h]) s.(transfers) s.(outboundMessageNumberCounter)
    s.(outboundReliableMessageNumberCounter)
    s.(bOutboundSendsPaused) s.(eventMsgsOutAvailable) s.(ping).

(** [if (!bOutboundSendsPaused) eventMsgsOutAvailable.Set();] *)
Definition SignalMsgsOut (s : State) : State :=
  mkState s.(connectionState) s.(socket) s.(socketWriteOpen) s.(maxSendSize) s.(heap)
    s.(payload) s.(outboundQueue) s.(outboundAcceptQueue) s.(acceptQueueCapacity)
    s.(freedMessages) s.(transfers) s.(outboundMessageNumberCounter)
    s.(outboundReliableMessageNumberCounter)
    s.(bOutboundSendsPaused) (negb s.(bOutboundSendsPaused) || s.(eventMsgsOutAvailable))
    s.(ping).

(** [PauseOutboundSends()] (MessageConnection.cpp:277-281):
    [eventMsgsOutAvailable.Reset(); bOutboundSendsPaused = true;] *)
Definition PauseOutboundSends (s : State) : State :=
  mkState s.(connectionState) s.(socket) s.(socketWriteOpen) s.(maxSendSize) s.(heap)
    s.(payload) s.(outboundQueue) s.(outboundAcceptQueue) s.(acceptQueueCapacity)
    s.(freedMessages) s.(transfers) s.(outboundMessageNumberCounter)
    s.(outboundReliableMessageNumberCounter) true false s.(ping).

Definition is_closed (st : ConnectionState) : bool :=
  match st with ConnectionClosed => true | _ => false end.

Definition is_disconnecting (st : ConnectionState) : bool :=
  match st with ConnectionDisconnecting => true | _ => false end.

Definition IsWriteOpen (s : State) : bool :=
  s.(socket) && s.(socketWriteOpen) && negb (is_disconnecting s.(connectionState))
  && negb (is_closed s.(connectionState)).

(** [outboundAcceptQueue.Insert(msg)]: fails when the ring is full. *)
Definition AcceptQueueInsert (h : nat) (s : State) : option State :=
  if Nat.ltb (length s.(outboundAcceptQueue)) s.(acceptQueueCapacity)
  then Some (with_queues s s.(outboundQueue) (s.(outboundAcceptQueue) ++ [h]))
  else None.

Definition set_dataSize (n : Z) (m : NetworkMessage) : NetworkMessage :=
  mkMsg m.(msg_id) m.(msg_reliable) m.(msg_inOrder) m.(msg_priority) m.(msg_contentID)
        m.(msg_messageNumber) m.(msg_reliableMessageNumber) m.(msg_sendCount)
        m.(msg_obsolete) m.(msg_transfer) m.(msg_fragmentIndex) n.

Definition set_priority (p : Z) (m : NetworkMessage) : NetworkMessage :=
  mkMsg m.(msg_id) m.(msg_reliable) m.(msg_inOrder) p m.(msg_contentID)
        m.(msg_messageNumber) m.(msg_reliableMessageNumber) m.(msg_sendCount)
        m.(msg_obsolete) m.(msg_transfer) m.(msg_fragmentIndex) m.(msg_dataSize).

Definition set_reliable (r : bool) (m : NetworkMessage) : NetworkMessage :=
  mkMsg m.(msg_id) r m.(msg_inOrder) m.(msg_priority) m.(msg_contentID)
        m.(msg_messageNumber) m.(msg_reliableMessageNumber) m.(msg_sendCount)
        m.(msg_obsolete) m.(msg_transfer) m.(msg_fragmentIndex) m.(msg_dataSize).

(** [AllocateNewMessage()] followed by [Resize(numBytes)]. [NetworkMessage::
    Resize] is not under src/: as the [assert(msg->Size() == numBytes)] of
    [SendMessage] after it shows, it makes the message [numBytes] bytes long
    (the new bytes taken as 0). A new message's fields not assigned here are
    those of [null_msg]. *)
Definition StartNewMessage (id numBytes : Z) (s : State) : nat * State :=
  let h := length s.(heap) in
  let m := null_msg in
  let m := mkMsg id false m.(msg_inOrder) 0 0 m.(msg_messageNumber)
             m.(msg_reliableMessageNumber) m.(msg_sendCount) false None
             m.(msg_fragmentIndex) numBytes in
  (h, with_heap s (s.(heap) ++ [m]) (s.(payload) ++ [repeat 0 (Z.to_nat numBytes)])).

Definition sendHeaderUpperBound : Z := 32.

(** The [while(byteOffset < message->dataSize)] loop of
    [SplitAndQueueMessage], on [fuel]. [FragmentedTransfer::AddMessage]
    (not under src/) appends the fragment to the transfer [t]. *)
Fixpoint split_loop (message : NetworkMessage) (data : list Z) (internalQueue : bool)
    (maxFragmentSize : Z) (t : nat) (fuel : nat) (byteOffset currentFragmentIndex : Z)
    (s : State) : State :=
  match fuel with
  | O => s
  | S fuel' =>
      if byteOffset <? message.(msg_dataSize) then
        let thisFragmentSize := Z.min maxFragmentSize (message.(msg_dataSize) - byteOffset) in
        let '(f, s) := StartNewMessage message.(msg_id) thisFragmentSize s in
        let heap' :=
          set_msg s.(heap) f (fun m =>
            mkMsg m.(msg_id) true message.(msg_inOrder) message.(msg_priority)
                  message.(msg_contentID) s.(outboundMessageNumberCounter)
                  message.(msg_reliableMessageNumber) 0 m.(msg_obsolete) (Some t)
                  currentFragmentIndex m.(msg_dataSize)) in
        let payload' :=
          list_set s.(payload) f (firstn (Z.to_nat thisFragmentSize)
                                    (skipn (Z.to_nat byteOffset) data)) in
        let s := with_heap s heap' payload' in
        let s := with_counters s (s.(outboundMessageNumberCounter) + 1)
                   s.(outboundReliableMessageNumberCounter) in
        let tr := nth t s.(transfers) (mkTransfer 0 []) in
        let s := with_transfers s
                   (list_set s.(transfers) t
                      (mkTransfer tr.(totalNumFragments) (tr.(fragments) ++ [f]))) in
        let s :=
          if internalQueue
          then with_queues s (pq_insert s.(heap) f s.(outboundQueue)) s.(outboundAcceptQueue)
          else match AcceptQueueInsert f s with Some s' => s' | None => s end in
        split_loop message data internalQueue maxFragmentSize t fuel'
          (byteOffset + thisFragmentSize) (currentFragmentIndex + 1) s
      else s
  end.

Definition SplitAndQueueMessage (h : nat) (internalQueue : bool) (maxFragmentSize : Z)
    (s : State) : State :=
  let message := deref s.(heap) h in
  let totalNumFragments :=
    ((message.(msg_dataSize) + maxFragmentSize - 1) mod 2 ^ 64) / maxFragmentSize in
  let t := length s.(transfers) in
  let s := with_transfers s (s.(transfers) ++ [mkTransfer totalNumFragments []]) in
  let s := split_loop message (nth h s.(payload) []) internalQueue maxFragmentSize t
             (Z.to_nat message.(msg_dataSize)) 0 0 s in
  FreeMessage h (SignalMsgsOut s).

(** [numBytes] is a [size_t]; [(size_t)(-1)] keeps the message's size. *)
Definition size_t_minus_1 : Z := 2 ^ 64 - 1.

Definition EndAndQueueMessage (h : nat) (numBytes : Z) (internalQueue : bool) (s : State)
  : State :=
  let msg := deref s.(heap) h in
  if msg.(msg_obsolete) || negb s.(socket) || is_closed s.(connectionState)
     || negb (IsWriteOpen s)
  then FreeMessage h s else
  let s := if numBytes =? size_t_minus_1 then s
           else with_heap s (set_msg s.(heap) h (set_dataSize numBytes)) s.(payload) in
  let msg := deref s.(heap) h in
  if s.(maxSendSize) <? msg.(msg_dataSize) + sendHeaderUpperBound then
    let maxFragmentSize := (s.(maxSendSize) / 4 - sendHeaderUpperBound) mod 2 ^ 64 in
    SplitAndQueueMessage h internalQueue maxFragmentSize s
  else
  let mn := s.(outboundMessageNumberCounter) in
  let rmn := if msg.(msg_reliable) then s.(outboundReliableMessageNumberCounter) else 0 in
  let heap' :=
    set_msg s.(heap) h (fun m =>
      mkMsg m.(msg_id) m.(msg_reliable) m.(msg_inOrder) m.(msg_priority) m.(msg_contentID)
            mn rmn 0 m.(msg_obsolete) m.(msg_transfer) m.(msg_fragmentIndex) m.(msg_dataSize)) in
  let s := with_heap s heap' s.(payload) in
  let s := with_counters s (mn + 1)
             (if msg.(msg_reliable) then s.(outboundReliableMessageNumberCounter) + 1
              else s.(outboundReliableMessageNumberCounter)) in
  if internalQueue
  then SignalMsgsOut (with_queues s (pq_insert s.(heap) h s.(outboundQueue))
                        s.(outboundAcceptQueue))
  else match AcceptQueueInsert h s with
       | Some s' => SignalMsgsOut s'
       | None => FreeMessage h s
       end.

Section Callers.

(** [NetworkMessage::cMaxPriority] and the default of [EndAndQueueMessage]'s
    [internalQueue] parameter are declared in headers that are not under
    src/. *)
Variable cMaxPriority : Z.
Variable internalQueueDefault : bool.
(** The default [numBytes] of [StartNewMessage], also in a header. *)
Variable numBytesDefault : Z.

(** [SendDisconnectAckMessage()]: [EndAndQueueMessage(msg, true)] passes
    [true] as [numBytes], that is 1. *)
Definition SendDisconnectAckMessage (s : State) : State :=
  let '(h, s) := StartNewMessage MsgIdDisconnectAck numBytesDefault s in
  let s := with_heap s (set_msg s.(heap) h (set_priority cMaxPriority)) s.(payload) in
  let s := with_heap s (set_msg s.(heap) h (set_reliable false)) s.(payload) in
  EndAndQueueMessage h 1 internalQueueDefault s.

(** [UDPMessageConnection::HandleDisconnectMessage()]. *)
Definition HandleDisconnectMessage (s : State) : State :=
  if negb (is_closed s.(connectionState))
  then SendDisconnectAckMessage (with_connectionState s ConnectionDisconnecting)
  else s.

(** [SendPingRequestMessage()], with [Clock::Tick()] read as [now]. *)
Definition SendPingRequestMessage (now : Z) (s : State) : State :=
  let pingID := (match rev s.(ping) with
                 | [] => 1
                 | last :: _ => last.(Ping.pingID) + 1
                 end) mod 256 in
  let s := with_ping s (s.(ping) ++ [Ping.mkPingTrack pingID now 0 false]) in
  let '(h, s) := StartNewMessage MsgIdPingRequest 1 s in
  let s := with_heap s s.(heap) (list_set s.(payload) h [pingID]) in
  let s := with_heap s (set_msg s.(heap) h (set_priority (cMaxPriority - 2))) s.(payload) in
  EndAndQueueMessage h 1 true s.

(** [HandlePingRequestMessage(data, numBytes)], the bytes as a list. *)
Definition HandlePingRequestMessage (data : list Z) (s : State) : State :=
  match data with
  | [pingID] =>
      let '(h, s) := StartNewMessage MsgIdPingReply 1 s in
      let s := with_heap s s.(heap) (list_set s.(payload) h [pingID]) in
      let s := with_heap s (set_msg s.(heap) h (set_priority (cMaxPriority - 1))) s.(payload) in
      EndAndQueueMessage h 1 true s
  | _ => s
  end.

End Callers.

End Out.

(** ** Inbound content-id stamps: [CheckAndSaveContentIDStamp]
    (MessageConnection.cpp:878-901) *)
Module Stamps.

(** [inboundContentIDStamps]: (message id, content id) -> (packet id, tick). *)
Definition Table := list ((Z * Z) * (Z * Z)).

Fixpoint find (k : Z * Z) (l : Table) : option (Z * Z) :=
  match l with
  | [] => None
  | (k', v) :: r => if (fst k =? fst k') && (snd k =? snd k') then Some v else find k r
  end.

Fixpoint put (k : Z * Z) (v : Z * Z) (l : Table) : Table :=
  match l with
  | [] => [(k, v)]
  | (k', v') :: r =>
      if (fst k =? fst k') && (snd k =? snd k') then (k, v) :: r else (k', v') :: put k v r
  end.

Section Check.

(** [PacketIDIsNewerThan] (kNet/PacketID.h) is not under src/. *)
Variable PacketIDIsNewerThan : Z -> Z -> bool.

(** The returned flag is the C++ return value, the table the updated
    [inboundContentIDStamps]; [Clock::Tick()] is read as [now]. *)
Definition CheckAndSaveContentIDStamp (ticksPerSec now : Z)
    (messageID contentID packetID : Z) (tbl : Table) : bool * Table :=
  let key := (messageID, contentID) in
  match find key tbl with
  | None => (true, put key (packetID, now) tbl)
  | Some (storedPacketID, storedTick) =>
      if PacketIDIsNewerThan packetID storedPacketID
         || Qltb (5 * 1000) (Clock.TimespanToMilliseconds ticksPerSec storedTick now)
      then (true, put key (packetID, now) tbl)
      else (false, tbl)
  end.

End Check.

End Stamps.

(** ** The connection list of [NetworkWorkerThread]
    (NetworkWorkerThread.cpp:36-76); a [Ptr(MessageConnection)] is a handle. *)
Module Worker.

(** The loop over [i] with [erase(begin() + i); return;] at the first match:
    the first occurrence is erased; an absent connection leaves the list. *)
Fixpoint erase_first (c : nat) (l : list nat) : list nat :=
  match l with
  | [] => []
  | x :: r => if Nat.eqb x c then r else x :: erase_first c r
  end.

Definition AddConnection (connection : nat) (connections : list nat) : list nat :=
  connections ++ [connection].

Definition RemoveConnection (connection : nat) (connections : list nat) : list nat :=
  erase_first connection connections.

End Worker.

(** * Properties *)

(** ** Clamping helpers *)

Lemma fmin_fmax_bounds (x : Q) :
  (1000 <= fmin 5000 (fmax 1000 x) <= 5000)%Q.
Proof.
  unfold fmin, fmax.
  destruct (Qlt_le_dec 1000 x) as [H1|H1];
  [destruct (Qlt_le_dec x 5000) as [H2|H2] | destruct (Qlt_le_dec 1000 5000) as [H2|H2]].
  all: repeat match goal with |- context [Qlt_le_dec ?a ?b] => destruct (Qlt_le_dec a b) end.
  all: split; try (apply Qlt_le_weak; assumption); try assumption.
  all: try (unfold Qle; simpl; lia).
  all: try (apply Qlt_le_weak; eapply Qlt_le_trans; eassumption).
  all: try (eapply Qle_trans; [eassumption|]; apply Qlt_le_weak; assumption).
  all: try (exfalso; eapply Qlt_irrefl; eapply Qlt_le_trans; eassumption).
Qed.

Lemma rto_after_ack_in_bounds (rtt : Q) (s : RTO.State) :
  RTO.rto_in_bounds (RTO.UpdateRTOCounterOnPacketAck rtt s).
Proof.
  unfold RTO.rto_in_bounds, RTO.UpdateRTOCounterOnPacketAck.
  destruct (RTO.rttCleared s); apply fmin_fmax_bounds.
Qed.

Lemma rto_after_loss_in_bounds (s : RTO.State) :
  RTO.rto_in_bounds (RTO.UpdateRTOCounterOnPacketLoss s).
Proof. apply fmin_fmax_bounds. Qed.

(** ** Accept loop helpers *)

Lemma pq_insert_length heap h q : length (pq_insert heap h q) = S (length q).
Proof.
  induction q as [|x r IH]; simpl; [reflexivity|].
  destruct (_ >? _); simpl; [reflexivity|]. now rewrite IH.
Qed.

Lemma accept_loop_moves (fuel : nat) : forall (n : Z) (s : Accept.State),
  (length s.(Accept.outboundAcceptQueue) <= fuel)%nat -> (1 <= n) ->
  let s' := Accept.accept_loop n s fuel in
  let k := Nat.min (length s.(Accept.outboundAcceptQueue)) (Z.to_nat (n - 1)) in
  s'.(Accept.outboundAcceptQueue) = skipn k s.(Accept.outboundAcceptQueue) /\
  length s'.(Accept.outboundQueue) = (length s.(Accept.outboundQueue) + k)%nat /\
  s'.(Accept.connectionState) = s.(Accept.connectionState).
Proof.
  induction fuel as [|fuel IH]; intros n s Hlen Hn; simpl.
  - destruct (Accept.outboundAcceptQueue s) eqn:E; simpl in Hlen; [|lia].
    simpl; rewrite ?E; simpl. split; [reflexivity | split; [lia | reflexivity]].
  - destruct (Accept.outboundAcceptQueue s) as [|h rest] eqn:E.
    + simpl; rewrite ?E; simpl. split; [reflexivity | split; [lia | reflexivity]].
    + destruct (n - 1 >? 0) eqn:Hc.
      * destruct (Accept.CheckAndSaveOutboundMessageWithContentID _ _ _) as [heap' tbl'].
        apply Z.gtb_lt in Hc.
        simpl in Hlen.
        destruct (IH (n - 1) (Accept.mkState (Accept.connectionState s) heap' rest
                    (pq_insert (Accept.heap s) h (Accept.outboundQueue s)) tbl'))
          as [H1 [H2 H3]]; simpl; try lia.
        simpl in H1, H2, H3.
        assert (Ht : Z.to_nat (n - 1) = S (Z.to_nat (n - 1 - 1))) by lia.
        rewrite Ht. simpl.
        rewrite H1, H2, H3, pq_insert_length. simpl.
        split; [reflexivity | split; [lia | reflexivity]].
      * rewrite Z.gtb_ltb in Hc. apply Z.ltb_ge in Hc.
        replace (Z.to_nat (n - 1)) with O by lia.
        rewrite Nat.min_0_r. simpl. rewrite E.
        split; [reflexivity | split; [lia | reflexivity]].
Qed.

(** ** Tick arithmetic *)

Lemma TicksInBetween_in_range (now last : Z) :
  0 <= last <= now -> now < Clock.tick_modulus ->
  Clock.TicksInBetween now last = now - last.
Proof. intros. unfold Clock.TicksInBetween. apply Z.mod_small. lia. Qed.

(** ** Ping helpers *)

Lemma match_reply_first (tps now pid : Z) (l : list Ping.PingTrack) (e : Ping.PingTrack) :
  Ping.first_pending pid l = Some e ->
  exists l', Ping.match_reply tps now pid l =
             Some (l', Clock.TicksToMilliseconds tps (Clock.TicksInBetween now e.(Ping.pingSentTick))).
Proof.
  induction l as [|x r IH]; simpl; [discriminate|].
  destruct ((Ping.pingID x =? pid) && negb (Ping.replyReceived x)).
  - intros H; injection H as <-. eexists; reflexivity.
  - intros H. destruct (IH H) as [l' ->]. eexists; reflexivity.
Qed.

(** C10 *)
(** Claim C10: [HandleDisconnectAckMessage] closes the connection from every
    prior state (Pending, OK, Disconnecting, PeerClosed, Closed). *)
Theorem C10_disconnect_ack_always_closes (st : ConnectionState) :
  HandleDisconnectAckMessage st = ConnectionClosed.
Proof. destruct st; reflexivity. Qed.

(** Claim C9: with fewer than 64 free slots in the inbound message queue,
    [ExtractMessages] leaves the whole connection state as it was: nothing is
    handled, no ack entry or received packet id is recorded and
    [lastHeardTime] is not updated. *)
Theorem C9_low_capacity_drops_datagram (now : Z) (data : list Z) (s : Recv.State) :
  Recv.inboundQueueCapacityLeft s < 64 ->
  Recv.ExtractMessages now data s = s.
Proof.
  intros H. unfold Recv.ExtractMessages.
  apply Z.ltb_lt in H. now rewrite H.
Qed.

Lemma C9_low_capacity_drops_datagram_witness :
  Recv.inboundQueueCapacityLeft (Recv.mkState 63 0 [] [] [] [] []) < 64 /\
  Recv.ExtractMessages 7 [64; 0; 0; 5; 0; 1; 16; 0; 9]
    (Recv.mkState 63 0 [] [] [] [] []) = Recv.mkState 63 0 [] [] [] [] [].
Proof.
  split; [reflexivity|].
  apply (C9_low_capacity_drops_datagram 7 _ (Recv.mkState 63 0 [] [] [] [] [])).
  reflexivity.
Defined.

(** Claim C8 (as the code behaves): with the connection in state OK and 500
    messages waiting in the accept queue, one [AcceptOutboundMessages] call
    moves only 499 of them into the send priority queue; one is left behind. *)
Theorem C8_accept_500_moves_only_499 :
  let heap := map (fun k => mkMsg 10 false false 0 0 (Z.of_nat k) 0 0 false None 0 1) (seq 0 500) in
  let s' := Accept.AcceptOutboundMessages (Accept.mkState ConnectionOK heap (seq 0 500) [] []) in
  length s'.(Accept.outboundQueue) = 499%nat /\ length s'.(Accept.outboundAcceptQueue) = 1%nat.
Proof.
  intros heap s'.
  set (st := Accept.mkState ConnectionOK heap (seq 0 500) [] []) in s'.
  assert (Hq : Accept.outboundAcceptQueue st = seq 0 500) by reflexivity.
  destruct (accept_loop_moves 500 500 st) as [H1 [H2 _]];
    [rewrite Hq, length_seq; lia | lia |].
  unfold s', Accept.AcceptOutboundMessages.
  change (Accept.connectionState st) with ConnectionOK. cbv iota.
  rewrite Hq, length_seq in H1, H2. rewrite Hq, length_seq.
  rewrite H2, H1. change (length (Accept.outboundQueue st)) with 0%nat.
  rewrite length_skipn, length_seq. split; reflexivity.
Qed.

(** In general, a call moves [min(N, 499)] messages. *)
Lemma accept_moves_min_499 (s : Accept.State) :
  s.(Accept.connectionState) = ConnectionOK ->
  let k := Nat.min (length s.(Accept.outboundAcceptQueue)) 499 in
  length (Accept.AcceptOutboundMessages s).(Accept.outboundQueue)
    = (length s.(Accept.outboundQueue) + k)%nat.
Proof.
  intros H k. unfold Accept.AcceptOutboundMessages. rewrite H.
  destruct (accept_loop_moves (length (Accept.outboundAcceptQueue s)) 500 s) as [_ [H2 _]];
    [lia | lia |]. exact H2.
Qed.

(** Claim C6, refuted: with a 10-tick slot, exactly twenty slots behind (not
    more than twenty), [NewDatagramSent] jumps to [now] instead of advancing
    by one slot. *)
Lemma C6_exactly_twenty_slots_jumps :
  Pacing.datagramSendTickDelay 1000 100 = 10 /\
  Clock.TicksInBetween 200 0 = 20 * 10 /\
  Pacing.NewDatagramSent 1000 100 200 0 = 200 /\
  Pacing.NewDatagramSent 1000 100 200 0 <> 0 + 10.
Proof. vm_compute. repeat split; discriminate. Qed.

(** Claim C6, amended: a datagram is sent only once a slot of
    [d = trunc(TicksPerSec / datagramSendRate)] ticks has elapsed since
    [lastDatagramSendTime]. Then [NewDatagramSent] advances
    [lastDatagramSendTime] by exactly [d] when fewer than twenty whole slots
    have elapsed ([now - last < 20 d]), and sets it to [now] otherwise. *)
Theorem C6_new_datagram_sent (tps : Z) (rate : Q) (now last : Z) :
  let d := Pacing.datagramSendTickDelay tps rate in
  0 < d -> 0 <= last <= now -> now < Clock.tick_modulus ->
  Pacing.CanSendOutNewDatagram tps rate now last = true ->
  (now - last < 20 * d -> Pacing.NewDatagramSent tps rate now last = last + d) /\
  (20 * d <= now - last -> Pacing.NewDatagramSent tps rate now last = now).
Proof.
  intros d Hd Hl Hn Hc.
  unfold Pacing.CanSendOutNewDatagram in Hc. fold d in Hc.
  unfold Pacing.NewDatagramSent. fold d.
  rewrite TicksInBetween_in_range in * by assumption.
  apply Z.geb_le in Hc.
  split; intros H.
  - assert (Hq : (now - last) / d < 20) by (apply Z.div_lt_upper_bound; lia).
    apply Z.ltb_lt in Hq. rewrite Hq. apply Z.mod_small. lia.
  - assert (Hq : 20 <= (now - last) / d) by (apply Z.div_le_lower_bound; lia).
    destruct ((now - last) / d <? 20) eqn:E; [apply Z.ltb_lt in E; lia | reflexivity].
Qed.

Lemma C6_new_datagram_sent_witness :
  let d := Pacing.datagramSendTickDelay 1000 100 in
  (0 < d /\ 0 <= 0 <= 50 /\ 50 < Clock.tick_modulus /\
   Pacing.CanSendOutNewDatagram 1000 100 50 0 = true) /\
  ((50 - 0 < 20 * d -> Pacing.NewDatagramSent 1000 100 50 0 = 0 + d) /\
   (20 * d <= 50 - 0 -> Pacing.NewDatagramSent 1000 100 50 0 = 50)).
Proof.
  split; [vm_compute; repeat split; congruence |].
  apply (C6_new_datagram_sent 1000 100 50 0); vm_compute; try split; congruence.
Defined.

(** Claim C7: when a one-byte PingReply matches a pending, unanswered ping
    entry, [rtt] becomes [0.5 * newRtt + 0.5 * rtt], where [newRtt] is the
    time in milliseconds from the ping's send tick to the reply tick. *)
Theorem C7_ping_reply_rtt_ewma (tps now pid : Z) (s : Ping.State) (e : Ping.PingTrack) :
  Ping.first_pending pid s.(Ping.ping) = Some e ->
  (Ping.HandlePingReplyMessage tps now [pid] s).(Ping.rtt)
    = ((1 # 2) * Clock.TicksToMilliseconds tps (Clock.TicksInBetween now e.(Ping.pingSentTick))
       + (1 # 2) * s.(Ping.rtt))%Q.
Proof.
  intros H. destruct (match_reply_first tps now pid _ _ H) as [l' Hm].
  unfold Ping.HandlePingReplyMessage. rewrite Hm. reflexivity.
Qed.

Lemma C7_ping_reply_rtt_ewma_witness :
  let s := Ping.mkState [Ping.mkPingTrack 1 0 0 true; Ping.mkPingTrack 2 100 0 false] 40 in
  Ping.first_pending 2 s.(Ping.ping) = Some (Ping.mkPingTrack 2 100 0 false) /\
  (Ping.HandlePingReplyMessage 1000 150 [2] s).(Ping.rtt)
    = ((1 # 2) * Clock.TicksToMilliseconds 1000 (Clock.TicksInBetween 150 100)
       + (1 # 2) * s.(Ping.rtt))%Q.
Proof.
  split; [reflexivity|].
  apply (C7_ping_reply_rtt_ewma 1000 150 2 _ (Ping.mkPingTrack 2 100 0 false)).
  reflexivity.
Defined.

(** Claim C3 (as the code behaves): every ack or loss update leaves the RTO in
    [1000, 5000], but the initial state, reachable by construction, has
    [retransmissionTimeout = 3], outside [1000, 5000]. *)
Theorem C3_initial_rto_out_of_bounds :
  RTO.reachable RTO.initial /\ RTO.initial.(RTO.retransmissionTimeout) = 3%Q /\
  ~ RTO.rto_in_bounds RTO.initial.
Proof.
  split; [constructor|]. split; [reflexivity|].
  unfold RTO.rto_in_bounds. simpl. intros [H _].
  unfold Qle in H. simpl in H. lia.
Qed.

(** ** Fixed-width serialisation round trip *)

Lemma le_bytes_length (n : nat) : forall x, length (le_bytes n x) = n.
Proof. induction n as [|n IH]; intros x; simpl; [reflexivity | now rewrite IH]. Qed.

Lemma mod_256_split (x c : Z) :
  0 < c -> x mod (256 * c) = x mod 256 + 256 * ((x / 256) mod c).
Proof.
  intros Hc. symmetry. apply (Z.mod_unique _ _ ((x / 256) / c)).
  - left. pose proof (Z.mod_pos_bound x 256 ltac:(lia)).
    pose proof (Z.mod_pos_bound (x / 256) c Hc). nia.
  - pose proof (Z.div_mod x 256 ltac:(lia)).
    pose proof (Z.div_mod (x / 256) c ltac:(lia)). nia.
Qed.

Lemma le_roundtrip (n : nat) : forall x rest,
  le_read n (le_bytes n x ++ rest) = Some (x mod 2 ^ (8 * Z.of_nat n), rest).
Proof.
  induction n as [|n IH]; intros x rest.
  - simpl. now rewrite Z.mod_1_r.
  - cbn [le_read le_bytes app]. rewrite IH. cbv beta iota. f_equal. f_equal.
    replace (8 * Z.of_nat (S n)) with (8 + 8 * Z.of_nat n) by lia.
    rewrite Z.pow_add_r by lia. change (2 ^ 8) with 256.
    symmetry. apply mod_256_split. apply Z.pow_pos_nonneg; lia.
Qed.

(** The packet id split as [u8 id & 0xFF] and [u16 id >> 8], and rejoined as
    [low | (high << 8)], gives back every 22-bit id. *)
Lemma packetID_split_join (p : Z) :
  0 <= p < 2 ^ 22 ->
  Z.lor (Z.land p 255 mod 2 ^ 8) (Z.shiftl (Z.shiftr p 8 mod 2 ^ 16) 8) = p.
Proof.
  intros Hp. apply Z.bits_inj'. intros n Hn.
  rewrite Z.lor_spec.
  change 255 with (Z.ones 8). rewrite Z.land_ones by lia. rewrite Z.mod_mod by lia.
  rewrite Z.shiftr_div_pow2 by lia.
  destruct (Z.lt_ge_cases n 8) as [H8|H8].
  - rewrite Z.mod_pow2_bits_low, Z.shiftl_spec_low by lia. apply orb_false_r.
  - rewrite Z.mod_pow2_bits_high by lia. rewrite Z.shiftl_spec_high by lia. rewrite orb_false_l.
    destruct (Z.lt_ge_cases (n - 8) 16) as [H16|H16].
    + rewrite Z.mod_pow2_bits_low by lia. rewrite Z.div_pow2_bits by lia.
      f_equal. lia.
    + rewrite Z.mod_pow2_bits_high by lia.
      rewrite <- (Z.mod_small p (2 ^ 24)) by (split; [lia|]; eapply Z.lt_le_trans; [apply Hp|];
        apply Z.pow_le_mono_r; lia).
      rewrite Z.mod_pow2_bits_high by lia. reflexivity.
Qed.

(** [(sequence & (1 << i)) != 0] tests bit [i]. *)
Lemma land_shiftl1_eqb0 (a : Z) (i : Z) :
  0 <= i -> (Z.land a (Z.shiftl 1 i) =? 0) = negb (Z.testbit a i).
Proof.
  intros Hi. rewrite Z.shiftl_1_l.
  destruct (Z.testbit a i) eqn:T; simpl.
  - assert (E : Z.land a (2 ^ i) = 2 ^ i).
    { apply Z.bits_inj'. intros n Hn. rewrite Z.land_spec, Z.pow2_bits_eqb by lia.
      destruct (Z.eqb_spec i n); [subst; now rewrite T | apply andb_false_r]. }
    rewrite E. apply Z.eqb_neq. apply Z.pow_nonzero; lia.
  - assert (E : Z.land a (2 ^ i) = 0).
    { apply Z.bits_inj'. intros n Hn. rewrite Z.land_spec, Z.pow2_bits_eqb by lia.
      rewrite Z.bits_0.
      destruct (Z.eqb_spec i n); [subst; now rewrite T | apply andb_false_r]. }
    now rewrite E.
Qed.

Lemma acked_successors_ext (p : Z) (n : nat) : forall i s1 s2,
  (forall j, Z.of_nat i <= j < Z.of_nat i + Z.of_nat n -> Z.testbit s1 j = Z.testbit s2 j) ->
  Ack.acked_successors p s1 i n = Ack.acked_successors p s2 i n.
Proof.
  induction n as [|n IH]; intros i s1 s2 H; simpl; [reflexivity|].
  rewrite !land_shiftl1_eqb0 by lia. rewrite H by lia.
  f_equal. apply IH. intros j Hj. apply H. lia.
Qed.

Lemma ack_bits_spec (p : Z) (n : nat) : forall i m sq m' sq' er,
  (forall j, Z.of_nat i <= j -> Z.testbit sq j = false) ->
  Ack.ack_bits p i n m sq = (m', sq', er) ->
  (forall j, j < Z.of_nat i -> Z.testbit sq' j = Z.testbit sq j) /\
  er = Ack.acked_successors p sq' i n.
Proof.
  induction n as [|n IH]; intros i m sq m' sq' er Hhi Hab; simpl in Hab.
  - injection Hab as <- <- <-. split; [reflexivity|]. reflexivity.
  - destruct (Ack.map_find _ m) eqn:Hf.
    + destruct (Ack.ack_bits p (S i) n _ _) as [[m2 sq2] er2] eqn:Hrec.
      injection Hab as <- <- <-. cbn [app].
      assert (Hbit : forall j, Z.testbit (Z.lor sq (Z.shiftl 1 (Z.of_nat i))) j
                               = Z.testbit sq j || (Z.of_nat i =? j)).
      { intros j. rewrite Z.lor_spec, Z.shiftl_1_l, Z.pow2_bits_eqb by lia. reflexivity. }
      assert (Hhi' : forall j, Z.of_nat (S i) <= j ->
                       Z.testbit (Z.lor sq (Z.shiftl 1 (Z.of_nat i))) j = false).
      { intros j Hj. rewrite Hbit, Hhi by lia. simpl. apply Z.eqb_neq. lia. }
      destruct (IH _ _ _ _ _ _ Hhi' Hrec) as [Hlow Her].
      split.
      * intros j Hj. rewrite Hlow by lia. rewrite Hbit.
        replace (Z.of_nat i =? j) with false by (symmetry; apply Z.eqb_neq; lia).
        apply orb_false_r.
      * cbn [Ack.acked_successors]. rewrite land_shiftl1_eqb0 by lia.
        rewrite Hlow by lia. rewrite Hbit, Z.eqb_refl, orb_true_r. cbn [negb app].
        rewrite (Z.add_comm 1). f_equal. exact Her.
    + assert (Hhi' : forall j, Z.of_nat (S i) <= j -> Z.testbit sq j = false).
      { intros j Hj. apply Hhi. lia. }
      destruct (Ack.ack_bits p (S i) n _ _) as [[m2 sq2] er2] eqn:Hrec.
      injection Hab as <- <- <-. cbn [app].
      destruct (IH _ _ _ _ _ _ Hhi' Hrec) as [Hlow Her].
      split.
      * intros j Hj. apply Hlow. lia.
      * cbn [Ack.acked_successors]. rewrite land_shiftl1_eqb0 by lia.
        rewrite Hlow by lia. rewrite Hhi by lia. cbn [negb app]. exact Her.
Qed.
Lemma SendPacketAckStep_cons (p t : Z) (rest : Ack.AckMap) :
  Ack.SendPacketAckStep ((p, t) :: rest) =
  (let (x, er) := Ack.ack_bits p 0 32 (Ack.map_erase p ((p, t) :: rest)) 0 in
   let (m2, sq) := x in Some (Ack.ack_payload p sq, p :: er, m2)).
Proof. reflexivity. Qed.

(** The payload of one round of [SendPacketAckMessage] decodes to the ids
    that round erased. *)
Lemma SendPacketAckStep_decode (m : Ack.AckMap) (payload erased : list Z) (m' : Ack.AckMap) :
  Forall (fun k => 0 <= k < 2 ^ 22) (map fst m) ->
  Ack.SendPacketAckStep m = Some (payload, erased, m') ->
  Ack.HandlePacketAckMessage payload = erased.
Proof.
  intros Hrange Hstep.
  destruct m as [|[p t] rest]; [discriminate|].
  simpl in Hrange. inversion Hrange as [|x l Hp _]; subst.
  rewrite SendPacketAckStep_cons in Hstep.
  destruct (Ack.ack_bits _ _ _ _ _) as [[m2 sq] er] eqn:Hab.
  injection Hstep as <- <- <-.
  destruct (ack_bits_spec p 32 0 _ 0 _ _ _ (fun j _ => Z.bits_0 j) Hab) as [_ Her].
  unfold Ack.HandlePacketAckMessage, Ack.ack_payload.
  rewrite !length_app, !le_bytes_length.
  replace (negb (1 + (2 + 4) =? 7)%nat) with false by reflexivity.
  rewrite le_roundtrip, le_roundtrip.
  rewrite <- (app_nil_r (le_bytes 4 sq)), le_roundtrip.
  change (2 ^ (8 * Z.of_nat 1)) with (2 ^ 8).
  change (2 ^ (8 * Z.of_nat 2)) with (2 ^ 16).
  change (2 ^ (8 * Z.of_nat 4)) with (2 ^ 32).
  rewrite packetID_split_join by exact Hp.
  cbv iota. f_equal. rewrite Her. apply acked_successors_ext.
  intros j Hj. rewrite (Z.mod_pow2_bits_low sq 32 j); [reflexivity|].
  clear -Hj. change (Z.of_nat 0) with 0 in Hj. change (Z.of_nat 32) with 32 in Hj. lia.
Qed.

(** Claim C5: decoding with [HandlePacketAckMessage] the 7-byte payload that
    one round of [SendPacketAckMessage] queues frees exactly the packet ids
    that round erased from the pending set, in the same order: the base id,
    then [base + i + 1] for every set bit [i] of the bitfield. *)
Theorem C5_ack_payload_roundtrip (m : Ack.AckMap) (payload erased : list Z) (m' : Ack.AckMap) :
  Forall (fun k => 0 <= k < 2 ^ 22) (map fst m) ->
  Ack.SendPacketAckStep m = Some (payload, erased, m') ->
  Ack.HandlePacketAckMessage payload = erased.
Proof. exact (SendPacketAckStep_decode m payload erased m'). Qed.

Lemma C5_ack_payload_roundtrip_witness :
  let m := [(5, 0); (6, 0); (9, 0); (40, 0); (100, 0)] in
  (Forall (fun k => 0 <= k < 2 ^ 22) (map fst m) /\
   Ack.SendPacketAckStep m = Some ([5; 0; 0; 9; 0; 0; 0], [5; 6; 9], [(40, 0); (100, 0)])) /\
  Ack.HandlePacketAckMessage [5; 0; 0; 9; 0; 0; 0] = [5; 6; 9].
Proof.
  split.
  - split; [apply Forall_forall; intros k Hk; simpl in Hk; intuition (subst; lia) | vm_compute; reflexivity].
  - apply (C5_ack_payload_roundtrip [(5, 0); (6, 0); (9, 0); (40, 0); (100, 0)] _ _
             [(40, 0); (100, 0)]).
    + apply Forall_forall; intros k Hk; simpl in Hk; intuition (subst; lia).
    + vm_compute. reflexivity.
Defined.

(** ** Ack sends drain the pending set *)

Lemma map_find_In (k : Z) (m : Ack.AckMap) :
  Ack.map_find k m = true -> In k (map fst m).
Proof.
  induction m as [|[k' v] r IH]; simpl; [discriminate|].
  intros H. apply orb_true_iff in H as [H|H]; [left; symmetry; now apply Z.eqb_eq | right; auto].
Qed.

Lemma map_erase_incl (k : Z) (m : Ack.AckMap) :
  incl (map fst (Ack.map_erase k m)) (map fst m).
Proof.
  induction m as [|[k' v] r IH]; simpl; [apply incl_refl|].
  destruct (k =? k'); simpl; [apply incl_tl, incl_refl | now apply incl_cons; [left | apply incl_tl]].
Qed.

Lemma map_erase_length (k : Z) (m : Ack.AckMap) :
  (length (Ack.map_erase k m) <= length m)%nat.
Proof.
  induction m as [|[k' v] r IH]; simpl; [lia|].
  destruct (k =? k'); simpl; lia.
Qed.

Lemma map_erase_keeps (k x : Z) (m : Ack.AckMap) :
  In x (map fst m) -> x = k \/ In x (map fst (Ack.map_erase k m)).
Proof.
  induction m as [|[k' v] r IH]; simpl; [tauto|].
  destruct (k =? k') eqn:E; simpl.
  - apply Z.eqb_eq in E as ->. intros [->|H]; auto.
  - intros [->|H]; auto. destruct (IH H); auto.
Qed.

(** What the inner loop of [SendPacketAckMessage] does to the map: it only
    erases keys, it reports each key it erased, and it erases at most one key
    per round. *)
Lemma ack_bits_props (p : Z) (n : nat) : forall i m sq m' sq' er,
  Ack.ack_bits p i n m sq = (m', sq', er) ->
  incl (map fst m') (map fst m) /\ incl er (map fst m) /\ (length er <= n)%nat /\
  (length m' <= length m)%nat /\
  (forall x, In x (map fst m) -> In x (map fst m') \/ In x er).
Proof.
  induction n as [|n IH]; intros i m sq m' sq' er Hab; simpl in Hab.
  - injection Hab as <- <- <-. repeat split; auto using incl_refl, incl_nil_l.
  - destruct (Ack.map_find (AddPacketID p (Z.of_nat i + 1)) m) eqn:Hf.
    + destruct (Ack.ack_bits p (S i) n _ _) as [[m2 sq2] er2] eqn:Hab2.
      injection Hab as <- <- <-. cbn [app].
      destruct (IH _ _ _ _ _ _ Hab2) as (H1 & H2 & H3 & H4 & H5).
      pose proof (map_erase_incl (AddPacketID p (Z.of_nat i + 1)) m) as He.
      pose proof (map_erase_length (AddPacketID p (Z.of_nat i + 1)) m) as Hl.
      repeat split.
      * eapply incl_tran; eauto.
      * apply incl_cons; [now apply map_find_In | eapply incl_tran; eauto].
      * simpl. lia.
      * lia.
      * intros x Hx. destruct (map_erase_keeps (AddPacketID p (Z.of_nat i + 1)) x m Hx) as [->|Hx'].
        -- right. now left.
        -- destruct (H5 x Hx'); auto. right. now right.
    + destruct (Ack.ack_bits p (S i) n _ _) as [[m2 sq2] er2] eqn:Hab2.
      injection Hab as <- <- <-. cbn [app].
      destruct (IH _ _ _ _ _ _ Hab2) as (H1 & H2 & H3 & H4 & H5).
      repeat split; auto; lia.
Qed.

Lemma map_erase_head (p t : Z) (rest : Ack.AckMap) :
  Ack.map_erase p ((p, t) :: rest) = rest.
Proof. simpl. now rewrite Z.eqb_refl. Qed.

(** One round of the outer loop of [SendPacketAckMessage] erases the first key
    and at most 32 more, and every key it erases is reported. *)
Lemma SendPacketAckStep_props (m : Ack.AckMap) (payload erased : list Z) (m' : Ack.AckMap) :
  Ack.SendPacketAckStep m = Some (payload, erased, m') ->
  (length m' < length m)%nat /\ incl (map fst m') (map fst m) /\ incl erased (map fst m) /\
  (1 <= length erased <= 33)%nat /\
  (forall x, In x (map fst m) -> In x (map fst m') \/ In x erased).
Proof.
  intros Hstep.
  destruct m as [|[p t] rest]; [discriminate|].
  rewrite SendPacketAckStep_cons in Hstep.
  destruct (Ack.ack_bits _ _ _ _ _) as [[m2 sq] er] eqn:Hab.
  injection Hstep as <- <- <-.
  destruct (ack_bits_props _ _ _ _ _ _ _ _ Hab) as (H1 & H2 & H3 & H4 & H5).
  rewrite map_erase_head in H1, H2, H4, H5.
  repeat split.
  - simpl. lia.
  - apply incl_tl, H1.
  - apply incl_cons; [now left | apply incl_tl, H2].
  - simpl. lia.
  - simpl. lia.
  - intros x [<-|Hx]; [right; now left|].
    destruct (H5 x Hx); auto. right. now right.
Qed.

Lemma SendPacketAckStep_None (m : Ack.AckMap) :
  Ack.SendPacketAckStep m = None -> m = [].
Proof.
  destruct m as [|[p t] rest]; [reflexivity|].
  rewrite SendPacketAckStep_cons.
  destruct (Ack.ack_bits _ _ _ _ _) as [[m2 sq] er]. discriminate.
Qed.

Lemma Forall_incl {A} (P : A -> Prop) (l l' : list A) :
  incl l' l -> Forall P l -> Forall P l'.
Proof. rewrite !Forall_forall. auto. Qed.

(** [SendPacketAckMessage] empties the pending set; every payload it queues
    decodes to between 1 and 33 pending ids, and every pending id is in the
    decoding of some queued payload. *)
Lemma SendPacketAckMessage_loop_drains (fuel : nat) : forall m queued m' q',
  (length m <= fuel)%nat ->
  Forall (fun k => 0 <= k < 2 ^ 22) (map fst m) ->
  Ack.SendPacketAckMessage_loop fuel m queued = (m', q') ->
  m' = [] /\ exists new, q' = queued ++ new /\ (m <> [] -> new <> []) /\
    Forall (fun pl => (1 <= length (Ack.HandlePacketAckMessage pl) <= 33)%nat /\
                      incl (Ack.HandlePacketAckMessage pl) (map fst m)) new /\
    (forall x, In x (map fst m) -> exists pl, In pl new /\ In x (Ack.HandlePacketAckMessage pl)).
Proof.
  induction fuel as [|fuel IH]; intros m queued m' q' Hlen Hrange Hloop.
  - destruct m; [|simpl in Hlen; lia].
    cbn [Ack.SendPacketAckMessage_loop] in Hloop. injection Hloop as <- <-.
    split; [reflexivity|]. exists []. rewrite app_nil_r.
    repeat split; auto. simpl. tauto.
  - cbn [Ack.SendPacketAckMessage_loop] in Hloop.
    destruct (Ack.SendPacketAckStep m) as [[[pl er] m2]|] eqn:Hs.
    + destruct (SendPacketAckStep_props _ _ _ _ Hs) as (H1 & H2 & H3 & H4 & H5).
      pose proof (SendPacketAckStep_decode _ _ _ _ Hrange Hs) as Hdec.
      destruct (IH m2 (queued ++ [pl]) m' q') as (-> & new & Hq & _ & Hf & Hall);
        [lia | eapply Forall_incl; eauto | exact Hloop |].
      split; [reflexivity|]. exists (pl :: new). repeat split.
      * rewrite Hq, <- app_assoc. reflexivity.
      * discriminate.
      * constructor; [rewrite Hdec; split; [lia | exact H3]|].
        eapply Forall_impl; [|exact Hf]. intros a [Ha Hb]. split; [exact Ha|].
        eapply incl_tran; eauto.
      * intros x Hx. destruct (H5 x Hx) as [Hx'|Hx'].
        -- destruct (Hall x Hx') as (pl' & Hin & Hd). exists pl'. split; [now right | exact Hd].
        -- exists pl. split; [now left | now rewrite Hdec].
    + apply SendPacketAckStep_None in Hs. subst m. injection Hloop as <- <-.
      split; [reflexivity|]. exists []. rewrite app_nil_r.
      repeat split; auto. simpl. tauto.
Qed.

Lemma PerformPacketAckSends_loop_empty (tps now : Z) (fuel : nat) (queued : list (list Z)) :
  Ack.PerformPacketAckSends_loop tps now fuel [] queued = ([], queued).
Proof. destruct fuel; reflexivity. Qed.

(** Claim C4: the age test of [PerformPacketAckSends] looks at
    [inboundPacketAckTrack.begin()], the entry with the lowest packet id, not
    at the oldest one. With 1000 ticks per second, packet 7 received at tick
    0 and packet 5, reordered, at tick 20, the map is [[(5, 20); (7, 0)]].
    From tick 33, when packet 7 is due, up to tick 52, when it is 52 ms old,
    nothing is sent; the acks go out at tick 53, when packet 5 turns 33 ms
    old. *)
Theorem C4_reordered_ack_waits_past_max_ack_delay :
  let m := Ack.map_set 5 20 (Ack.map_set 7 0 []) in
  m = [(5, 20); (7, 0)] /\
  Ack.PerformPacketAckSends 1000 33 m = (m, []) /\
  Ack.PerformPacketAckSends 1000 52 m = (m, []) /\
  Clock.TimespanToMilliseconds 1000 0 52 == 52 /\
  (Ack.maxAckDelay < Clock.TimespanToMilliseconds 1000 0 52)%Q /\
  fst (Ack.PerformPacketAckSends 1000 53 m) = [].
Proof. vm_compute. repeat split; reflexivity. Qed.

(** For a nonempty pending set whose first entry (lowest packet id) was
    received at [t0], [PerformPacketAckSends] hands ack messages to
    [EndAndQueueMessage] iff that first entry is at least 33 ms old or at
    least 33 entries are pending. If it hands over none the set is
    unchanged. If it hands over any, the whole set is drained; every message
    decodes to between 1 and 33 pending ids, and every pending id is
    acknowledged by one of them. *)
Theorem ack_sends_trigger_and_drain (tps now p0 t0 : Z) (rest m' : Ack.AckMap) (queued : list (list Z)) :
  Forall (fun k => 0 <= k < 2 ^ 22) (map fst ((p0, t0) :: rest)) ->
  Ack.PerformPacketAckSends tps now ((p0, t0) :: rest) = (m', queued) ->
  (queued <> [] <->
     (33 <= Clock.TimespanToMilliseconds tps t0 now)%Q \/ (33 <= length ((p0, t0) :: rest))%nat) /\
  (queued = [] -> m' = (p0, t0) :: rest) /\
  (queued <> [] -> m' = []) /\
  Forall (fun pl => (1 <= length (Ack.HandlePacketAckMessage pl) <= 33)%nat /\
                    incl (Ack.HandlePacketAckMessage pl) (map fst ((p0, t0) :: rest))) queued /\
  (queued <> [] -> forall x, In x (map fst ((p0, t0) :: rest)) ->
     exists pl, In pl queued /\ In x (Ack.HandlePacketAckMessage pl)).
Proof.
  intros Hrange H.
  unfold Ack.PerformPacketAckSends in H. cbn [length Ack.PerformPacketAckSends_loop] in H.
  change (Z.of_nat (S (length rest))) with (Z.of_nat (length ((p0, t0) :: rest))) in H.
  destruct (Qltb (Clock.TimespanToMilliseconds tps t0 now) Ack.maxAckDelay
            && (Z.of_nat (length ((p0, t0) :: rest)) <? 33)) eqn:Hc.
  - injection H as <- <-. apply andb_true_iff in Hc as [Ha Hl].
    unfold Qltb in Ha. apply negb_true_iff in Ha. apply Z.ltb_lt in Hl.
    repeat split; auto.
    + intros []. reflexivity.
    + intros [Hq|Hq].
      * apply Qle_bool_iff in Hq. unfold Ack.maxAckDelay in Ha. congruence.
      * lia.
    + intros []. reflexivity.
    + intros []. reflexivity.
  - destruct (Ack.SendPacketAckMessage ((p0, t0) :: rest) []) as [m2 q2] eqn:Hs.
    destruct (SendPacketAckMessage_loop_drains _ _ _ _ _ (le_n _) Hrange Hs)
      as (-> & new & -> & Hne & Hf & Hall).
    rewrite PerformPacketAckSends_loop_empty in H. injection H as <- <-.
    simpl app in *. specialize (Hne ltac:(discriminate)).
    repeat split; auto.
    + intros _. apply andb_false_iff in Hc as [Ha|Hl].
      * left. unfold Qltb in Ha. apply negb_false_iff, Qle_bool_iff in Ha. exact Ha.
      * right. apply Z.ltb_ge in Hl. lia.
    + intros Hq. congruence.
Qed.

Lemma ack_sends_trigger_and_drain_witness :
  (Forall (fun k => 0 <= k < 2 ^ 22) (map fst [(5, 0)]) /\
   Ack.PerformPacketAckSends 1000 33 [(5, 0)] = ([], [[5; 0; 0; 0; 0; 0; 0]])) /\
  ([[5; 0; 0; 0; 0; 0; 0]] <> [] <->
     (33 <= Clock.TimespanToMilliseconds 1000 0 33)%Q \/ (33 <= length [(5, 0)])%nat).
Proof.
  assert (Hr : Forall (fun k => 0 <= k < 2 ^ 22) (map fst [(5, 0)])).
  { apply Forall_forall; intros k Hk; simpl in Hk; intuition (subst; lia). }
  assert (Hp : Ack.PerformPacketAckSends 1000 33 [(5, 0)] = ([], [[5; 0; 0; 0; 0; 0; 0]])).
  { vm_compute. reflexivity. }
  split; [split; assumption|].
  exact (proj1 (ack_sends_trigger_and_drain 1000 33 5 0 [] [] [[5; 0; 0; 0; 0; 0; 0]] Hr Hp)).
Defined.

(** ** SendOutPacket: the send-failure and send-success paths *)

Lemma pq_insert_In (heap : list NetworkMessage) (h : nat) (q : list nat) (x : nat) :
  In x (pq_insert heap h q) <-> x = h \/ In x q.
Proof.
  induction q as [|y r IH]; simpl; [intuition congruence|].
  destruct (_ >? _); simpl; [intuition congruence|]. rewrite IH. intuition congruence.
Qed.

Lemma reinsert_In (heap : list NetworkMessage) (hs : list nat) : forall q x,
  In x (Send.reinsert heap hs q) <-> In x hs \/ In x q.
Proof.
  induction hs as [|h hs IH]; intros q x; unfold Send.reinsert in *; simpl; [tauto|].
  rewrite IH, pq_insert_In. intuition congruence.
Qed.

(** The fill loop only moves handles from the front of the queue into the
    datagram (or to the freed or skipped lists), and [reliable] records
    whether a reliable message went into the datagram. *)
Lemma fill_inv (G : NetworkMessage -> Z) (maxSendSize : Z) (heap : list NetworkMessage)
    (fuel : nat) : forall p,
  NoDup (Send.p_serialized p ++ Send.p_queue p) ->
  Send.p_reliable p = existsb (Send.is_reliable heap) (Send.p_serialized p) ->
  let p' := Send.fill G maxSendSize heap fuel p in
  NoDup (Send.p_serialized p' ++ Send.p_queue p') /\
  Send.p_reliable p' = existsb (Send.is_reliable heap) (Send.p_serialized p').
Proof.
  induction fuel as [|fuel IH]; intros [q fr tids fids ser sk sz rel ino sm] Hnd Hrel;
    cbn [Send.p_serialized Send.p_queue Send.p_reliable] in *; [auto|].
  cbn [Send.fill Send.p_queue Send.p_freed Send.p_transferIDs Send.p_freeIDs Send.p_serialized
       Send.p_skipped Send.p_packetSizeInBytes Send.p_reliable Send.p_inOrder
       Send.p_smallestReliableMessageNumber].
  destruct q as [|h rest]; [auto|].
  destruct (msg_obsolete (deref heap h)).
  { apply IH; cbn; [now apply NoDup_remove_1 in Hnd | exact Hrel]. }
  destruct (match msg_transfer (deref heap h) with
            | Some t => _ | None => _ end) as [[tids' fids']|].
  - destruct (_ && _).
    + cbn. auto.
    + apply IH; cbn.
      * rewrite <- app_assoc. exact Hnd.
      * rewrite existsb_app, Hrel. cbn. unfold Send.is_reliable at 2. now rewrite orb_false_r.
  - apply IH; cbn; [now apply NoDup_remove_1 in Hnd | exact Hrel].
Qed.

Lemma length_list_set {A} (l : list A) : forall h v, length (list_set l h v) = length l.
Proof. induction l as [|x r IH]; intros [|h] v; simpl; auto. Qed.

Lemma nth_list_set_eq {A} (l : list A) : forall h v d,
  (h < length l)%nat -> nth h (list_set l h v) d = v.
Proof.
  induction l as [|x r IH]; intros [|h] v d Hh; simpl in *; try lia; auto.
  apply IH. lia.
Qed.

Lemma nth_list_set_neq {A} (l : list A) : forall h i v d,
  i <> h -> nth i (list_set l h v) d = nth i l d.
Proof.
  induction l as [|x r IH]; intros [|h] [|i] v d Hne; simpl; auto; try congruence.
Qed.

(** [++datagramSerializedMessages[i]->sendCount] over distinct handles adds
    one to exactly the serialized messages. *)
Lemma bump_sendCounts_spec (hs : list nat) : forall heap h,
  NoDup hs -> (h < length heap)%nat ->
  msg_sendCount (deref (Send.bump_sendCounts hs heap) h) =
  msg_sendCount (deref heap h) + (if existsb (Nat.eqb h) hs then 1 else 0).
Proof.
  induction hs as [|x hs IH]; intros heap h Hnd Hh; [simpl; lia|].
  inversion Hnd as [|x' hs' Hx Hnd']; subst.
  unfold Send.bump_sendCounts in *. cbn [fold_left existsb].
  rewrite IH; [| exact Hnd' | unfold set_msg; now rewrite length_list_set].
  unfold set_msg, deref.
  destruct (Nat.eqb h x) eqn:E.
  - apply Nat.eqb_eq in E as ->.
    replace (existsb (Nat.eqb x) hs) with false.
    + rewrite nth_list_set_eq by exact Hh. cbn. lia.
    + symmetry. apply not_true_iff_false. intros Hin.
      apply existsb_exists in Hin as (y & Hy & Hxy). apply Nat.eqb_eq in Hxy. subst. contradiction.
  - apply Nat.eqb_neq in E. rewrite nth_list_set_neq by exact E. cbn [orb]. reflexivity.
Qed.

(** Claim C2: once [SendOutPacket] has got past its early returns (socket
    open, sends not paused, queue nonempty, pacing allows a datagram, a send
    buffer was obtained), and the outbound queue holds distinct messages:
    if [EndSend] fails, every message serialized into the datagram is back in
    the outbound queue, the heap (so every [sendCount]) is unchanged, the
    packet-id counter is unchanged and no [PacketAckTrack] is added; if it
    succeeds, the [sendCount] of exactly the serialized messages goes up by
    one, [lastDatagramSendTime] advances by [NewDatagramSent], the counter
    becomes [AddPacketID counter 1], and one [PacketAckTrack] with the
    datagram's packet id is appended iff a serialized message is reliable. *)
Theorem C2_send_out_packet_paths (G : NetworkMessage -> Z) (env : Send.Env) (s : Send.State)
    (r : Send.PacketSendResult) (s' : Send.State) :
  Send.isWriteOpen env = true ->
  Send.bOutboundSendsPaused env = false ->
  Send.outboundQueue s <> [] ->
  Pacing.CanSendOutNewDatagram (Send.ticksPerSec env) (Send.datagramSendRate s) (Send.now env)
    (Send.lastDatagramSendTime s) = true ->
  Send.beginSendOk env = true ->
  NoDup (Send.outboundQueue s) ->
  Send.SendOutPacket G env s = (r, s') ->
  let ser := Send.datagramSerializedMessages s' in
  (Send.endSendOk env = false ->
     r = Send.PacketSendSocketFull /\
     incl ser (Send.outboundQueue s') /\
     Send.heap s' = Send.heap s /\
     Send.datagramPacketIDCounter s' = Send.datagramPacketIDCounter s /\
     Send.outboundPacketAckTrack s' = Send.outboundPacketAckTrack s) /\
  (Send.endSendOk env = true ->
     r = Send.PacketSendOK /\
     (forall h, (h < length (Send.heap s))%nat ->
        msg_sendCount (deref (Send.heap s') h) =
        msg_sendCount (deref (Send.heap s) h) + (if existsb (Nat.eqb h) ser then 1 else 0)) /\
     Send.lastDatagramSendTime s' =
       Pacing.NewDatagramSent (Send.ticksPerSec env) (Send.datagramSendRate s) (Send.now env)
         (Send.lastDatagramSendTime s) /\
     Send.datagramPacketIDCounter s' = AddPacketID (Send.datagramPacketIDCounter s) 1 /\
     (if existsb (Send.is_reliable (Send.heap s)) ser
      then exists t, Send.outboundPacketAckTrack s' = Send.outboundPacketAckTrack s ++ [t] /\
                     Send.track_packetID t = Send.datagramPacketIDCounter s
      else Send.outboundPacketAckTrack s' = Send.outboundPacketAckTrack s)).
Proof.
  intros Hw Hp Hq Hc Hb Hnd H ser.
  unfold Send.SendOutPacket in H.
  rewrite Hw, Hp, Hc, Hb in H. cbn [negb] in H.
  replace (Nat.eqb (length (Send.outboundQueue s)) 0) with false in H
    by (destruct (Send.outboundQueue s); [congruence | reflexivity]).
  cbv zeta in H.
  set (p := Send.fill G (Send.maxSendSize env) (Send.heap s) (length (Send.outboundQueue s)) _) in H.
  destruct (fill_inv G (Send.maxSendSize env) (Send.heap s) (length (Send.outboundQueue s))
              (Send.mkPacker (Send.outboundQueue s) (Send.freedMessages s) (Send.transferIDs s)
                 (Send.freeTransferIDs s) [] [] 3 false false 4294967295))
    as [Hnd' Hrel]; [exact Hnd | reflexivity |].
  fold p in Hnd', Hrel.
  split; intros He; rewrite He in H; cbn [negb] in H.
  - injection H as <- <-. subst ser. cbn.
    repeat split; auto.
    intros x Hx. apply reinsert_In. now left.
  - destruct (Send.p_reliable p) eqn:Hr; injection H as <- <-; subst ser; cbn.
    + repeat split; auto.
      * intros h Hh. apply bump_sendCounts_spec; [|exact Hh].
        eapply NoDup_app_remove_r. exact Hnd'.
      * rewrite <- Hrel. eexists. split; reflexivity.
    + repeat split; auto.
      * intros h Hh. apply bump_sendCounts_spec; [|exact Hh].
        eapply NoDup_app_remove_r. exact Hnd'.
      * rewrite <- Hrel. reflexivity.
Qed.

Lemma C2_send_out_packet_paths_witness :
  let G := fun _ : NetworkMessage => 10 in
  let env := Send.mkEnv 1000 100 false true true true 1400 in
  let s := Send.mkState ConnectionOK
             [mkMsg 5 true false 0 0 0 0 0 false None 0 4; mkMsg 6 false false 0 0 0 0 0 false None 0 4]
             [0%nat; 1%nat] [] [] [] [] [] 7 6 [] 0 10 1000 in
  NoDup (Send.outboundQueue s) /\
  Pacing.CanSendOutNewDatagram 1000 10 100 0 = true /\
  msg_sendCount (deref (Send.heap (snd (Send.SendOutPacket G env s))) 0) = 1 /\
  Send.datagramPacketIDCounter (snd (Send.SendOutPacket G env s)) = AddPacketID 7 1.
Proof.
  intros G env s.
  assert (Hnd : NoDup (Send.outboundQueue s)).
  { constructor; [simpl; intuition discriminate | constructor; [simpl; tauto | constructor]]. }
  assert (Hc : Pacing.CanSendOutNewDatagram 1000 10 100 0 = true) by reflexivity.
  destruct (Send.SendOutPacket G env s) as [r s'] eqn:E.
  assert (Hser : Send.datagramSerializedMessages s' = [0%nat; 1%nat]).
  { vm_compute in E. now injection E as _ <-. }
  destruct (C2_send_out_packet_paths G env s r s' eq_refl eq_refl ltac:(discriminate) Hc
              eq_refl Hnd E) as [_ Hok].
  destruct (Hok eq_refl) as (_ & Hcnt & _ & Hid & _).
  cbn [snd]. split; [exact Hnd | split; [exact Hc | split]].
  - rewrite Hcnt by (cbn; lia). rewrite Hser. reflexivity.
  - exact Hid.
Defined.

(** ** ExtractMessages: duplicate reliable messages *)

(** Claim C1 fails for continuing fragments: a reliable message whose
    number is already in [receivedReliableMessages] is dropped when it is a
    whole message (the datagram's next message is still parsed and handled,
    and a new number is inserted), but a continuing fragment is passed to
    [NewFragmentReceived] whatever [duplicateMessage] says. It is appended to
    the reassembly buffer, and when it completes the transfer the assembled
    message goes to [HandleInboundMessage]. Fragments carry their parent's
    reliable number ([SplitAndQueueMessage]), so every continuing fragment
    of a transfer arrives with a number already in the set. *)
Theorem C1_duplicate_fragment_not_dropped :
  let dup_fragment := [64; 0; 0; 5; 0; 1; 80; 0; 0; 1; 9] in
  let dup_then_new := [64; 0; 0; 5; 0; 1; 16; 0; 9; 1; 16; 1; 8] in
  let s3 := Recv.mkState 100 0 [] [] [5] [Recv.mkBuffer 0 3 [(0, [1])]] [] in
  let s2 := Recv.mkState 100 0 [] [] [5] [Recv.mkBuffer 0 2 [(0, [1])]] [] in
  let s0 := Recv.mkState 100 0 [] [] [5] [] [] in
  In 5 (Recv.receivedReliableMessages s3) /\
  Recv.fragmentedReceives (Recv.ExtractMessages 10 dup_fragment s3)
    = [Recv.mkBuffer 0 3 [(0, [1]); (1, [9])]] /\
  Recv.handledInbound (Recv.ExtractMessages 10 dup_fragment s2) = [(0, [1; 9])] /\
  Recv.handledInbound (Recv.ExtractMessages 10 dup_then_new s0) = [(0, [8])] /\
  Recv.receivedReliableMessages (Recv.ExtractMessages 10 dup_then_new s0) = [5; 6].
Proof.
  intros dup_fragment dup_then_new s3 s2 s0.
  split; [now left|].
  vm_compute. repeat split; reflexivity.
Qed.

Ltac destruct_matches :=
  repeat (cbn beta iota zeta delta [orb andb negb];
          match goal with |- context [match ?x with _ => _ end] => destruct x end).

Lemma parse_message_rest_indep (packetID base : Z) (r : list Z) (q q2 : Recv.Parser) :
  Recv.step_rest (Recv.parse_message packetID base r q) =
  Recv.step_rest (Recv.parse_message packetID base r q2).
Proof.
  unfold Recv.parse_message.
  destruct (length r <? 2)%nat; [reflexivity|].
  destruct (Recv.read_u16 r) as [[hdr r1]|]; [|reflexivity].
  destruct (Z.testbit hdr 12);
    [destruct (Recv.ReadVLE8_16 r1) as [delta r2];
     destruct (existsb _ (Recv.q_receivedReliableMessages q));
     destruct (existsb _ (Recv.q_receivedReliableMessages q2))|];
    cbn beta iota;
    (destruct (Z.land hdr (2 ^ 11 - 1) =? 0); [reflexivity|]);
    destruct (Z.testbit hdr 15), (Z.testbit hdr 14); cbn beta iota;
    destruct_matches; reflexivity.
Qed.

Lemma existsb_Zeqb_In (n : Z) (l : list Z) : existsb (Z.eqb n) l = true <-> In n l.
Proof.
  rewrite existsb_exists. split.
  - intros (x & Hx & E). apply Z.eqb_eq in E. now subst.
  - intros H. exists n. split; [exact H | apply Z.eqb_refl].
Qed.

Ltac open_reliable Hlen Hhdr Hrel Hdelta :=
  unfold Recv.parse_message;
  rewrite (proj2 (Nat.ltb_ge _ _) Hlen), Hhdr; cbn beta iota zeta;
  rewrite Hrel, Hdelta; cbn beta iota zeta.

Lemma parse_dup_not_fragment (packetID base : Z) (r : list Z) (q : Recv.Parser)
    (hdr delta : Z) (r1 r2 : list Z)
  (Hlen : (2 <= length r)%nat) (Hhdr : Recv.read_u16 r = Some (hdr, r1))
  (Hrel : Z.testbit hdr 12 = true) (Hdelta : Recv.ReadVLE8_16 r1 = (delta, r2))
  (Hdup : In (base + delta) (Recv.q_receivedReliableMessages q))
  (Hf : Z.testbit hdr 14 = false \/ Z.testbit hdr 15 = true) :
  Recv.step_parser (Recv.parse_message packetID base r q) = q.
Proof.
  destruct q as [rrm fr hd]. open_reliable Hlen Hhdr Hrel Hdelta.
  cbn [Recv.q_receivedReliableMessages] in *.
  rewrite (proj2 (existsb_Zeqb_In _ _) Hdup). cbn beta iota.
  destruct (Z.land hdr (2 ^ 11 - 1) =? 0); [reflexivity|].
  destruct (Z.testbit hdr 15) eqn:E15, (Z.testbit hdr 14) eqn:E14;
    [| |destruct Hf as [Hf|Hf]; congruence|]; cbn beta iota;
    destruct_matches; reflexivity.
Qed.

Lemma parse_dup_keeps_set (packetID base : Z) (r : list Z) (q : Recv.Parser)
    (hdr delta : Z) (r1 r2 : list Z)
  (Hlen : (2 <= length r)%nat) (Hhdr : Recv.read_u16 r = Some (hdr, r1))
  (Hrel : Z.testbit hdr 12 = true) (Hdelta : Recv.ReadVLE8_16 r1 = (delta, r2))
  (Hdup : In (base + delta) (Recv.q_receivedReliableMessages q)) :
  Recv.q_receivedReliableMessages (Recv.step_parser (Recv.parse_message packetID base r q)) =
  Recv.q_receivedReliableMessages q.
Proof.
  destruct q as [rrm fr hd]. open_reliable Hlen Hhdr Hrel Hdelta.
  cbn [Recv.q_receivedReliableMessages] in *.
  rewrite (proj2 (existsb_Zeqb_In _ _) Hdup). cbn beta iota.
  destruct (Z.land hdr (2 ^ 11 - 1) =? 0); [reflexivity|].
  destruct (Z.testbit hdr 15), (Z.testbit hdr 14); cbn beta iota;
    destruct_matches; reflexivity.
Qed.

Lemma parse_new_inserted (packetID base : Z) (r : list Z) (q : Recv.Parser)
    (hdr delta : Z) (r1 r2 : list Z)
  (Hlen : (2 <= length r)%nat) (Hhdr : Recv.read_u16 r = Some (hdr, r1))
  (Hrel : Z.testbit hdr 12 = true) (Hdelta : Recv.ReadVLE8_16 r1 = (delta, r2))
  (Hnew : ~ In (base + delta) (Recv.q_receivedReliableMessages q)) :
  Recv.q_receivedReliableMessages (Recv.step_parser (Recv.parse_message packetID base r q)) =
  Recv.q_receivedReliableMessages q ++ [base + delta].
Proof.
  destruct q as [rrm fr hd]. open_reliable Hlen Hhdr Hrel Hdelta.
  cbn [Recv.q_receivedReliableMessages] in *.
  destruct (existsb (Z.eqb (base + delta)) rrm) eqn:E;
    [apply existsb_Zeqb_In in E; contradiction|]. cbn beta iota.
  destruct (Z.land hdr (2 ^ 11 - 1) =? 0); [reflexivity|].
  destruct (Z.testbit hdr 15), (Z.testbit hdr 14); cbn beta iota;
    destruct_matches; reflexivity.
Qed.

Lemma parse_dup_fragment_as_new (packetID base : Z) (r : list Z) (q q2 : Recv.Parser)
    (hdr delta : Z) (r1 r2 : list Z)
  (Hlen : (2 <= length r)%nat) (Hhdr : Recv.read_u16 r = Some (hdr, r1))
  (Hrel : Z.testbit hdr 12 = true) (Hdelta : Recv.ReadVLE8_16 r1 = (delta, r2))
  (H14 : Z.testbit hdr 14 = true) (H15 : Z.testbit hdr 15 = false)
  (Hfr : Recv.q_fragmentedReceives q2 = Recv.q_fragmentedReceives q)
  (Hhd : Recv.q_handled q2 = Recv.q_handled q) :
  Recv.q_fragmentedReceives (Recv.step_parser (Recv.parse_message packetID base r q)) =
  Recv.q_fragmentedReceives (Recv.step_parser (Recv.parse_message packetID base r q2)) /\
  Recv.q_handled (Recv.step_parser (Recv.parse_message packetID base r q)) =
  Recv.q_handled (Recv.step_parser (Recv.parse_message packetID base r q2)).
Proof.
  destruct q as [rrm fr hd], q2 as [rrm2 fr2 hd2].
  cbn [Recv.q_fragmentedReceives Recv.q_handled] in Hfr, Hhd. subst fr2 hd2.
  unfold Recv.parse_message.
  rewrite (proj2 (Nat.ltb_ge _ _) Hlen), Hhdr; cbn beta iota zeta.
  rewrite Hrel, Hdelta, H14, H15; cbn beta iota zeta.
  cbn [Recv.q_receivedReliableMessages Recv.q_fragmentedReceives Recv.q_handled].
  match goal with |- context [existsb ?f rrm] => destruct (existsb f rrm) end;
  match goal with |- context [existsb ?f rrm2] => destruct (existsb f rrm2) end;
    cbn beta iota;
    (destruct (Z.land hdr (2 ^ 11 - 1) =? 0); [split; reflexivity|]);
    destruct_matches; split; reflexivity.
Qed.

(** Claim C1, amended: take a reliable message of a datagram, with reliable
    number [n = reliableMessageIndexBase + delta]. The bytes it takes, and
    whether the loop goes on after it, do not depend on the
    received-reliable-message set. If [n] is already in the set, the set is
    unchanged. A whole message or a fragment start is then parsed and
    dropped: nothing is handled and no reassembly buffer is started. A
    continuing fragment is passed to the reassembly buffer just as if [n]
    were new: fragments carry their parent's reliable number. If [n] is not
    in the set, it is inserted, also when the message then turns out
    malformed. *)
Theorem C1_duplicate_message_parsed_but_dropped (packetID base : Z) (r : list Z)
    (q : Recv.Parser) (hdr delta : Z) (r1 r2 : list Z)
  (Hlen : (2 <= length r)%nat)
  (Hhdr : Recv.read_u16 r = Some (hdr, r1))
  (Hrel : Z.testbit hdr 12 = true)
  (Hdelta : Recv.ReadVLE8_16 r1 = (delta, r2)) :
  let n := base + delta in
  let st := Recv.parse_message packetID base r q in
  (forall q2, Recv.step_rest (Recv.parse_message packetID base r q2) = Recv.step_rest st) /\
  (In n (Recv.q_receivedReliableMessages q) ->
     Recv.q_receivedReliableMessages (Recv.step_parser st) = Recv.q_receivedReliableMessages q /\
     ((Z.testbit hdr 14 = false \/ Z.testbit hdr 15 = true) -> Recv.step_parser st = q) /\
     (Z.testbit hdr 14 = true -> Z.testbit hdr 15 = false ->
      forall q2, Recv.q_fragmentedReceives q2 = Recv.q_fragmentedReceives q ->
      Recv.q_handled q2 = Recv.q_handled q -> ~ In n (Recv.q_receivedReliableMessages q2) ->
      Recv.q_fragmentedReceives (Recv.step_parser st) =
        Recv.q_fragmentedReceives (Recv.step_parser (Recv.parse_message packetID base r q2)) /\
      Recv.q_handled (Recv.step_parser st) =
        Recv.q_handled (Recv.step_parser (Recv.parse_message packetID base r q2)))) /\
  (~ In n (Recv.q_receivedReliableMessages q) ->
   Recv.q_receivedReliableMessages (Recv.step_parser st) =
     Recv.q_receivedReliableMessages q ++ [n]).
Proof.
  intros n st. split; [|split].
  - intros q2. apply parse_message_rest_indep.
  - intros Hdup. split; [|split].
    + eapply parse_dup_keeps_set; eassumption.
    + intros Hf. eapply parse_dup_not_fragment; eassumption.
    + intros H14 H15 q2 Hfr Hhd _.
      eapply parse_dup_fragment_as_new; eassumption.
  - intros Hnew. eapply parse_new_inserted; eassumption.
Qed.

Lemma C1_duplicate_message_parsed_but_dropped_witness :
  let r := [1; 80; 0; 0; 1; 9] in
  let q := Recv.mkParser [5] [Recv.mkBuffer 0 3 [(0, [1])]] [] in
  ((2 <= length r)%nat /\ Recv.read_u16 r = Some (20481, [0; 0; 1; 9]) /\
   Z.testbit 20481 12 = true /\ Recv.ReadVLE8_16 [0; 0; 1; 9] = (0, [0; 1; 9])) /\
  Recv.q_receivedReliableMessages (Recv.step_parser (Recv.parse_message 0 5 r q)) = [5] /\
  Recv.q_fragmentedReceives (Recv.step_parser (Recv.parse_message 0 5 r q)) =
    Recv.q_fragmentedReceives
      (Recv.step_parser (Recv.parse_message 0 5 r (Recv.mkParser [] [Recv.mkBuffer 0 3 [(0, [1])]] []))).
Proof.
  intros r q.
  assert (H1 : (2 <= length r)%nat) by (cbn; lia).
  assert (H2 : Recv.read_u16 r = Some (20481, [0; 0; 1; 9])) by reflexivity.
  assert (H3 : Z.testbit 20481 12 = true) by reflexivity.
  assert (H4 : Recv.ReadVLE8_16 [0; 0; 1; 9] = (0, [0; 1; 9])) by reflexivity.
  destruct (C1_duplicate_message_parsed_but_dropped 0 5 r q 20481 0 _ _ H1 H2 H3 H4)
    as (_ & Hdup & _).
  assert (Hin : In (5 + 0) (Recv.q_receivedReliableMessages q)) by (cbn; left; reflexivity).
  destruct (Hdup Hin) as (Hset & _ & Hfrag).
  split; [repeat split; assumption|]. split; [exact Hset|].
  exact (proj1 (Hfrag eq_refl eq_refl (Recv.mkParser [] [Recv.mkBuffer 0 3 [(0, [1])]] [])
                  eq_refl eq_refl ltac:(cbn; tauto))).
Defined.

(** ** Extra properties: BiasedBinarySearchFindPacketIndex *)

Lemma StronglySorted_nth_lt (l : list Z) :
  StronglySorted Z.lt l ->
  forall i j, (i < j < length l)%nat -> nth i l 0 < nth j l 0.
Proof.
  induction l as [|x l IH]; intros Hs i j Hij; [simpl in Hij; lia|].
  inversion Hs as [|? ? Hs' Hall]; subst.
  destruct i as [|i], j as [|j]; simpl in *; try lia.
  - rewrite Forall_forall in Hall. apply Hall, nth_In. lia.
  - apply IH; [exact Hs'|lia].
Qed.

Lemma ItemAt_lt (ids : list Z) (i j : Z) :
  StronglySorted Z.lt ids -> 0 <= i < j -> j < Z.of_nat (length ids) ->
  Search.ItemAt ids i < Search.ItemAt ids j.
Proof.
  intros Hs Hij Hj. unfold Search.ItemAt.
  apply StronglySorted_nth_lt; [exact Hs|lia].
Qed.

Lemma ItemAt_In (ids : list Z) (i : Z) :
  0 <= i < Z.of_nat (length ids) -> In (Search.ItemAt ids i) ids.
Proof. intros H. unfold Search.ItemAt. apply nth_In. lia. Qed.

(** The interpolation loop, started with [headID < packetID < tailID] and
    [tailID] the id at [tailIdx], either runs out of fuel or returns an index
    strictly after [headIdx], at most [tailIdx], holding [packetID]: it never
    leaves through its final [return -1]. *)
Lemma search_loop_result (ids : list Z) (p : Z) (fuel : nat) :
  forall hi hid ti tid,
  hi < ti -> hid < p < tid -> tid = Search.ItemAt ids ti ->
  Search.search_loop ids p fuel hi hid ti tid = None \/
  exists i, Search.search_loop ids p fuel hi hid ti tid = Some i /\
            hi < i <= ti /\ Search.ItemAt ids i = p.
Proof.
  induction fuel as [|fuel IH]; intros hi hid ti tid Hht Hp Ht; [now left|].
  cbn [Search.search_loop].
  assert (Hlt : (hi <? ti) = true) by (apply Z.ltb_lt; lia). rewrite Hlt.
  set (q := Search.u32_to_int _).
  set (n := Z.max (hi + 1) (Z.min (ti - 1) q)).
  assert (Hn : hi < n <= ti) by (subst n; lia).
  destruct (Search.ItemAt ids n =? p) eqn:E.
  - right. exists n. split; [reflexivity|]. split; [exact Hn|]. now apply Z.eqb_eq.
  - apply Z.eqb_neq in E. destruct (Search.ItemAt ids n <? p) eqn:L.
    + apply Z.ltb_lt in L.
      assert (Hnt : n <> ti) by (intros ->; rewrite <- Ht in L; lia).
      destruct (IH n (Search.ItemAt ids n) ti tid ltac:(lia) ltac:(lia) Ht)
        as [H|(i & H & Hi & Hv)]; [now left|].
      right. exists i. repeat split; try lia; assumption.
    + apply Z.ltb_ge in L.
      destruct (IH hi hid n (Search.ItemAt ids n) ltac:(lia) ltac:(lia) eq_refl)
        as [H|(i & H & Hi & Hv)]; [now left|].
      right. exists i. repeat split; try lia; assumption.
Qed.

(** On strictly increasing ids, a loop whose head and tail enclose the index
    [k] of the target finds it within [tailIdx - headIdx] iterations. *)
Lemma search_loop_complete (ids : list Z) (p k : Z) :
  StronglySorted Z.lt ids -> Search.ItemAt ids k = p ->
  forall fuel hi hid ti tid,
  0 <= hi < k -> k < ti < Z.of_nat (length ids) ->
  hid = Search.ItemAt ids hi -> tid = Search.ItemAt ids ti ->
  ti - hi <= Z.of_nat fuel ->
  exists i, Search.search_loop ids p fuel hi hid ti tid = Some i /\
            Search.ItemAt ids i = p.
Proof.
  intros Hs Hk fuel. induction fuel as [|fuel IH];
    intros hi hid ti tid Hh Ht Hhid Htid Hf; [lia|].
  cbn [Search.search_loop].
  assert (Hlt : (hi <? ti) = true) by (apply Z.ltb_lt; lia). rewrite Hlt.
  set (q := Search.u32_to_int _).
  set (n := Z.max (hi + 1) (Z.min (ti - 1) q)).
  assert (Hn : hi < n < ti) by (subst n; lia).
  destruct (Search.ItemAt ids n =? p) eqn:E.
  - exists n. split; [reflexivity|]. now apply Z.eqb_eq.
  - apply Z.eqb_neq in E. destruct (Search.ItemAt ids n <? p) eqn:L.
    + apply Z.ltb_lt in L.
      assert (n < k).
      { destruct (Z.lt_trichotomy n k) as [?|[->|?]]; [assumption|congruence|].
        pose proof (ItemAt_lt ids k n Hs ltac:(lia) ltac:(lia)). lia. }
      apply (IH n (Search.ItemAt ids n) ti tid); try lia; auto.
    + apply Z.ltb_ge in L.
      assert (k < n).
      { destruct (Z.lt_trichotomy n k) as [?|[->|?]]; [|congruence|assumption].
        pose proof (ItemAt_lt ids n k Hs ltac:(lia) ltac:(lia)). lia. }
      apply (IH hi hid n (Search.ItemAt ids n)); try lia; auto.
Qed.

Lemma ItemAt_tail_head (ids : list Z) :
  Z.of_nat (length ids) - 1 <= 0 ->
  Search.ItemAt ids (Z.of_nat (length ids) - 1) = Search.ItemAt ids 0.
Proof. intros H. unfold Search.ItemAt. f_equal. lia. Qed.

(** An index returned by the search, other than [-1], is in the queue and
    holds the id searched for. *)
Theorem search_index_holds_packetID (ids : list Z) (p : Z) (fuel : nat) (i : Z)
  (Hne : ids <> [])
  (H : Search.BiasedBinarySearchFindPacketIndex ids p fuel = Some i)
  (Hi : i <> -1) :
  0 <= i < Z.of_nat (length ids) /\ Search.ItemAt ids i = p.
Proof.
  assert (Hlen : (0 < length ids)%nat) by (destruct ids; [congruence|simpl; lia]).
  unfold Search.BiasedBinarySearchFindPacketIndex in H. cbv zeta in H.
  destruct (Search.ItemAt ids 0 =? p) eqn:E1.
  { injection H as <-. split; [lia|now apply Z.eqb_eq]. }
  destruct (Search.ItemAt ids (Z.of_nat (length ids) - 1) =? p) eqn:E2.
  { injection H as <-. split; [lia|now apply Z.eqb_eq]. }
  destruct ((p <? Search.ItemAt ids 0) || (Search.ItemAt ids (Z.of_nat (length ids) - 1) <? p))
    eqn:E3; [congruence|].
  apply Z.eqb_neq in E1, E2. apply orb_false_iff in E3 as [E3 E4].
  apply Z.ltb_ge in E3, E4.
  assert (Hpos : 0 < Z.of_nat (length ids) - 1).
  { destruct (Z_lt_le_dec 0 (Z.of_nat (length ids) - 1)) as [?|Hle]; [assumption|].
    rewrite (ItemAt_tail_head ids Hle) in E4. lia. }
  destruct (search_loop_result ids p fuel 0 (Search.ItemAt ids 0)
              (Z.of_nat (length ids) - 1) (Search.ItemAt ids (Z.of_nat (length ids) - 1))
              Hpos ltac:(lia) eq_refl) as [H'|(j & H' & Hj & Hv)];
    rewrite H in H'; [discriminate|].
  injection H' as <-. split; [lia|exact Hv].
Qed.

(** On a queue of strictly increasing ids, the search answers [-1] exactly
    when the id searched for is below the first id or above the last one. *)
Theorem search_minus_one_iff_out_of_range (ids : list Z) (p : Z) (fuel : nat)
  (Hs : StronglySorted Z.lt ids) (Hne : ids <> []) :
  Search.BiasedBinarySearchFindPacketIndex ids p fuel = Some (-1) <->
  p < Search.ItemAt ids 0 \/ Search.ItemAt ids (Z.of_nat (length ids) - 1) < p.
Proof.
  assert (Hlen : (0 < length ids)%nat) by (destruct ids; [congruence|simpl; lia]).
  assert (Hmono : Search.ItemAt ids 0 <= Search.ItemAt ids (Z.of_nat (length ids) - 1)).
  { destruct (Z_lt_le_dec 0 (Z.of_nat (length ids) - 1)) as [?|Hle].
    - apply Z.lt_le_incl, ItemAt_lt; [exact Hs|lia|lia].
    - rewrite (ItemAt_tail_head ids Hle). lia. }
  unfold Search.BiasedBinarySearchFindPacketIndex. cbv zeta.
  destruct (Search.ItemAt ids 0 =? p) eqn:E1.
  { apply Z.eqb_eq in E1. split; [intros H; injection H; lia|lia]. }
  destruct (Search.ItemAt ids (Z.of_nat (length ids) - 1) =? p) eqn:E2.
  { apply Z.eqb_eq in E2. split; [intros H; injection H; lia|lia]. }
  destruct ((p <? Search.ItemAt ids 0) || (Search.ItemAt ids (Z.of_nat (length ids) - 1) <? p))
    eqn:E3.
  { apply orb_true_iff in E3. rewrite !Z.ltb_lt in E3. tauto. }
  apply Z.eqb_neq in E1, E2. apply orb_false_iff in E3 as [E3 E4].
  apply Z.ltb_ge in E3, E4. split; [|lia]. intros H.
  assert (Hpos : 0 < Z.of_nat (length ids) - 1).
  { destruct (Z_lt_le_dec 0 (Z.of_nat (length ids) - 1)) as [?|Hle]; [assumption|].
    rewrite (ItemAt_tail_head ids Hle) in E4. lia. }
  destruct (search_loop_result ids p fuel 0 (Search.ItemAt ids 0)
              (Z.of_nat (length ids) - 1) (Search.ItemAt ids (Z.of_nat (length ids) - 1))
              Hpos ltac:(lia) eq_refl) as [H'|(j & H' & Hj & Hv)];
    rewrite H in H'; [discriminate|]. injection H' as <-. lia.
Qed.

(** On a queue of strictly increasing ids, an id that is in the queue is
    found, within as many loop iterations as the queue has tracks. *)
Theorem search_finds_present_packetID (ids : list Z) (p : Z)
  (Hs : StronglySorted Z.lt ids) (Hin : In p ids) :
  exists i, Search.BiasedBinarySearchFindPacketIndex ids p (length ids) = Some i /\
            Search.ItemAt ids i = p.
Proof.
  destruct (In_nth ids p 0 Hin) as (n & Hn & Hnv).
  assert (Hk : Search.ItemAt ids (Z.of_nat n) = p)
    by (unfold Search.ItemAt; rewrite Nat2Z.id; exact Hnv).
  unfold Search.BiasedBinarySearchFindPacketIndex. cbv zeta.
  destruct (Search.ItemAt ids 0 =? p) eqn:E1.
  { exists 0. split; [reflexivity|now apply Z.eqb_eq]. }
  destruct (Search.ItemAt ids (Z.of_nat (length ids) - 1) =? p) eqn:E2.
  { eexists. split; [reflexivity|now apply Z.eqb_eq]. }
  apply Z.eqb_neq in E1, E2.
  assert (Hk0 : 0 < Z.of_nat n).
  { destruct n; [simpl in Hk; congruence|lia]. }
  assert (Hkt : Z.of_nat n < Z.of_nat (length ids) - 1).
  { destruct (Z.eq_dec (Z.of_nat n) (Z.of_nat (length ids) - 1)) as [Heq|]; [|lia].
    rewrite <- Heq in E2. congruence. }
  pose proof (ItemAt_lt ids 0 (Z.of_nat n) Hs ltac:(lia) ltac:(lia)) as L1.
  pose proof (ItemAt_lt ids (Z.of_nat n) (Z.of_nat (length ids) - 1) Hs
                ltac:(lia) ltac:(lia)) as L2.
  assert (E3 : (p <? Search.ItemAt ids 0) || (Search.ItemAt ids (Z.of_nat (length ids) - 1) <? p)
               = false) by (apply orb_false_iff; split; apply Z.ltb_ge; lia).
  rewrite E3.
  apply (search_loop_complete ids p (Z.of_nat n) Hs Hk); try lia; reflexivity.
Qed.

(** An id that lies strictly between the first and last ids of the queue
    but is not in it makes the search loop forever: whatever the number of
    iterations allowed, the loop has not returned. *)
Theorem search_absent_in_range_never_returns (ids : list Z) (p : Z)
  (Hnin : ~ In p ids)
  (Hrange : Search.ItemAt ids 0 < p < Search.ItemAt ids (Z.of_nat (length ids) - 1)) :
  forall fuel, Search.BiasedBinarySearchFindPacketIndex ids p fuel = None.
Proof.
  intros fuel.
  assert (Hpos : 0 < Z.of_nat (length ids) - 1).
  { destruct (Z_lt_le_dec 0 (Z.of_nat (length ids) - 1)) as [?|Hle]; [assumption|].
    rewrite (ItemAt_tail_head ids Hle) in Hrange. lia. }
  unfold Search.BiasedBinarySearchFindPacketIndex. cbv zeta.
  assert (E1 : (Search.ItemAt ids 0 =? p) = false) by (apply Z.eqb_neq; lia).
  assert (E2 : (Search.ItemAt ids (Z.of_nat (length ids) - 1) =? p) = false)
    by (apply Z.eqb_neq; lia).
  assert (E3 : (p <? Search.ItemAt ids 0) || (Search.ItemAt ids (Z.of_nat (length ids) - 1) <? p)
               = false) by (apply orb_false_iff; split; apply Z.ltb_ge; lia).
  rewrite E1, E2, E3.
  destruct (search_loop_result ids p fuel 0 (Search.ItemAt ids 0)
              (Z.of_nat (length ids) - 1) (Search.ItemAt ids (Z.of_nat (length ids) - 1))
              Hpos ltac:(lia) eq_refl) as [H'|(j & H' & Hj & Hv)]; [exact H'|].
  exfalso. apply Hnin. rewrite <- Hv. apply ItemAt_In. lia.
Qed.

Lemma search_index_holds_packetID_witness :
  Search.BiasedBinarySearchFindPacketIndex [10; 20; 30; 40] 30 4 = Some 2 /\
  (0 <= 2 < Z.of_nat (length [10; 20; 30; 40]) /\ Search.ItemAt [10; 20; 30; 40] 2 = 30).
Proof.
  assert (H : Search.BiasedBinarySearchFindPacketIndex [10; 20; 30; 40] 30 4 = Some 2)
    by reflexivity.
  split; [exact H|].
  exact (search_index_holds_packetID [10; 20; 30; 40] 30 4 2 ltac:(discriminate) H
           ltac:(lia)).
Defined.

Lemma search_minus_one_iff_out_of_range_witness :
  StronglySorted Z.lt [10; 20; 30] /\
  Search.BiasedBinarySearchFindPacketIndex [10; 20; 30] 5 3 = Some (-1).
Proof.
  assert (Hs : StronglySorted Z.lt [10; 20; 30]) by (repeat constructor).
  split; [exact Hs|].
  apply (proj2 (search_minus_one_iff_out_of_range [10; 20; 30] 5 3 Hs ltac:(discriminate))).
  left. vm_compute. reflexivity.
Defined.

Lemma search_finds_present_packetID_witness :
  exists i, Search.BiasedBinarySearchFindPacketIndex [10; 20; 30; 40] 30 4 = Some i /\
            Search.ItemAt [10; 20; 30; 40] i = 30.
Proof.
  apply (search_finds_present_packetID [10; 20; 30; 40] 30).
  - repeat constructor.
  - simpl. tauto.
Defined.

Lemma search_absent_in_range_never_returns_witness :
  Search.BiasedBinarySearchFindPacketIndex [1; 3] 2 1000 = None.
Proof.
  apply (search_absent_in_range_never_returns [1; 3] 2).
  - simpl. intros [H|[H|H]]; [lia|lia|exact H].
  - vm_compute. split; reflexivity.
Defined.

(** ** Extra properties: flow control *)

Lemma fmin_cases (a b : Q) : (fmin a b == a \/ fmin a b == b) /\ (fmin a b <= a)%Q /\ (fmin a b <= b)%Q.
Proof. unfold fmin. destruct (Qlt_le_dec b a); lra. Qed.

Lemma fmax_cases (a b : Q) : (fmax a b == a \/ fmax a b == b) /\ (a <= fmax a b)%Q /\ (b <= fmax a b)%Q.
Proof. unfold fmax. destruct (Qlt_le_dec a b); lra. Qed.

(** A send rate within [1, 50] datagrams per second stays within these
    bounds through a flow-control update: a loss frame lowers it to no less
    than 1, an additive step raises it to no more than 50. *)
Theorem flow_rate_stays_in_range (ticksPerSec now : Z) (s : Flow.State)
  (H : (1 <= Flow.datagramSendRate s <= 50)%Q) :
  (1 <= Flow.datagramSendRate (Flow.HandleFlowControl ticksPerSec now s) <= 50)%Q.
Proof.
  unfold Flow.HandleFlowControl. cbv zeta.
  set (d := Clock.TicksInBetween now (Flow.lastFrameTime s) / (ticksPerSec / 100)).
  destruct (0 <? d) eqn:Hd; [|exact H].
  set (n := if 100 <=? d then 100 else d).
  assert (Hn : 0 <= n) by (subst n; apply Z.ltb_lt in Hd; destruct (100 <=? d); lia).
  destruct (5 <? RTO.numLossesLastFrame (Flow.rto s)); cbn [Flow.datagramSendRate].
  - set (x := fmax 1 _). pose proof (fmax_cases 1 (Flow.lowestDatagramSendRateOnPacketLoss s * (9 # 10))).
    pose proof (fmin_cases (Flow.datagramSendRate s) x). subst x. lra.
  - assert (Hz : (0 <= inject_Z n)%Q) by (change 0%Q with (inject_Z 0); rewrite <- Zle_Qle; exact Hn).
    set (r := Flow.datagramSendRate s) in *.
    assert (Hp : (0 <= inject_Z n * Flow.additiveIncreaseAggressiveness
                        * (Flow.totalEstimatedBandwidth - r))%Q).
    { unfold Flow.additiveIncreaseAggressiveness, Flow.totalEstimatedBandwidth. nra. }
    set (inc := fmin _ 1).
    pose proof (fmin_cases (inject_Z n * Flow.additiveIncreaseAggressiveness
                            * (Flow.totalEstimatedBandwidth - r)) 1) as Hi.
    fold inc in Hi.
    pose proof (fmin_cases (r + inc) Flow.totalEstimatedBandwidth) as Hr.
    unfold Flow.totalEstimatedBandwidth in *. lra.
Qed.

Lemma flow_rate_stays_in_range_witness :
  let s := Flow.mkState RTO.initial 10 10 0 0 0 [] [] [] [] [] in
  (1 <= Flow.datagramSendRate s <= 50)%Q /\
  (1 <= Flow.datagramSendRate (Flow.HandleFlowControl 1000 500 s) <= 50)%Q.
Proof.
  intros s. assert (H : (1 <= Flow.datagramSendRate s <= 50)%Q) by (simpl; lra).
  split; [exact H|]. exact (flow_rate_stays_in_range 1000 500 s H).
Defined.

(** [Initialize] sets the send rate to 70, above the 50 that the additive
    step saturates at. When the first flow-control update after it comes a
    second or more later (the frame count capped at 100) and the frame had at
    most five losses, the "increment" is [100 * 0.05 * (50 - 70) = -100] and
    the rate becomes -30 datagrams per second. *)
Theorem flow_initialize_then_update_rate_negative (ticksPerSec now0 now : Z) (s : Flow.State)
  (Htps : 100 <= ticksPerSec)
  (Hlate : 100 * (ticksPerSec / 100) <= Clock.TicksInBetween now now0)
  (Hloss : RTO.numLossesLastFrame (Flow.rto s) <= 5) :
  Flow.datagramSendRate (Flow.HandleFlowControl ticksPerSec now (Flow.Initialize now0 s)) == -30.
Proof.
  assert (Hf : 1 <= ticksPerSec / 100) by (apply Z.div_le_lower_bound; lia).
  assert (Hd : 100 <= Clock.TicksInBetween now now0 / (ticksPerSec / 100))
    by (apply Z.div_le_lower_bound; lia).
  unfold Flow.HandleFlowControl, Flow.Initialize. cbn [Flow.lastFrameTime Flow.rto].
  replace (RTO.numLossesLastFrame (RTO.Initialize (Flow.rto s)))
    with (RTO.numLossesLastFrame (Flow.rto s)) by (destruct (Flow.rto s); reflexivity).
  cbv zeta.
  rewrite (proj2 (Z.ltb_lt 0 _)) by lia.
  rewrite (proj2 (Z.leb_le 100 _)) by lia.
  rewrite (proj2 (Z.ltb_ge 5 _)) by lia.
  cbn [Flow.datagramSendRate Flow.lowestDatagramSendRateOnPacketLoss].
  vm_compute. reflexivity.
Qed.

Lemma flow_initialize_then_update_rate_negative_witness :
  Flow.datagramSendRate
    (Flow.HandleFlowControl 1000 2000
       (Flow.Initialize 500 (Flow.mkState RTO.initial 10 10 0 0 0 [] [] [] [] []))) == -30.
Proof.
  apply flow_initialize_then_update_rate_negative.
  - lia.
  - vm_compute. discriminate.
  - vm_compute. discriminate.
Defined.

(** After a flow-control update the frame clock [lastFrameTime] is less than
    one frame ([TicksPerSec / 100] ticks) behind [now]; and when at least one
    frame had elapsed, the frame's ack and loss counters are back at 0. *)
Theorem flow_frame_clock_within_one_frame (ticksPerSec now : Z) (s : Flow.State)
  (Htps : 100 <= ticksPerSec) :
  let s' := Flow.HandleFlowControl ticksPerSec now s in
  Clock.TicksInBetween now (Flow.lastFrameTime s') < ticksPerSec / 100 /\
  (ticksPerSec / 100 <= Clock.TicksInBetween now (Flow.lastFrameTime s) ->
   Flow.numAcksLastFrame s' = 0 /\ RTO.numLossesLastFrame (Flow.rto s') = 0).
Proof.
  intros s'. subst s'.
  assert (Hf : 1 <= ticksPerSec / 100) by (apply Z.div_le_lower_bound; lia).
  set (f := ticksPerSec / 100) in *.
  set (L := Flow.lastFrameTime s).
  set (dt := Clock.TicksInBetween now L).
  assert (Hdt : 0 <= dt < Clock.tick_modulus)
    by (subst dt; unfold Clock.TicksInBetween; apply Z.mod_pos_bound; reflexivity).
  pose proof (Z.div_mod dt f ltac:(lia)) as Hdm.
  pose proof (Z.mod_pos_bound dt f ltac:(lia)) as Hmb.
  unfold Flow.HandleFlowControl. fold f. fold L. fold dt. cbv zeta.
  destruct (0 <? dt / f) eqn:Hd.
  - apply Z.ltb_lt in Hd.
    set (lowest_rate := if 5 <? RTO.numLossesLastFrame (Flow.rto s) then _ else _).
    destruct lowest_rate as [rate lowest].
    cbn [Flow.lastFrameTime Flow.numAcksLastFrame Flow.rto].
    split; [|intros _; split; reflexivity].
    destruct (100 <=? dt / f) eqn:H100.
    + cbn. unfold Clock.TicksInBetween. rewrite Z.sub_diag. cbn. lia.
    + apply Z.leb_gt in H100.
      rewrite (proj2 (Z.ltb_lt _ 100) H100).
      unfold Clock.TicksInBetween.
      rewrite Zminus_mod_idemp_r.
      replace (now - (L + dt / f * f)) with ((now - L) - dt / f * f) by lia.
      rewrite <- Zminus_mod_idemp_l. fold (Clock.TicksInBetween now L). fold dt.
      rewrite Z.mod_small; unfold Clock.tick_modulus in *; nia.
  - apply Z.ltb_ge in Hd.
    assert (Hz : dt / f = 0) by (apply Z.le_antisymm; [exact Hd|apply Z.div_pos; lia]).
    split; [|intros Hge; pose proof (Z.div_le_lower_bound dt f 1 ltac:(lia) ltac:(lia)); lia].
    fold L. fold dt. lia.
Qed.

Lemma flow_frame_clock_within_one_frame_witness :
  let s := Flow.mkState RTO.initial 10 10 3 0 0 [] [] [] [] [] in
  Clock.TicksInBetween 2025 (Flow.lastFrameTime (Flow.HandleFlowControl 1000 2025 s)) < 1000 / 100 /\
  (1000 / 100 <= Clock.TicksInBetween 2025 (Flow.lastFrameTime s) ->
   Flow.numAcksLastFrame (Flow.HandleFlowControl 1000 2025 s) = 0 /\
   RTO.numLossesLastFrame (Flow.rto (Flow.HandleFlowControl 1000 2025 s)) = 0).
Proof.
  intros s. exact (flow_frame_clock_within_one_frame 1000 2025 s ltac:(lia)).
Defined.

(** ** Extra properties: packet timeouts and acks *)

Lemma timeouts_loop_spec (IsNewer : Z -> Z -> bool) (now : Z)
    (tracks : list Send.PacketAckTrack) : forall s,
  let s' := Flow.timeouts_loop IsNewer now tracks s in
  exists expired,
    tracks = expired ++ Flow.outboundPacketAckTrack s' /\
    Forall (fun t => IsNewer (Send.track_timeoutTick t) now = false) expired /\
    match Flow.outboundPacketAckTrack s' with
    | [] => True
    | t :: _ => IsNewer (Send.track_timeoutTick t) now = true
    end /\
    (forall h, In h (Flow.outboundQueue s) -> In h (Flow.outboundQueue s')) /\
    (forall t h, In t expired -> In h (Send.track_messages t) -> In h (Flow.outboundQueue s')) /\
    (forall t, In t expired ->
       (Flow.lowestDatagramSendRateOnPacketLoss s' <= Send.track_datagramSendRate t)%Q) /\
    (Flow.lowestDatagramSendRateOnPacketLoss s' <= Flow.lowestDatagramSendRateOnPacketLoss s)%Q /\
    RTO.numLossesLastFrame (Flow.rto s')
      = RTO.numLossesLastFrame (Flow.rto s) + Z.of_nat (length expired).
Proof.
  induction tracks as [|t rest IH]; intros s s'; subst s'; cbn [Flow.timeouts_loop].
  - exists []. cbn. repeat split; auto; try lra; try tauto; lia.
  - destruct (IsNewer (Send.track_timeoutTick t) now) eqn:Ht.
    + exists []. cbn. repeat split; auto; try lra; try tauto; lia.
    + set (s1 := Flow.mkState _ _ _ _ _ _ _ _ _ _ _).
      destruct (IH s1) as (ex & Hsplit & Hall & Hhd & Hq & Hmsg & Hlow & Hlow' & Hloss).
      exists (t :: ex). cbn [app length]. rewrite <- Hsplit.
      pose proof (fmin_cases (Flow.lowestDatagramSendRateOnPacketLoss s)
                             (Send.track_datagramSendRate t)) as Hm.
      cbn [Flow.outboundQueue Flow.lowestDatagramSendRateOnPacketLoss Flow.rto s1] in *.
      repeat split.
      * constructor; assumption.
      * exact Hhd.
      * intros h Hh. apply Hq. apply reinsert_In. tauto.
      * intros t' h [<-|Ht'] Hh.
        -- apply Hq. apply reinsert_In. tauto.
        -- exact (Hmsg t' h Ht' Hh).
      * intros t' [<-|Ht']; [lra|exact (Hlow t' Ht')].
      * lra.
      * rewrite Hloss. destruct (Flow.rto s); cbn. lia.
Qed.

(** [ProcessPacketTimeouts] drops the longest prefix of the ack-track queue
    whose timeout tick is not newer than [now], and stops at the first track
    that has not timed out. Every message of a dropped track is back in the
    outbound queue (which keeps what it held), the lowest send rate on loss
    is at most the send rate of every dropped track and never grows, and one
    loss per dropped track is counted for the frame. *)
Theorem process_packet_timeouts_requeues_expired (IsNewer : Z -> Z -> bool) (now : Z)
    (s : Flow.State) :
  let s' := Flow.ProcessPacketTimeouts IsNewer now s in
  exists expired,
    Flow.outboundPacketAckTrack s = expired ++ Flow.outboundPacketAckTrack s' /\
    Forall (fun t => IsNewer (Send.track_timeoutTick t) now = false) expired /\
    match Flow.outboundPacketAckTrack s' with
    | [] => True
    | t :: _ => IsNewer (Send.track_timeoutTick t) now = true
    end /\
    (forall h, In h (Flow.outboundQueue s) -> In h (Flow.outboundQueue s')) /\
    (forall t h, In t expired -> In h (Send.track_messages t) -> In h (Flow.outboundQueue s')) /\
    (forall t, In t expired ->
       (Flow.lowestDatagramSendRateOnPacketLoss s' <= Send.track_datagramSendRate t)%Q) /\
    (Flow.lowestDatagramSendRateOnPacketLoss s' <= Flow.lowestDatagramSendRateOnPacketLoss s)%Q /\
    RTO.numLossesLastFrame (Flow.rto s')
      = RTO.numLossesLastFrame (Flow.rto s) + Z.of_nat (length expired).
Proof. exact (timeouts_loop_spec IsNewer now (Flow.outboundPacketAckTrack s) s). Qed.

Lemma track_find_absent (p : Z) (l : list Send.PacketAckTrack) :
  ~ In p (map Send.track_packetID l) -> Flow.track_find p l = None.
Proof.
  induction l as [|t r IH]; intros Hn; cbn; [reflexivity|].
  cbn in Hn. destruct (Send.track_packetID t =? p) eqn:E.
  - apply Z.eqb_eq in E. tauto.
  - apply IH. tauto.
Qed.

Lemma track_find_removed (p : Z) (l : list Send.PacketAckTrack) :
  NoDup (map Send.track_packetID l) -> Flow.track_find p (Flow.track_remove p l) = None.
Proof.
  induction l as [|t r IH]; intros Hd; cbn; [reflexivity|].
  inversion Hd as [|? ? Hn Hd']; subst.
  destruct (Send.track_packetID t =? p) eqn:E.
  - apply Z.eqb_eq in E. subst p. now apply track_find_absent.
  - cbn. rewrite E. now apply IH.
Qed.

(** When the ack-track table holds each packet id at most once, acking the
    same packet a second time changes nothing: the first ack removed its
    track, so the second finds no track and returns. *)
Theorem free_ack_track_twice_is_once (ticksPerSec now1 now2 p : Z) (s : Flow.State)
  (Hnd : NoDup (map Send.track_packetID (Flow.outboundPacketAckTrack s))) :
  Flow.FreeOutboundPacketAckTrack ticksPerSec now2 p
    (Flow.FreeOutboundPacketAckTrack ticksPerSec now1 p s)
  = Flow.FreeOutboundPacketAckTrack ticksPerSec now1 p s.
Proof.
  unfold Flow.FreeOutboundPacketAckTrack at 2 3.
  destruct (Flow.track_find p (Flow.outboundPacketAckTrack s)) as [t|] eqn:Hf.
  - set (x := if _ <=? 1 then _ else _). destruct x as [r acks].
    unfold Flow.FreeOutboundPacketAckTrack. cbn [Flow.outboundPacketAckTrack].
    rewrite (track_find_removed p _ Hnd). reflexivity.
  - unfold Flow.FreeOutboundPacketAckTrack. rewrite Hf. reflexivity.
Qed.

Lemma free_ack_track_twice_is_once_witness :
  let s := Flow.mkState RTO.initial 10 10 0 0 0 [null_msg]
             [] [Send.mkTrack 7 1 0 100 10 [0%nat]; Send.mkTrack 8 2 5 105 10 []] [] [] in
  NoDup (map Send.track_packetID (Flow.outboundPacketAckTrack s)) /\
  Flow.FreeOutboundPacketAckTrack 1000 60 7 (Flow.FreeOutboundPacketAckTrack 1000 50 7 s)
  = Flow.FreeOutboundPacketAckTrack 1000 50 7 s.
Proof.
  intros s.
  assert (Hnd : NoDup (map Send.track_packetID (Flow.outboundPacketAckTrack s))).
  { cbn. constructor; [cbn; lia|]. constructor; [cbn; tauto|constructor]. }
  split; [exact Hnd|]. exact (free_ack_track_twice_is_once 1000 50 60 7 s Hnd).
Defined.

Lemma filter_track_absent (p : Z) (l : list Send.PacketAckTrack) :
  ~ In p (map Send.track_packetID l) ->
  filter (fun t => negb (Send.track_packetID t =? p)) l = l.
Proof.
  induction l as [|t r IH]; intros Hn; cbn; [reflexivity|].
  cbn in Hn. destruct (Send.track_packetID t =? p) eqn:E.
  - apply Z.eqb_eq in E. tauto.
  - cbn. f_equal. apply IH. tauto.
Qed.

Lemma track_remove_filter (p : Z) (l : list Send.PacketAckTrack) :
  NoDup (map Send.track_packetID l) ->
  Flow.track_remove p l = filter (fun t => negb (Send.track_packetID t =? p)) l.
Proof.
  induction l as [|t r IH]; intros Hd; cbn; [reflexivity|].
  inversion Hd as [|? ? Hn Hd']; subst.
  destruct (Send.track_packetID t =? p) eqn:E; cbn.
  - apply Z.eqb_eq in E. subst p. symmetry. now apply filter_track_absent.
  - f_equal. now apply IH.
Qed.

Lemma free_ack_track_tracks (ticksPerSec now p : Z) (s : Flow.State) :
  NoDup (map Send.track_packetID (Flow.outboundPacketAckTrack s)) ->
  Flow.outboundPacketAckTrack (Flow.FreeOutboundPacketAckTrack ticksPerSec now p s)
  = filter (fun t => negb (Send.track_packetID t =? p)) (Flow.outboundPacketAckTrack s).
Proof.
  intros Hnd. unfold Flow.FreeOutboundPacketAckTrack.
  destruct (Flow.track_find p (Flow.outboundPacketAckTrack s)) as [t|] eqn:Hf.
  - set (x := if _ <=? 1 then _ else _). destruct x as [r acks]. cbn.
    now apply track_remove_filter.
  - symmetry. apply filter_track_absent. intros Hin.
    apply in_map_iff in Hin as (t & Ht & Hin).
    clear Hnd. induction (Flow.outboundPacketAckTrack s) as [|u l IH]; [destruct Hin|].
    cbn in Hf. destruct (Send.track_packetID u =? p) eqn:E; [discriminate|].
    destruct Hin as [->|Hin]; [apply Z.eqb_neq in E; contradiction|exact (IH Hf Hin)].
Qed.

Lemma NoDup_map_filter {A B} (f : A -> B) (g : A -> bool) (l : list A) :
  NoDup (map f l) -> NoDup (map f (filter g l)).
Proof.
  induction l as [|x l IH]; intros Hd; cbn; [constructor|].
  inversion Hd as [|? ? Hn Hd']; subst.
  destruct (g x); [|now apply IH]. cbn. constructor; [|now apply IH].
  intros Hin. apply Hn. apply in_map_iff in Hin as (y & Hy & Hin).
  apply filter_In in Hin as [Hin _]. apply in_map_iff. eauto.
Qed.

Lemma filter_filter_and {A} (g h : A -> bool) (l : list A) :
  filter g (filter h l) = filter (fun x => h x && g x) l.
Proof.
  induction l as [|x l IH]; cbn; [reflexivity|].
  destruct (h x); cbn; [destruct (g x); cbn; [f_equal|]|]; exact IH.
Qed.

Lemma fold_free_tracks (ticksPerSec now : Z) (ids : list Z) : forall s,
  NoDup (map Send.track_packetID (Flow.outboundPacketAckTrack s)) ->
  Flow.outboundPacketAckTrack
    (fold_left (fun s id => Flow.FreeOutboundPacketAckTrack ticksPerSec now id s) ids s)
  = filter (fun t => negb (existsb (Z.eqb (Send.track_packetID t)) ids))
      (Flow.outboundPacketAckTrack s).
Proof.
  induction ids as [|p ids IH]; intros s Hnd; cbn.
  - clear Hnd. induction (Flow.outboundPacketAckTrack s) as [|t l IHl]; cbn; [reflexivity|].
    f_equal. exact IHl.
  - rewrite IH.
    + rewrite (free_ack_track_tracks ticksPerSec now p s Hnd), filter_filter_and.
      apply filter_ext. intros t. now rewrite negb_orb.
    + rewrite (free_ack_track_tracks ticksPerSec now p s Hnd). now apply NoDup_map_filter.
Qed.

(** When the ack-track table holds each packet id at most once, handling a
    PacketAck message removes exactly the tracks of the packets it
    acknowledges (its packet id and those its sequence bits mark) and keeps
    every other track, in order. A message of the wrong size acknowledges
    nothing and leaves the table as it was. *)
Theorem packet_ack_message_removes_acked_tracks (ticksPerSec now : Z) (data : list Z)
  (s : Flow.State)
  (Hnd : NoDup (map Send.track_packetID (Flow.outboundPacketAckTrack s))) :
  Flow.outboundPacketAckTrack (Flow.HandlePacketAckMessage ticksPerSec now data s)
  = filter (fun t => negb (existsb (Z.eqb (Send.track_packetID t))
                                   (Ack.HandlePacketAckMessage data)))
      (Flow.outboundPacketAckTrack s) /\
  (length data <> 7%nat -> Flow.HandlePacketAckMessage ticksPerSec now data s = s).
Proof.
  split.
  - exact (fold_free_tracks ticksPerSec now _ s Hnd).
  - intros Hl. unfold Flow.HandlePacketAckMessage, Ack.HandlePacketAckMessage.
    apply Nat.eqb_neq in Hl. rewrite Hl. reflexivity.
Qed.

Lemma packet_ack_message_removes_acked_tracks_witness :
  let s := Flow.mkState RTO.initial 10 10 0 0 0 [null_msg]
             [] [Send.mkTrack 7 1 0 100 10 [0%nat]; Send.mkTrack 8 2 5 105 10 [];
                 Send.mkTrack 9 1 6 106 10 []] [] [] in
  let data := [7; 0; 0; 2; 0; 0; 0] in
  Flow.outboundPacketAckTrack (Flow.HandlePacketAckMessage 1000 50 data s)
  = filter (fun t => negb (existsb (Z.eqb (Send.track_packetID t))
                                   (Ack.HandlePacketAckMessage data)))
      (Flow.outboundPacketAckTrack s) /\
  (length data <> 7%nat -> Flow.HandlePacketAckMessage 1000 50 data s = s).
Proof.
  intros s data.
  apply (packet_ack_message_removes_acked_tracks 1000 50 data s).
  cbn. constructor; [cbn; lia|]. constructor; [cbn; lia|].
  constructor; [cbn; tauto|constructor].
Defined.

(** ** Extra properties: queueing outbound messages *)

Lemma Out_IsWriteOpen_disconnecting (s : Out.State) :
  Out.connectionState s = ConnectionDisconnecting -> Out.IsWriteOpen s = false.
Proof.
  intros H. unfold Out.IsWriteOpen. rewrite H. cbn. now rewrite andb_false_r.
Qed.

Lemma EndAndQueueMessage_not_open (h : nat) (n : Z) (iq : bool) (s : Out.State) :
  Out.IsWriteOpen s = false -> Out.EndAndQueueMessage h n iq s = Out.FreeMessage h s.
Proof.
  intros H. unfold Out.EndAndQueueMessage. rewrite H. cbn. now rewrite orb_true_r.
Qed.

(** [HandleDisconnectMessage] sets the state to [ConnectionDisconnecting]
    before [SendDisconnectAckMessage], and [EndAndQueueMessage] discards
    every message on a connection that is not write-open, which a
    disconnecting one is not. So the DisconnectAck is never queued: it is
    freed, and both send queues and the message counters are unchanged. On a
    closed connection nothing happens at all. *)
Theorem handle_disconnect_never_queues_ack (cMaxPriority : Z) (internalQueueDefault : bool)
    (numBytesDefault : Z) (s : Out.State) :
  let s' := Out.HandleDisconnectMessage cMaxPriority internalQueueDefault numBytesDefault s in
  Out.outboundQueue s' = Out.outboundQueue s /\
  Out.outboundAcceptQueue s' = Out.outboundAcceptQueue s /\
  Out.outboundMessageNumberCounter s' = Out.outboundMessageNumberCounter s /\
  Out.outboundReliableMessageNumberCounter s' = Out.outboundReliableMessageNumberCounter s /\
  (Out.connectionState s = ConnectionClosed -> s' = s) /\
  (Out.connectionState s <> ConnectionClosed ->
   Out.connectionState s' = ConnectionDisconnecting /\
   Out.freedMessages s' = Out.freedMessages s ++ [length (Out.heap s)] /\
   msg_id (deref (Out.heap s') (length (Out.heap s))) = MsgIdDisconnectAck).
Proof.
  intros s'. subst s'. unfold Out.HandleDisconnectMessage.
  destruct (Out.is_closed (Out.connectionState s)) eqn:Hc.
  - assert (Hcl : Out.connectionState s = ConnectionClosed)
      by (destruct (Out.connectionState s); cbn in Hc; congruence).
    cbn [negb]. split; [|split; [|split; [|split; [|split]]]]; auto; intros Hn; contradiction.
  - cbn [negb]. unfold Out.SendDisconnectAckMessage, Out.StartNewMessage. cbv zeta.
    rewrite EndAndQueueMessage_not_open by (apply Out_IsWriteOpen_disconnecting; reflexivity).
    cbn. repeat split; try reflexivity.
    + intros Hcl. rewrite Hcl in Hc. discriminate.
    + unfold set_msg, deref. rewrite !nth_list_set_eq; rewrite ?length_list_set, ?length_app;
        cbn; try lia. rewrite nth_middle. reflexivity.
Qed.


Lemma deref_set_msg_eq (heap : list NetworkMessage) (h : nat) (f : NetworkMessage -> NetworkMessage) :
  (h < length heap)%nat -> deref (set_msg heap h f) h = f (deref heap h).
Proof. intros Hh. unfold deref, set_msg. now rewrite nth_list_set_eq. Qed.

Lemma length_set_msg (heap : list NetworkMessage) (h : nat) (f : NetworkMessage -> NetworkMessage) :
  length (set_msg heap h f) = length heap.
Proof. unfold set_msg. apply length_list_set. Qed.

Lemma Out_IsWriteOpen_true (s : Out.State) :
  Out.IsWriteOpen s = true ->
  Out.socket s = true /\ Out.is_closed (Out.connectionState s) = false.
Proof.
  unfold Out.IsWriteOpen. intros H. apply andb_true_iff in H as [H1 H4].
  apply andb_true_iff in H1 as [H1 _]. apply andb_true_iff in H1 as [H1 _].
  split; [exact H1|]. now apply negb_true_iff in H4.
Qed.

(** A message that is queued whole (not obsolete, on a write-open
    connection, and whose size plus the 32-byte header bound fits the
    socket's maximum send size) gets the next message number; a reliable
    message also gets the next reliable message number, while an unreliable
    one gets 0 and does not use one up; its send count starts at 0. On the
    worker's path it enters the outbound priority queue; on the
    application's path it is appended to the accept queue when there is
    room, and freed otherwise (after the counters have moved on). *)
Theorem end_and_queue_numbers_message (h : nat) (numBytes : Z) (internalQueue : bool)
    (s : Out.State)
  (Hh : (h < length (Out.heap s))%nat)
  (Hopen : Out.IsWriteOpen s = true)
  (Hobs : msg_obsolete (deref (Out.heap s) h) = false)
  (Hfit : (if numBytes =? Out.size_t_minus_1 then msg_dataSize (deref (Out.heap s) h)
           else numBytes) + Out.sendHeaderUpperBound <= Out.maxSendSize s) :
  let s' := Out.EndAndQueueMessage h numBytes internalQueue s in
  let r := msg_reliable (deref (Out.heap s) h) in
  msg_messageNumber (deref (Out.heap s') h) = Out.outboundMessageNumberCounter s /\
  msg_reliableMessageNumber (deref (Out.heap s') h)
    = (if r then Out.outboundReliableMessageNumberCounter s else 0) /\
  msg_sendCount (deref (Out.heap s') h) = 0 /\
  Out.outboundMessageNumberCounter s' = Out.outboundMessageNumberCounter s + 1 /\
  Out.outboundReliableMessageNumberCounter s'
    = Out.outboundReliableMessageNumberCounter s + (if r then 1 else 0) /\
  (internalQueue = true -> In h (Out.outboundQueue s')) /\
  (internalQueue = false ->
   ((length (Out.outboundAcceptQueue s) < Out.acceptQueueCapacity s)%nat ->
    Out.outboundAcceptQueue s' = Out.outboundAcceptQueue s ++ [h]) /\
   ((Out.acceptQueueCapacity s <= length (Out.outboundAcceptQueue s))%nat ->
    Out.freedMessages s' = Out.freedMessages s ++ [h])).
Proof.
  destruct (Out_IsWriteOpen_true s Hopen) as [Hsock Hcl].
  intros s' r. subst s' r. unfold Out.EndAndQueueMessage.
  rewrite Hobs, Hsock, Hcl, Hopen. cbn [orb negb].
  destruct (numBytes =? Out.size_t_minus_1) eqn:En; cbn [Out.heap Out.with_heap];
    rewrite ?deref_set_msg_eq by exact Hh;
    (rewrite (proj2 (Z.ltb_ge _ _)) by exact Hfit);
    cbv zeta;
    destruct internalQueue; [| unfold Out.AcceptQueueInsert; cbn [Out.with_heap Out.with_counters
      Out.outboundAcceptQueue Out.acceptQueueCapacity];
      destruct (Nat.ltb (length (Out.outboundAcceptQueue s)) (Out.acceptQueueCapacity s)) eqn:Hq
      | |unfold Out.AcceptQueueInsert; cbn [Out.with_heap Out.with_counters
      Out.outboundAcceptQueue Out.acceptQueueCapacity];
      destruct (Nat.ltb (length (Out.outboundAcceptQueue s)) (Out.acceptQueueCapacity s)) eqn:Hq];
    cbn -[deref set_msg]; rewrite ?deref_set_msg_eq by (rewrite ?length_set_msg; exact Hh);
    cbn -[deref set_msg].
  all: repeat (split || intros); try reflexivity; try discriminate;
    try (destruct (msg_reliable _); lia); try (apply pq_insert_In; now left);
    try (apply Nat.ltb_lt in Hq; lia); try (apply Nat.ltb_ge in Hq; lia).
Qed.

Lemma end_and_queue_numbers_message_witness :
  let s := Out.mkState ConnectionOK true true 1400
             [null_msg; Out.set_reliable true (Out.set_dataSize 2 null_msg)]
             [[]; [1; 2]] [] [] 4 [] [] 10 5 false false [] in
  let s' := Out.EndAndQueueMessage 1 2 true s in
  let r := msg_reliable (deref (Out.heap s) 1) in
  msg_messageNumber (deref (Out.heap s') 1) = Out.outboundMessageNumberCounter s /\
  msg_reliableMessageNumber (deref (Out.heap s') 1)
    = (if r then Out.outboundReliableMessageNumberCounter s else 0) /\
  msg_sendCount (deref (Out.heap s') 1) = 0 /\
  Out.outboundMessageNumberCounter s' = Out.outboundMessageNumberCounter s + 1 /\
  Out.outboundReliableMessageNumberCounter s'
    = Out.outboundReliableMessageNumberCounter s + (if r then 1 else 0) /\
  (true = true -> In 1%nat (Out.outboundQueue s')) /\
  (true = false ->
   ((length (Out.outboundAcceptQueue s) < Out.acceptQueueCapacity s)%nat ->
    Out.outboundAcceptQueue s' = Out.outboundAcceptQueue s ++ [1%nat]) /\
   ((Out.acceptQueueCapacity s <= length (Out.outboundAcceptQueue s))%nat ->
    Out.freedMessages s' = Out.freedMessages s ++ [1%nat])).
Proof.
  intros s.
  apply (end_and_queue_numbers_message 1 2 true s).
  - cbn. lia.
  - reflexivity.
  - reflexivity.
  - vm_compute. discriminate.
Defined.

Lemma EndAndQueueMessage_internal_queued (h : nat) (numBytes : Z) (s : Out.State)
  (Hh : (h < length (Out.heap s))%nat)
  (Hopen : Out.IsWriteOpen s = true)
  (Hobs : msg_obsolete (deref (Out.heap s) h) = false)
  (Hn : numBytes <> Out.size_t_minus_1)
  (Hfit : numBytes + Out.sendHeaderUpperBound <= Out.maxSendSize s) :
  let s' := Out.EndAndQueueMessage h numBytes true s in
  In h (Out.outboundQueue s') /\ Out.payload s' = Out.payload s /\
  msg_id (deref (Out.heap s') h) = msg_id (deref (Out.heap s) h) /\
  Out.ping s' = Out.ping s /\ length (Out.heap s') = length (Out.heap s).
Proof.
  destruct (Out_IsWriteOpen_true s Hopen) as [Hsock Hcl].
  intros s'. subst s'. unfold Out.EndAndQueueMessage.
  rewrite Hobs, Hsock, Hcl, Hopen. cbn [orb negb].
  rewrite (proj2 (Z.eqb_neq _ _) Hn). cbn [Out.heap Out.with_heap].
  rewrite deref_set_msg_eq by exact Hh.
  rewrite (proj2 (Z.ltb_ge _ _)) by exact Hfit. cbv zeta.
  cbn -[deref set_msg]. rewrite !length_set_msg.
  rewrite !deref_set_msg_eq by (rewrite ?length_set_msg; exact Hh).
  cbn -[deref set_msg]. repeat split; try reflexivity.
  apply pq_insert_In. now left.
Qed.

Lemma match_reply_skip (tps now pid : Z) (l r : list Ping.PingTrack) :
  Ping.first_pending pid l = None ->
  Ping.match_reply tps now pid (l ++ r)
  = match Ping.match_reply tps now pid r with
    | Some (r', x) => Some (l ++ r', x)
    | None => None
    end.
Proof.
  induction l as [|e l IH]; intros Hf; cbn [app].
  - destruct (Ping.match_reply tps now pid r) as [[r' x]|]; reflexivity.
  - cbn in Hf |- *. destruct ((Ping.pingID e =? pid) && negb (Ping.replyReceived e)); [discriminate|].
    rewrite (IH Hf). destruct (Ping.match_reply tps now pid r) as [[r' x]|]; reflexivity.
Qed.

Lemma list_set_app_last {A} (l : list A) (x v : A) :
  list_set (l ++ [x]) (length l) v = l ++ [v].
Proof. induction l as [|y l IH]; cbn; [reflexivity | now rewrite IH]. Qed.

Lemma queue_one_byte_message (id p b : Z) (s : Out.State)
  (Hopen : Out.IsWriteOpen s = true)
  (Hfit : 1 + Out.sendHeaderUpperBound <= Out.maxSendSize s)
  (Hlen : length (Out.payload s) = length (Out.heap s)) :
  let h := length (Out.heap s) in
  let s1 := snd (Out.StartNewMessage id 1 s) in
  let s2 := Out.with_heap s1 (Out.heap s1) (list_set (Out.payload s1) h [b]) in
  let s3 := Out.with_heap s2 (set_msg (Out.heap s2) h (Out.set_priority p)) (Out.payload s2) in
  let s4 := Out.EndAndQueueMessage h 1 true s3 in
  In h (Out.outboundQueue s4) /\ msg_id (deref (Out.heap s4) h) = id /\
  nth h (Out.payload s4) [] = [b] /\ Out.ping s4 = Out.ping s.
Proof.
  intros h s1 s2 s3 s4.
  assert (Hd : deref (Out.heap s3) h =
               Out.set_priority p (mkMsg id false false 0 0 0 0 0 false None 0 1)).
  { subst s3 s2 s1. cbn -[deref set_msg]. rewrite deref_set_msg_eq.
    - unfold deref, h. now rewrite nth_middle.
    - rewrite length_app. cbn. lia. }
  assert (Hl : (h < length (Out.heap s3))%nat).
  { subst s3 s2 s1. cbn -[deref set_msg]. rewrite length_set_msg, length_app. cbn. lia. }
  destruct (EndAndQueueMessage_internal_queued h 1 s3 Hl) as (Hq & Hp & Hi & Hpg & _).
  - exact Hopen.
  - now rewrite Hd.
  - unfold Out.size_t_minus_1. lia.
  - exact Hfit.
  - subst s4. split; [exact Hq|]. rewrite Hi, Hd. split; [reflexivity|].
    rewrite Hp, Hpg. subst s3 s2 s1 h. cbn -[list_set set_msg].
    rewrite <- Hlen, list_set_app_last.
    split; [now rewrite nth_middle | reflexivity].
Qed.

(** Ping round trip: [SendPingRequestMessage] queues a PingRequest whose
    payload is the new ping id; the peer's [HandlePingRequestMessage] on that
    payload queues a PingReply carrying the same id; and when no earlier
    unreplied entry has that id, [HandlePingReplyMessage] on the reply marks
    the new ping entry replied at the reply tick. *)
Theorem ping_request_reply_roundtrip (cMaxPriority tps now now2 : Z) (rtt : Q)
    (s peer : Out.State)
  (Hopen : Out.IsWriteOpen s = true) (Hfit : 1 + Out.sendHeaderUpperBound <= Out.maxSendSize s)
  (Hlen : length (Out.payload s) = length (Out.heap s))
  (Hpopen : Out.IsWriteOpen peer = true)
  (Hpfit : 1 + Out.sendHeaderUpperBound <= Out.maxSendSize peer)
  (Hplen : length (Out.payload peer) = length (Out.heap peer)) :
  let pid := (match rev (Out.ping s) with
              | [] => 1
              | last :: _ => Ping.pingID last + 1
              end) mod 256 in
  let s1 := Out.SendPingRequestMessage cMaxPriority now s in
  let h := length (Out.heap s) in
  let request := nth h (Out.payload s1) [] in
  let peer1 := Out.HandlePingRequestMessage cMaxPriority request peer in
  let hr := length (Out.heap peer) in
  let reply := nth hr (Out.payload peer1) [] in
  In h (Out.outboundQueue s1) /\ msg_id (deref (Out.heap s1) h) = MsgIdPingRequest /\
  request = [pid] /\
  In hr (Out.outboundQueue peer1) /\ msg_id (deref (Out.heap peer1) hr) = MsgIdPingReply /\
  reply = [pid] /\
  (Ping.first_pending pid (Out.ping s) = None ->
   Ping.ping (Ping.HandlePingReplyMessage tps now2 reply (Ping.mkState (Out.ping s1) rtt))
   = Out.ping s ++ [Ping.mkPingTrack pid now now2 true]).
Proof.
  intros pid s1 h request peer1 hr reply.
  pose proof (queue_one_byte_message MsgIdPingRequest (cMaxPriority - 2) pid
                (Out.with_ping s (Out.ping s ++ [Ping.mkPingTrack pid now 0 false]))
                Hopen Hfit Hlen) as HQ.
  cbv zeta in HQ. change (Out.EndAndQueueMessage _ 1 true _) with s1 in HQ.
  destruct HQ as (Hq1 & Hi1 & Hp1 & Hg1).
  change (length (Out.heap (Out.with_ping _ _))) with h in Hq1, Hi1, Hp1.
  change (nth h (Out.payload s1) []) with request in Hp1.
  pose proof (queue_one_byte_message MsgIdPingReply (cMaxPriority - 1) pid peer
                Hpopen Hpfit Hplen) as HR.
  cbv zeta in HR.
  change (Out.EndAndQueueMessage _ 1 true _)
    with (Out.HandlePingRequestMessage cMaxPriority [pid] peer) in HR.
  assert (E : peer1 = Out.HandlePingRequestMessage cMaxPriority [pid] peer)
    by (unfold peer1; now rewrite Hp1).
  rewrite <- E in HR. destruct HR as (Hq2 & Hi2 & Hp2 & _).
  change (length (Out.heap peer)) with hr in Hq2, Hi2, Hp2.
  change (nth hr (Out.payload peer1) []) with reply in Hp2.
  split; [exact Hq1|]. split; [exact Hi1|]. split; [exact Hp1|].
  split; [exact Hq2|]. split; [exact Hi2|]. split; [exact Hp2|].
  intros Hf. rewrite Hp2. unfold Ping.HandlePingReplyMessage. cbn [Ping.ping].
  rewrite Hg1. cbn [Out.ping Out.with_ping]. rewrite (match_reply_skip _ _ _ _ _ Hf).
  cbn. rewrite Z.eqb_refl. reflexivity.
Qed.

Lemma ping_request_reply_roundtrip_witness :
  let s := Out.mkState ConnectionOK true true 1400 [] [] [] [] 4 [] [] 0 0 false false
             [Ping.mkPingTrack 7 1 3 true] in
  let peer := Out.mkState ConnectionOK true true 1400 [null_msg] [[]] [] [] 4 [] [] 0 0
                false false [] in
  let pid := 8 in
  let s1 := Out.SendPingRequestMessage 100 20 s in
  let h := length (Out.heap s) in
  let request := nth h (Out.payload s1) [] in
  let peer1 := Out.HandlePingRequestMessage 100 request peer in
  let hr := length (Out.heap peer) in
  let reply := nth hr (Out.payload peer1) [] in
  In h (Out.outboundQueue s1) /\ msg_id (deref (Out.heap s1) h) = MsgIdPingRequest /\
  request = [pid] /\
  In hr (Out.outboundQueue peer1) /\ msg_id (deref (Out.heap peer1) hr) = MsgIdPingReply /\
  reply = [pid] /\
  (Ping.first_pending pid (Out.ping s) = None ->
   Ping.ping (Ping.HandlePingReplyMessage 1000 25 reply (Ping.mkState (Out.ping s1) 0))
   = Out.ping s ++ [Ping.mkPingTrack pid 20 25 true]).
Proof.
  apply (ping_request_reply_roundtrip 100 1000 20 25 0).
  - reflexivity.
  - vm_compute. discriminate.
  - reflexivity.
  - reflexivity.
  - vm_compute. discriminate.
  - reflexivity.
Defined.

Lemma queue_step_props (iq : bool) (f : nat) (s : Out.State) :
  let s' := if iq
            then Out.with_queues s (pq_insert (Out.heap s) f (Out.outboundQueue s))
                   (Out.outboundAcceptQueue s)
            else match Out.AcceptQueueInsert f s with Some s' => s' | None => s end in
  Out.heap s' = Out.heap s /\ Out.payload s' = Out.payload s /\
  Out.outboundMessageNumberCounter s' = Out.outboundMessageNumberCounter s /\
  Out.outboundReliableMessageNumberCounter s' = Out.outboundReliableMessageNumberCounter s /\
  Out.transfers s' = Out.transfers s /\ Out.freedMessages s' = Out.freedMessages s /\
  (forall x, In x (Out.outboundQueue s) -> In x (Out.outboundQueue s')) /\
  (iq = true -> In f (Out.outboundQueue s')).
Proof.
  destruct iq; cbn.
  - repeat split; try reflexivity; intros; apply pq_insert_In; auto.
  - unfold Out.AcceptQueueInsert. destruct (_ <? _)%nat; cbn;
      repeat split; auto; discriminate.
Qed.

Lemma list_set_app_at {A} (l : list A) (n : nat) (x v : A) :
  n = length l -> list_set (l ++ [x]) n v = l ++ [v].
Proof. intros ->. apply list_set_app_last. Qed.

Lemma set_msg_app_last (heap : list NetworkMessage) (m : NetworkMessage)
    (f : NetworkMessage -> NetworkMessage) :
  set_msg (heap ++ [m]) (length heap) f = heap ++ [f m].
Proof. unfold set_msg, deref. rewrite nth_middle. apply list_set_app_last. Qed.

Lemma split_loop_step (message : NetworkMessage) (data : list Z) (iq : bool) (mfs : Z)
    (t : nat) (fuel : nat) (off idx : Z) (s : Out.State) :
  off < msg_dataSize message ->
  length (Out.payload s) = length (Out.heap s) ->
  let sz := Z.min mfs (msg_dataSize message - off) in
  let H0 := length (Out.heap s) in
  let tr := nth t (Out.transfers s) (Out.mkTransfer 0 []) in
  exists s2,
    Out.split_loop message data iq mfs t (S fuel) off idx s
      = Out.split_loop message data iq mfs t fuel (off + sz) (idx + 1) s2 /\
    Out.heap s2 = Out.heap s ++
      [mkMsg (msg_id message) true (msg_inOrder message) (msg_priority message)
             (msg_contentID message) (Out.outboundMessageNumberCounter s)
             (msg_reliableMessageNumber message) 0 false (Some t) idx sz] /\
    Out.payload s2 = Out.payload s ++ [firstn (Z.to_nat sz) (skipn (Z.to_nat off) data)] /\
    Out.outboundMessageNumberCounter s2 = Out.outboundMessageNumberCounter s + 1 /\
    Out.outboundReliableMessageNumberCounter s2 = Out.outboundReliableMessageNumberCounter s /\
    Out.transfers s2 = list_set (Out.transfers s) t
                         (Out.mkTransfer (Out.totalNumFragments tr) (Out.fragments tr ++ [H0])) /\
    Out.freedMessages s2 = Out.freedMessages s /\
    (forall x, In x (Out.outboundQueue s) -> In x (Out.outboundQueue s2)) /\
    (iq = true -> In H0 (Out.outboundQueue s2)).
Proof.
  intros Ho Hl sz H0 tr.
  cbn [Out.split_loop]. rewrite (proj2 (Z.ltb_lt _ _) Ho).
  unfold Out.StartNewMessage. cbv zeta.
  eexists. split; [reflexivity|].
  match goal with
  | |- Out.heap (if iq then Out.with_queues ?s3 _ _ else _) = _ /\ _ =>
      pose proof (queue_step_props iq (length (Out.heap s)) s3) as HQ
  end.
  cbv zeta in HQ. destruct HQ as (E1 & E2 & E3 & E4 & E5 & E6 & E7 & E8).
  rewrite E1, E2, E3, E4, E5, E6.
  refine (conj _ (conj _ (conj _ (conj _ (conj _ (conj _ (conj E7 E8))))))).
  all: cbn -[set_msg list_set pq_insert]; try reflexivity.
  - rewrite set_msg_app_last. reflexivity.
  - rewrite (list_set_app_at (Out.payload s)) by (symmetry; exact Hl). reflexivity.
Qed.

Lemma nfrag_last (mfs : Z) : 0 < mfs -> (mfs - 1) / mfs = 0.
Proof. intros Hm. apply Z.div_small. lia. Qed.

Lemma nfrag_step (D off mfs : Z) : 0 < mfs -> off < D ->
  (D - off + mfs - 1) / mfs = 1 + (D - (off + Z.min mfs (D - off)) + mfs - 1) / mfs.
Proof.
  intros Hm Ho. destruct (Z.min_spec mfs (D - off)) as [[Hlt ->]|[Hge ->]].
  - replace (D - off + mfs - 1) with ((D - (off + mfs) + mfs - 1) + 1 * mfs) by ring.
    rewrite Z.div_add by lia. ring.
  - replace (D - (off + (D - off)) + mfs - 1) with (mfs - 1) by ring.
    rewrite nfrag_last by exact Hm.
    symmetry. apply Z.div_unique with (D - off - 1); lia.
Qed.

Lemma firstn_add_skipn {A} (a b : nat) : forall (l : list A),
  firstn (a + b) l = firstn a l ++ firstn b (skipn a l).
Proof.
  induction a as [|a IH]; intros l; [reflexivity|].
  destruct l as [|x l]; cbn; [now rewrite firstn_nil|]. now rewrite IH.
Qed.

Lemma split_loop_done (message : NetworkMessage) (data : list Z) (iq : bool) (mfs : Z)
    (t fuel : nat) (off idx : Z) (s : Out.State) :
  msg_dataSize message <= off ->
  Out.split_loop message data iq mfs t fuel off idx s = s.
Proof.
  intros Ho. destruct fuel; cbn [Out.split_loop]; [reflexivity|].
  now rewrite (proj2 (Z.ltb_ge _ _) Ho).
Qed.

Lemma split_loop_spec (message : NetworkMessage) (data : list Z) (iq : bool) (mfs : Z)
    (t : nat) (Hm : 0 < mfs) (fuel : nat) :
  forall off idx s,
  0 <= off <= msg_dataSize message ->
  (Z.to_nat (msg_dataSize message - off) <= fuel)%nat ->
  length (Out.payload s) = length (Out.heap s) ->
  (t < length (Out.transfers s))%nat ->
  exists frags chunks,
    let s' := Out.split_loop message data iq mfs t fuel off idx s in
    let D := msg_dataSize message in
    let k := Z.to_nat ((D - off + mfs - 1) / mfs) in
    let tr := nth t (Out.transfers s) (Out.mkTransfer 0 []) in
    Out.heap s' = Out.heap s ++ frags /\ Out.payload s' = Out.payload s ++ chunks /\
    length frags = k /\ length chunks = k /\
    concat chunks = firstn (Z.to_nat (D - off)) (skipn (Z.to_nat off) data) /\
    (forall j, (j < k)%nat ->
       nth j frags null_msg =
       mkMsg (msg_id message) true (msg_inOrder message) (msg_priority message)
             (msg_contentID message) (Out.outboundMessageNumberCounter s + Z.of_nat j)
             (msg_reliableMessageNumber message) 0 false (Some t) (idx + Z.of_nat j)
             (Z.min mfs (D - (off + Z.of_nat j * mfs)))) /\
    Out.outboundMessageNumberCounter s' = Out.outboundMessageNumberCounter s + Z.of_nat k /\
    Out.outboundReliableMessageNumberCounter s' = Out.outboundReliableMessageNumberCounter s /\
    length (Out.transfers s') = length (Out.transfers s) /\
    nth t (Out.transfers s') (Out.mkTransfer 0 []) =
      Out.mkTransfer (Out.totalNumFragments tr)
        (Out.fragments tr ++ seq (length (Out.heap s)) k) /\
    Out.freedMessages s' = Out.freedMessages s /\
    (forall x, In x (Out.outboundQueue s) -> In x (Out.outboundQueue s')) /\
    (iq = true -> forall j, (j < k)%nat -> In (length (Out.heap s) + j)%nat (Out.outboundQueue s')).
Proof.
  induction fuel as [|fuel IH]; intros off idx s Hoff Hfuel Hl Ht;
    [|destruct (Z_lt_ge_dec off (msg_dataSize message)) as [Ho|Ho]].
  1,3: rewrite split_loop_done by lia; exists [], [];
     cbv zeta;
     replace (msg_dataSize message - off + mfs - 1) with (mfs - 1) by lia;
     rewrite nfrag_last by exact Hm;
     replace (Z.to_nat (msg_dataSize message - off)) with 0%nat by lia;
     cbn [length concat firstn seq Z.to_nat];
     rewrite !app_nil_r, ?Z.add_0_r;
     repeat split; auto; try (intros; lia);
     destruct (nth t (Out.transfers s) (Out.mkTransfer 0 [])); reflexivity.
  pose proof (split_loop_step message data iq mfs t fuel off idx s Ho Hl) as Hst.
  cbv zeta in Hst.
  destruct Hst as (s2 & Hs & Hh2 & Hp2 & Hc2 & Hr2 & Htr2 & Hf2 & Hq2 & Hi2).
  set (D := msg_dataSize message) in *.
  set (sz := Z.min mfs (D - off)) in *.
  assert (Hsz : 1 <= sz <= mfs /\ sz <= D - off) by (unfold sz; lia).
  pose proof (nfrag_step D off mfs Hm Ho) as HK. fold sz in HK.
  set (K := (D - off + mfs - 1) / mfs) in *.
  set (K' := (D - (off + sz) + mfs - 1) / mfs) in *.
  assert (HK0 : 0 <= K') by (apply Z.div_pos; lia).
  assert (Hl2 : length (Out.payload s2) = length (Out.heap s2))
    by (rewrite Hh2, Hp2, !length_app; cbn; lia).
  assert (Ht2 : (t < length (Out.transfers s2))%nat)
    by (rewrite Htr2, length_list_set; exact Ht).
  destruct (IH (off + sz) (idx + 1) s2 ltac:(lia) ltac:(lia) Hl2 Ht2) as (frags & chunks & HI).
  cbv zeta in HI. fold D K' in HI.
  destruct HI as (A1 & A2 & A3 & A4 & A5 & A6 & A7 & A8 & A9 & A10 & A11 & A12 & A13).
  assert (HKn : Z.to_nat K = S (Z.to_nat K')) by lia.
  eexists (_ :: frags), (_ :: chunks). cbv zeta. fold K. rewrite Hs, HKn.
  split; [rewrite A1, Hh2, <- app_assoc; reflexivity|].
  split; [rewrite A2, Hp2, <- app_assoc; reflexivity|].
  split; [cbn; now rewrite A3|].
  split; [cbn; now rewrite A4|].
  split.
  { cbn [concat]. rewrite A5.
    replace (Z.to_nat (off + sz)) with (Z.to_nat sz + Z.to_nat off)%nat by lia.
    rewrite <- skipn_skipn, <- firstn_add_skipn. f_equal. lia. }
  split.
  { intros [|j] Hj; cbn [nth].
    - f_equal; lia.
    - rewrite A6 by lia.
      assert (Hmf : sz = mfs).
      { destruct (Z.min_spec mfs (D - off)) as [[_ E]|[_ E]]; fold sz in E; [exact E|].
        exfalso. unfold K' in Hj. rewrite E in Hj.
        replace (D - (off + (D - off)) + mfs - 1) with (mfs - 1) in Hj by ring.
        rewrite nfrag_last in Hj by exact Hm. cbn in Hj. lia. }
      f_equal; lia. }
  split; [rewrite A7, Hc2; lia|].
  split; [rewrite A8, Hr2; reflexivity|].
  split; [rewrite A9, Htr2, length_list_set; reflexivity|].
  split.
  { rewrite A10, Htr2, nth_list_set_eq by exact Ht. cbn [Out.totalNumFragments Out.fragments].
    rewrite Hh2, length_app, <- app_assoc. cbn [seq app length].
    now rewrite Nat.add_1_r. }
  split; [rewrite A11, Hf2; reflexivity|].
  split; [intros x Hx; apply A12, Hq2, Hx|].
  intros Hiq [|j] Hj.
  - rewrite Nat.add_0_r. apply A12, Hi2, Hiq.
  - replace (length (Out.heap s) + S j)%nat with (length (Out.heap s2) + j)%nat
      by (rewrite Hh2, length_app; cbn; lia).
    apply A13; [exact Hiq | lia].
Qed.

(** [SplitAndQueueMessage] with a positive fragment size turns a message of
    [D] bytes into ceil(D / maxFragmentSize) fragments appended to the heap,
    in order: fragment [j] is reliable, carries the parent's id, order flag,
    priority and content id, takes message number [counter + j] and fragment
    index [j], holds at most maxFragmentSize bytes, and keeps the parent's
    reliable message number, while the reliable counter does not move. The
    fragments' payloads concatenate to the parent's first [D] bytes, the new
    transfer lists exactly the fragments, with [totalNumFragments] equal to
    their count when [D + maxFragmentSize - 1] fits in a [size_t], the
    fragments are in the internal queue when [internalQueue] holds, and the
    parent message is freed. *)
Theorem split_and_queue_fragments (h : nat) (internalQueue : bool) (maxFragmentSize : Z)
    (s : Out.State)
  (Hm : 0 < maxFragmentSize) (HD : 0 <= msg_dataSize (deref (Out.heap s) h))
  (Hl : length (Out.payload s) = length (Out.heap s)) :
  let message := deref (Out.heap s) h in
  let D := msg_dataSize message in
  let k := Z.to_nat ((D + maxFragmentSize - 1) / maxFragmentSize) in
  let t := length (Out.transfers s) in
  let s' := Out.SplitAndQueueMessage h internalQueue maxFragmentSize s in
  exists frags chunks,
    Out.heap s' = Out.heap s ++ frags /\ Out.payload s' = Out.payload s ++ chunks /\
    length frags = k /\
    concat chunks = firstn (Z.to_nat D) (nth h (Out.payload s) []) /\
    (forall j, (j < k)%nat ->
       nth j frags null_msg =
       mkMsg (msg_id message) true (msg_inOrder message) (msg_priority message)
             (msg_contentID message) (Out.outboundMessageNumberCounter s + Z.of_nat j)
             (msg_reliableMessageNumber message) 0 false (Some t) (Z.of_nat j)
             (Z.min maxFragmentSize (D - Z.of_nat j * maxFragmentSize))) /\
    Out.outboundMessageNumberCounter s' = Out.outboundMessageNumberCounter s + Z.of_nat k /\
    Out.outboundReliableMessageNumberCounter s' = Out.outboundReliableMessageNumberCounter s /\
    nth t (Out.transfers s') (Out.mkTransfer 0 []) =
      Out.mkTransfer (((D + maxFragmentSize - 1) mod 2 ^ 64) / maxFragmentSize)
        (seq (length (Out.heap s)) k) /\
    (D + maxFragmentSize - 1 < 2 ^ 64 ->
     Out.totalNumFragments (nth t (Out.transfers s') (Out.mkTransfer 0 [])) = Z.of_nat k) /\
    Out.freedMessages s' = Out.freedMessages s ++ [h] /\
    (internalQueue = true -> forall j, (j < k)%nat ->
       In (length (Out.heap s) + j)%nat (Out.outboundQueue s')).
Proof.
  intros message D k t s'.
  assert (HD' : 0 <= D) by exact HD.
  set (s1 := Out.with_transfers s (Out.transfers s ++
               [Out.mkTransfer (((D + maxFragmentSize - 1) mod 2 ^ 64) / maxFragmentSize) []])).
  assert (Ht : (t < length (Out.transfers s1))%nat)
    by (cbn; rewrite length_app; cbn; lia).
  destruct (split_loop_spec message (nth h (Out.payload s) []) internalQueue maxFragmentSize t
              Hm (Z.to_nat D) 0 0 s1 ltac:(unfold D in HD'; lia) ltac:(unfold D; lia) Hl Ht) as (frags & chunks & HI).
  cbv zeta in HI.
  replace (D - 0 + maxFragmentSize - 1) with (D + maxFragmentSize - 1) in HI by ring.
  fold k in HI. rewrite Z.sub_0_r in HI.
  destruct HI as (A1 & A2 & A3 & A4 & A5 & A6 & A7 & A8 & A9 & A10 & A11 & A12 & A13).
  assert (Es : s' = Out.FreeMessage h (Out.SignalMsgsOut
                 (Out.split_loop message (nth h (Out.payload s) []) internalQueue
                    maxFragmentSize t (Z.to_nat D) 0 0 s1))) by reflexivity.
  rewrite Es. exists frags, chunks. cbn [Out.FreeMessage Out.SignalMsgsOut Out.heap Out.payload
    Out.outboundMessageNumberCounter Out.outboundReliableMessageNumberCounter Out.transfers
    Out.freedMessages Out.outboundQueue].
  assert (Etr : nth t (Out.transfers s1) (Out.mkTransfer 0 []) =
                Out.mkTransfer (((D + maxFragmentSize - 1) mod 2 ^ 64) / maxFragmentSize) [])
    by (cbn; apply nth_middle).
  rewrite Etr in A10. cbn [Out.totalNumFragments Out.fragments app] in A10.
  split; [exact A1|]. split; [exact A2|]. split; [exact A3|].
  split; [rewrite A5; reflexivity|].
  split; [intros j Hj; rewrite A6 by exact Hj; f_equal; lia|].
  split; [exact A7|]. split; [exact A8|]. split; [exact A10|].
  split; [intros Hfit; rewrite A10; cbn [Out.totalNumFragments]; subst k;
          rewrite Z.mod_small by lia; rewrite Z2Nat.id; [reflexivity|];
          apply Z.div_pos; lia|].
  split; [rewrite A11; reflexivity|].
  exact A13.
Qed.

Lemma split_and_queue_fragments_witness :
  let s := Out.mkState ConnectionOK true true 20 [mkMsg 42 false true 5 0 0 3 0 false None 0 5]
             [[1; 2; 3; 4; 5]] [] [] 4 [] [] 10 7 false false [] in
  let h := 0%nat in
  let internalQueue := true in
  let maxFragmentSize := 2 in
  let message := deref (Out.heap s) h in
  let D := msg_dataSize message in
  let k := Z.to_nat ((D + maxFragmentSize - 1) / maxFragmentSize) in
  let t := length (Out.transfers s) in
  let s' := Out.SplitAndQueueMessage h internalQueue maxFragmentSize s in
  exists frags chunks,
    Out.heap s' = Out.heap s ++ frags /\ Out.payload s' = Out.payload s ++ chunks /\
    length frags = k /\
    concat chunks = firstn (Z.to_nat D) (nth h (Out.payload s) []) /\
    (forall j, (j < k)%nat ->
       nth j frags null_msg =
       mkMsg (msg_id message) true (msg_inOrder message) (msg_priority message)
             (msg_contentID message) (Out.outboundMessageNumberCounter s + Z.of_nat j)
             (msg_reliableMessageNumber message) 0 false (Some t) (Z.of_nat j)
             (Z.min maxFragmentSize (D - Z.of_nat j * maxFragmentSize))) /\
    Out.outboundMessageNumberCounter s' = Out.outboundMessageNumberCounter s + Z.of_nat k /\
    Out.outboundReliableMessageNumberCounter s' = Out.outboundReliableMessageNumberCounter s /\
    nth t (Out.transfers s') (Out.mkTransfer 0 []) =
      Out.mkTransfer (((D + maxFragmentSize - 1) mod 2 ^ 64) / maxFragmentSize)
        (seq (length (Out.heap s)) k) /\
    (D + maxFragmentSize - 1 < 2 ^ 64 ->
     Out.totalNumFragments (nth t (Out.transfers s') (Out.mkTransfer 0 [])) = Z.of_nat k) /\
    Out.freedMessages s' = Out.freedMessages s ++ [h] /\
    (internalQueue = true -> forall j, (j < k)%nat ->
       In (length (Out.heap s) + j)%nat (Out.outboundQueue s')).
Proof.
  intros s h internalQueue maxFragmentSize.
  apply (split_and_queue_fragments h internalQueue maxFragmentSize s).
  - lia.
  - vm_compute. discriminate.
  - reflexivity.
Defined.

Lemma assoc_find_put (k k' : Z * Z) (v : nat) (l : list ((Z * Z) * nat)) :
  Accept.assoc_find k (Accept.assoc_put k' v l) =
  if (fst k =? fst k') && (snd k =? snd k') then Some v else Accept.assoc_find k l.
Proof.
  destruct k as [a b], k' as [a' b']. cbn [fst snd].
  induction l as [|[[c d] w] r IH]; cbn [Accept.assoc_put Accept.assoc_find fst snd].
  - reflexivity.
  - destruct (Z.eqb_spec a' c), (Z.eqb_spec b' d); subst; cbn [andb Accept.assoc_find fst snd];
      destruct (Z.eqb_spec a c), (Z.eqb_spec b d); subst; cbn [andb];
      rewrite ?Z.eqb_refl; cbn [andb]; try reflexivity; try rewrite IH;
      repeat match goal with
             | |- context [?x =? ?y] => destruct (Z.eqb_spec x y); subst; cbn [andb]
             end; try reflexivity; try congruence.
Qed.

Lemma deref_set_msg_neq (heap : list NetworkMessage) (h x : nat)
    (f : NetworkMessage -> NetworkMessage) :
  x <> h -> deref (set_msg heap h f) x = deref heap x.
Proof. intros Hx. unfold deref, set_msg. now apply nth_list_set_neq. Qed.

Lemma deref_set_msg_keys (heap : list NetworkMessage) (h x : nat) :
  msg_id (deref (set_msg heap h with_obsolete) x) = msg_id (deref heap x) /\
  msg_contentID (deref (set_msg heap h with_obsolete) x) = msg_contentID (deref heap x).
Proof.
  destruct (Nat.eq_dec x h) as [->|Hx].
  - destruct (Nat.lt_ge_cases h (length heap)) as [Hl|Hl].
    + rewrite deref_set_msg_eq by exact Hl. split; reflexivity.
    + unfold deref, set_msg. rewrite !nth_overflow; [split; reflexivity| |];
        rewrite ?length_list_set; exact Hl.
  - rewrite deref_set_msg_neq by exact Hx. split; reflexivity.
Qed.

Lemma key_eqb_true (k : Z * Z) (a b : Z) :
  (fst k =? a) && (snd k =? b) = true -> k = (a, b).
Proof.
  destruct k as [x y]. cbn. intros H. apply andb_true_iff in H as [H1 H2].
  apply Z.eqb_eq in H1, H2. now subst.
Qed.

Lemma key_eqb_false (k : Z * Z) (a b : Z) :
  (fst k =? a) && (snd k =? b) = false -> k <> (a, b).
Proof.
  destruct k as [x y]. cbn. intros H E. injection E as -> ->.
  now rewrite !Z.eqb_refl in H.
Qed.

Lemma check_and_save_live (heap : list NetworkMessage) (tbl : list ((Z * Z) * nat)) (h : nat) :
  (forall k v, Accept.assoc_find k tbl = Some v ->
     (msg_id (deref heap v), msg_contentID (deref heap v)) = k /\
     msg_obsolete (deref heap v) = false) ->
  msg_obsolete (deref heap h) = false ->
  (forall k, Accept.assoc_find k tbl <> Some h) ->
  let heap' := fst (Accept.CheckAndSaveOutboundMessageWithContentID heap tbl h) in
  let tbl' := snd (Accept.CheckAndSaveOutboundMessageWithContentID heap tbl h) in
  (forall k v, Accept.assoc_find k tbl' = Some v ->
     (msg_id (deref heap' v), msg_contentID (deref heap' v)) = k /\
     msg_obsolete (deref heap' v) = false) /\
  (forall x, x <> h -> (forall k, Accept.assoc_find k tbl <> Some x) ->
     deref heap' x = deref heap x /\ forall k, Accept.assoc_find k tbl' <> Some x).
Proof.
  intros Hinv Hh Hnot heap' tbl'.
  subst heap' tbl'. unfold Accept.CheckAndSaveOutboundMessageWithContentID. cbv zeta.
  destruct (msg_contentID (deref heap h) =? 0) eqn:Hc; cbn [fst snd].
  { split; [exact Hinv|]. intros x _ Hx. split; [reflexivity | exact Hx]. }
  set (key := (msg_id (deref heap h), msg_contentID (deref heap h))).
  destruct (Accept.assoc_find key tbl) as [old|] eqn:Ef.
  - assert (Hold := Hinv key old Ef). destruct Hold as [Hkold Hobold].
    assert (Hho : h <> old) by (intros ->; exact (Hnot key Ef)).
    destruct (MessageNumberIsNewer _ _); cbn [fst snd].
    + split.
      * intros k v Hf. rewrite assoc_find_put in Hf.
        destruct ((fst k =? fst key) && (snd k =? snd key)) eqn:Ek.
        -- injection Hf as <-. apply key_eqb_true in Ek.
           rewrite deref_set_msg_neq by exact Hho. split; [|exact Hh].
           rewrite Ek. reflexivity.
        -- apply key_eqb_false in Ek. destruct (Hinv k v Hf) as [Hk Hob].
           assert (Hvo : v <> old).
           { intros ->. apply Ek. rewrite <- Hk, Hkold. destruct key; reflexivity. }
           rewrite deref_set_msg_neq by exact Hvo. split; [exact Hk | exact Hob].
      * intros x Hx Hxt. split.
        -- apply deref_set_msg_neq. intros ->. exact (Hxt key Ef).
        -- intros k Hf. rewrite assoc_find_put in Hf.
           destruct (_ && _); [injection Hf as <-; exact (Hx eq_refl) | exact (Hxt k Hf)].
    + split.
      * intros k v Hf. destruct (Hinv k v Hf) as [Hk Hob].
        assert (Hvh : v <> h) by (intros ->; exact (Hnot k Hf)).
        rewrite deref_set_msg_neq by exact Hvh. split; [exact Hk | exact Hob].
      * intros x Hx Hxt. split; [apply deref_set_msg_neq; exact Hx | exact Hxt].
  - cbn [fst snd]. split.
    + intros k v Hf. rewrite assoc_find_put in Hf.
      destruct ((fst k =? fst key) && (snd k =? snd key)) eqn:Ek.
      * injection Hf as <-. apply key_eqb_true in Ek. split; [|exact Hh].
        rewrite Ek. reflexivity.
      * exact (Hinv k v Hf).
    + intros x Hx Hxt. split; [reflexivity|].
      intros k Hf. rewrite assoc_find_put in Hf.
      destruct (_ && _); [injection Hf as <-; exact (Hx eq_refl) | exact (Hxt k Hf)].
Qed.

Lemma accept_loop_live (fuel : nat) : forall (n : Z) (s : Accept.State),
  (forall k v, Accept.assoc_find k (Accept.outboundContentIDMessages s) = Some v ->
     (msg_id (deref (Accept.heap s) v), msg_contentID (deref (Accept.heap s) v)) = k /\
     msg_obsolete (deref (Accept.heap s) v) = false) ->
  NoDup (Accept.outboundAcceptQueue s) ->
  (forall x, In x (Accept.outboundAcceptQueue s) ->
     msg_obsolete (deref (Accept.heap s) x) = false /\
     forall k, Accept.assoc_find k (Accept.outboundContentIDMessages s) <> Some x) ->
  let s' := Accept.accept_loop n s fuel in
  forall k v, Accept.assoc_find k (Accept.outboundContentIDMessages s') = Some v ->
     (msg_id (deref (Accept.heap s') v), msg_contentID (deref (Accept.heap s') v)) = k /\
     msg_obsolete (deref (Accept.heap s') v) = false.
Proof.
  induction fuel as [|fuel IH]; intros n s Hinv Hnd Hq; cbn [Accept.accept_loop];
    [exact Hinv|].
  destruct (Accept.outboundAcceptQueue s) as [|h rest] eqn:Eq; [exact Hinv|].
  destruct (n - 1 >? 0); [|exact Hinv].
  destruct (Hq h (or_introl eq_refl)) as [Hh Hnot].
  pose proof (check_and_save_live (Accept.heap s) (Accept.outboundContentIDMessages s) h
                Hinv Hh Hnot) as Hs.
  cbv zeta in Hs.
  destruct (Accept.CheckAndSaveOutboundMessageWithContentID _ _ _) as [heap' tbl'].
  cbn [fst snd] in Hs. destruct Hs as [Hinv' Hkeep].
  apply NoDup_cons_iff in Hnd as [Hhr Hnd].
  apply IH; cbn [Accept.heap Accept.outboundContentIDMessages Accept.outboundAcceptQueue].
  - exact Hinv'.
  - exact Hnd.
  - intros x Hx.
    assert (Hxh : x <> h) by (intros ->; exact (Hhr Hx)).
    destruct (Hq x (or_intror Hx)) as [Hxo Hxt].
    destruct (Hkeep x Hxh Hxt) as [Hd Hxt']. rewrite Hd. split; [exact Hxo | exact Hxt'].
Qed.

(** [AcceptOutboundMessages] keeps the outbound content-id table live: if
    every entry of [outboundContentIDMessages] points to a message that is
    not obsolete and carries the entry's (id, content id) key, and the
    accept queue holds distinct, non-obsolete messages that the table does
    not point to, then afterwards every entry of the table still points to a
    non-obsolete message with that key: only superseded messages are marked
    obsolete. *)
Theorem accept_content_table_live (s : Accept.State)
  (Hinv : forall k v, Accept.assoc_find k (Accept.outboundContentIDMessages s) = Some v ->
     (msg_id (deref (Accept.heap s) v), msg_contentID (deref (Accept.heap s) v)) = k /\
     msg_obsolete (deref (Accept.heap s) v) = false)
  (Hnd : NoDup (Accept.outboundAcceptQueue s))
  (Hq : forall x, In x (Accept.outboundAcceptQueue s) ->
     msg_obsolete (deref (Accept.heap s) x) = false /\
     forall k, Accept.assoc_find k (Accept.outboundContentIDMessages s) <> Some x) :
  let s' := Accept.AcceptOutboundMessages s in
  forall k v, Accept.assoc_find k (Accept.outboundContentIDMessages s') = Some v ->
     (msg_id (deref (Accept.heap s') v), msg_contentID (deref (Accept.heap s') v)) = k /\
     msg_obsolete (deref (Accept.heap s') v) = false.
Proof.
  unfold Accept.AcceptOutboundMessages.
  destruct (Accept.connectionState s); try exact Hinv.
  apply accept_loop_live; assumption.
Qed.

Lemma accept_content_table_live_witness :
  let s := Accept.mkState ConnectionOK
             [mkMsg 5 true false 3 9 1 0 0 false None 0 4;
              mkMsg 5 true false 3 9 2 0 0 false None 0 4;
              mkMsg 6 false false 1 0 3 0 0 false None 0 4]
             [1%nat; 2%nat] [] [((5, 9), 0%nat)] in
  let s' := Accept.AcceptOutboundMessages s in
  Accept.assoc_find (5, 9) (Accept.outboundContentIDMessages s') = Some 1%nat /\
  (msg_id (deref (Accept.heap s') 1), msg_contentID (deref (Accept.heap s') 1)) = (5, 9) /\
  msg_obsolete (deref (Accept.heap s') 1) = false.
Proof.
  intros s s'.
  assert (Hf : Accept.assoc_find (5, 9) (Accept.outboundContentIDMessages s') = Some 1%nat)
    by (vm_compute; reflexivity).
  split; [exact Hf|].
  apply (accept_content_table_live s); [| | |exact Hf].
  - intros k v Hf0. cbn in Hf0. destruct (_ && _) eqn:E; [|discriminate].
    injection Hf0 as <-. apply key_eqb_true in E. rewrite E. split; reflexivity.
  - repeat constructor; cbn; intuition discriminate.
  - intros x Hx. cbn in Hx. destruct Hx as [<-|[<-|[]]]; (split; [reflexivity|]);
      intros k; cbn; destruct (_ && _); discriminate.
Defined.

Lemma stamps_find_put (k : Z * Z) (v : Z * Z) (l : Stamps.Table) :
  Stamps.find k (Stamps.put k v l) = Some v.
Proof.
  induction l as [|[k' v'] r IH]; cbn; [now rewrite !Z.eqb_refl|].
  destruct ((fst k =? fst k') && (snd k =? snd k')) eqn:E; cbn;
    [now rewrite !Z.eqb_refl | now rewrite E].
Qed.

(** A content-id message replayed with the same packet id is refused: once
    [CheckAndSaveContentIDStamp] has accepted packet [p] for a (message id,
    content id) key at [now1], the stamp of that key is [(p, now1)], and a
    second call for the same key and packet at most 5 seconds later returns
    false and leaves the table unchanged, provided [PacketIDIsNewerThan] does
    not call a packet id newer than itself. *)
Theorem content_stamp_replay_refused (PacketIDIsNewerThan : Z -> Z -> bool)
    (ticksPerSec now1 now2 messageID contentID p : Z) (tbl : Stamps.Table)
  (Hirr : PacketIDIsNewerThan p p = false)
  (Hwin : (Clock.TimespanToMilliseconds ticksPerSec now1 now2 <= 5 * 1000)%Q)
  (Hacc : fst (Stamps.CheckAndSaveContentIDStamp PacketIDIsNewerThan ticksPerSec now1
                 messageID contentID p tbl) = true) :
  let tbl1 := snd (Stamps.CheckAndSaveContentIDStamp PacketIDIsNewerThan ticksPerSec now1
                     messageID contentID p tbl) in
  Stamps.find (messageID, contentID) tbl1 = Some (p, now1) /\
  Stamps.CheckAndSaveContentIDStamp PacketIDIsNewerThan ticksPerSec now2
    messageID contentID p tbl1 = (false, tbl1).
Proof.
  intros tbl1.
  assert (Ht : tbl1 = Stamps.put (messageID, contentID) (p, now1) tbl).
  { subst tbl1. unfold Stamps.CheckAndSaveContentIDStamp in Hacc |- *.
    destruct (Stamps.find _ tbl) as [[sp st]|]; [|reflexivity].
    destruct (_ || _); [reflexivity | discriminate]. }
  rewrite Ht. split; [apply stamps_find_put|].
  unfold Stamps.CheckAndSaveContentIDStamp. rewrite stamps_find_put, Hirr.
  unfold Qltb. apply Qle_bool_iff in Hwin. rewrite Hwin. reflexivity.
Qed.

Lemma content_stamp_replay_refused_witness :
  let PacketIDIsNewerThan := fun a b : Z => b <? a in
  let tbl1 := snd (Stamps.CheckAndSaveContentIDStamp PacketIDIsNewerThan 1000 0
                     7 3 12 [((7, 4), (1, 0))]) in
  Stamps.find (7, 3) tbl1 = Some (12, 0) /\
  Stamps.CheckAndSaveContentIDStamp PacketIDIsNewerThan 1000 2000 7 3 12 tbl1 = (false, tbl1).
Proof.
  intros PacketIDIsNewerThan.
  apply (content_stamp_replay_refused PacketIDIsNewerThan 1000 0 2000 7 3 12).
  - reflexivity.
  - vm_compute. discriminate.
  - reflexivity.
Defined.

(** Adding a connection to a [NetworkWorkerThread] and removing it again
    gives back the original list when the connection was not registered
    before; when it was, the earlier registration is the one erased, so the
    connection stays registered, now at the end of the list. *)
Theorem remove_after_add_connection (connection : nat) (connections : list nat) :
  Worker.RemoveConnection connection (Worker.AddConnection connection connections) =
  if existsb (Nat.eqb connection) connections
  then Worker.RemoveConnection connection connections ++ [connection]
  else connections.
Proof.
  unfold Worker.RemoveConnection, Worker.AddConnection.
  induction connections as [|x r IH]; cbn.
  - now rewrite Nat.eqb_refl.
  - rewrite (Nat.eqb_sym connection x).
    destruct (Nat.eqb x connection); cbn; [reflexivity|].
    rewrite IH. destruct (existsb _ r); reflexivity.
Qed.

Lemma split_loop_pause (message : NetworkMessage) (data : list Z) (iq : bool) (mfs : Z)
    (t fuel : nat) : forall off idx s,
  Out.split_loop message data iq mfs t fuel off idx (Out.PauseOutboundSends s) =
  Out.PauseOutboundSends (Out.split_loop message data iq mfs t fuel off idx s).
Proof.
  induction fuel as [|fuel IH]; intros off idx s; [reflexivity|].
  cbn [Out.split_loop]. destruct (off <? msg_dataSize message); [|reflexivity].
  destruct s. cbn -[Out.split_loop set_msg list_set pq_insert].
  destruct iq; [rewrite <- IH; reflexivity|].
  unfold Out.AcceptQueueInsert. cbn -[Out.split_loop set_msg list_set].
  destruct acceptQueueCapacity as [|cap];
    [|destruct (length outboundAcceptQueue <=? cap)%nat];
    rewrite <- IH; reflexivity.
Qed.

Lemma SplitAndQueueMessage_pause (h : nat) (iq : bool) (mfs : Z) (s : Out.State) :
  Out.SplitAndQueueMessage h iq mfs (Out.PauseOutboundSends s) =
  Out.PauseOutboundSends (Out.SplitAndQueueMessage h iq mfs s).
Proof.
  unfold Out.SplitAndQueueMessage. cbv zeta.
  change (Out.with_transfers (Out.PauseOutboundSends s) ?ts)
    with (Out.PauseOutboundSends (Out.with_transfers s ts)).
  rewrite split_loop_pause. reflexivity.
Qed.

Lemma with_heap_pause (s : Out.State) (heap : list NetworkMessage) (payload : list (list Z)) :
  Out.with_heap (Out.PauseOutboundSends s) heap payload =
  Out.PauseOutboundSends (Out.with_heap s heap payload).
Proof. reflexivity. Qed.

Lemma IsWriteOpen_pause (s : Out.State) :
  Out.IsWriteOpen (Out.PauseOutboundSends s) = Out.IsWriteOpen s.
Proof. reflexivity. Qed.

Lemma with_counters_pause (s : Out.State) (c rc : Z) :
  Out.with_counters (Out.PauseOutboundSends s) c rc =
  Out.PauseOutboundSends (Out.with_counters s c rc).
Proof. reflexivity. Qed.

Lemma with_queues_pause (s : Out.State) (q aq : list nat) :
  Out.with_queues (Out.PauseOutboundSends s) q aq =
  Out.PauseOutboundSends (Out.with_queues s q aq).
Proof. reflexivity. Qed.

Lemma FreeMessage_pause (h : nat) (s : Out.State) :
  Out.FreeMessage h (Out.PauseOutboundSends s) = Out.PauseOutboundSends (Out.FreeMessage h s).
Proof. reflexivity. Qed.

Lemma SignalMsgsOut_paused (s : Out.State) :
  Out.SignalMsgsOut (Out.PauseOutboundSends s) = Out.PauseOutboundSends s.
Proof. reflexivity. Qed.

Lemma pause_SignalMsgsOut (s : Out.State) :
  Out.PauseOutboundSends (Out.SignalMsgsOut s) = Out.PauseOutboundSends s.
Proof. reflexivity. Qed.

Lemma AcceptQueueInsert_pause (h : nat) (s : Out.State) :
  Out.AcceptQueueInsert h (Out.PauseOutboundSends s) =
  option_map Out.PauseOutboundSends (Out.AcceptQueueInsert h s).
Proof.
  unfold Out.AcceptQueueInsert.
  change (Out.outboundAcceptQueue (Out.PauseOutboundSends s)) with (Out.outboundAcceptQueue s).
  change (Out.acceptQueueCapacity (Out.PauseOutboundSends s)) with (Out.acceptQueueCapacity s).
  destruct (Nat.ltb (length (Out.outboundAcceptQueue s)) (Out.acceptQueueCapacity s));
    reflexivity.
Qed.

Lemma pause_fields (s : Out.State) :
  Out.connectionState (Out.PauseOutboundSends s) = Out.connectionState s /\
  Out.socket (Out.PauseOutboundSends s) = Out.socket s /\
  Out.maxSendSize (Out.PauseOutboundSends s) = Out.maxSendSize s /\
  Out.heap (Out.PauseOutboundSends s) = Out.heap s /\
  Out.payload (Out.PauseOutboundSends s) = Out.payload s /\
  Out.outboundQueue (Out.PauseOutboundSends s) = Out.outboundQueue s /\
  Out.outboundAcceptQueue (Out.PauseOutboundSends s) = Out.outboundAcceptQueue s /\
  Out.outboundMessageNumberCounter (Out.PauseOutboundSends s) =
    Out.outboundMessageNumberCounter s /\
  Out.outboundReliableMessageNumberCounter (Out.PauseOutboundSends s) =
    Out.outboundReliableMessageNumberCounter s.
Proof. repeat split. Qed.

Ltac push_pause F1 F2 F3 F4 F5 F6 F7 F8 F9 :=
    repeat (rewrite ?F1, ?F2, ?F3, ?F4, ?F5, ?F6, ?F7, ?F8, ?F9, ?IsWriteOpen_pause,
              ?with_heap_pause, ?with_counters_pause, ?with_queues_pause,
              ?FreeMessage_pause, ?SignalMsgsOut_paused, ?pause_SignalMsgsOut,
              ?AcceptQueueInsert_pause, ?SplitAndQueueMessage_pause).

(** Pausing outbound sends only resets the new-messages signal and sets the
    pause flag, and [EndAndQueueMessage] never clears the flag: queueing a
    message on a paused connection gives the same state as queueing it first
    and pausing afterwards, so a paused connection is never signalled. *)
Theorem end_and_queue_commutes_with_pause (h : nat) (numBytes : Z) (internalQueue : bool)
    (s : Out.State) :
  Out.EndAndQueueMessage h numBytes internalQueue (Out.PauseOutboundSends s) =
  Out.PauseOutboundSends (Out.EndAndQueueMessage h numBytes internalQueue s).
Proof.
  unfold Out.EndAndQueueMessage. cbv zeta.
  pose proof (fun t => proj1 (pause_fields t)) as F1.
  pose proof (fun t => proj1 (proj2 (pause_fields t))) as F2.
  pose proof (fun t => proj1 (proj2 (proj2 (pause_fields t)))) as F3.
  pose proof (fun t => proj1 (proj2 (proj2 (proj2 (pause_fields t))))) as F4.
  pose proof (fun t => proj1 (proj2 (proj2 (proj2 (proj2 (pause_fields t)))))) as F5.
  pose proof (fun t => proj1 (proj2 (proj2 (proj2 (proj2 (proj2 (pause_fields t))))))) as F6.
  pose proof (fun t => proj1 (proj2 (proj2 (proj2 (proj2 (proj2 (proj2
    (pause_fields t)))))))) as F7.
  pose proof (fun t => proj1 (proj2 (proj2 (proj2 (proj2 (proj2 (proj2 (proj2
    (pause_fields t))))))))) as F8.
  pose proof (fun t => proj2 (proj2 (proj2 (proj2 (proj2 (proj2 (proj2 (proj2
    (pause_fields t))))))))) as F9.
  repeat (push_pause F1 F2 F3 F4 F5 F6 F7 F8 F9;
          first [ reflexivity
                | match goal with |- context [if ?c then _ else _] =>
                    lazymatch c with context [if _ then _ else _] => fail | _ => destruct c end
                  end ]).
  all: match goal with |- context [option_map _ (Out.AcceptQueueInsert ?h ?t)] =>
         destruct (Out.AcceptQueueInsert h t) end; reflexivity.
Qed.
